(** * A B+ tree with level-wide sibling links: the Python program as a
      heap-manipulating model, and its specification checked against it.

    The program ([node.py], [bplustree.py]) is a graph of mutable [Node]
    objects linked by [parent], [prev], [next] and by the [values] lists of
    internal nodes.  We model the object store as an arena (a list of node
    records addressed by index), every method as a computation in a state and
    exception monad, and every Python exception the interpreter could raise
    (IndexError, AttributeError, UnboundLocalError, ...) as an explicit
    outcome.  Mutations made before an exception is raised stay in the store,
    as in Python. *)

From Stdlib Require Import ZArith Lia List Bool DecimalString.
From stdpp Require Import base option list sorting strings.

Local Open Scope Z_scope.

(** ** Data model *)

(** A reference to a [Node] object. *)
Definition ref := nat.

(** An element of a [values] list: a child node (internal nodes), the
    one-element list [[data]] that [Node.add] stores next to a key, or the
    bare integer that [bulk_load] stores ([deepcopy(bucket)]). *)
Inductive value :=
| VNode (r : ref)
| VList (l : list Z)
| VInt (z : Z).

Record Node := mkNode {
  order : Z;
  leaf : bool;
  keys : list Z;
  values : list value;
  parent : option ref;
  prev : option ref;
  next : option ref
}.

(** The exceptions of [exceptions.py] and the built-in ones the modelled
    statements can raise.  [NonTermination] marks a loop that revisits an
    object for ever (only possible on a cyclic store); [DanglingRef] cannot
    occur in Python and is raised by the model when a reference is outside
    the arena. *)
Inductive exn :=
| LeftRedistributeError
| RotateError
| RemoveError
| IndexError
| AttributeError
| UnboundLocalError
| TypeError
| ValueError
| NonTermination
| DanglingRef.

(** What the program prints: the messages of [add], [remove] and [find],
    and the lines of [show] and [display]. *)
Inductive message :=
| DataAlreadyExists (data : Z)
| DataNotFound (data : Z)
| KeyFound (data : Z)
| KeyNotFound (data : Z)
| Line (text : string).

(** The state of the process: the object store, the two attributes of the one
    [BPlusTree] object, and standard output. *)
Record state := mkState {
  heap : list Node;
  tree_order : Z;
  root : ref;
  stdout : list message
}.

Inductive result (A : Type) :=
| Ok (a : A)
| Raise (e : exn).
Arguments Ok {A} a.
Arguments Raise {A} e.

(** ** The state and exception monad *)

Definition M (A : Type) : Type := state -> result A * state.

Definition ret {A} (a : A) : M A := fun s => (Ok a, s).

Definition bind {A B} (m : M A) (f : A -> M B) : M B :=
  fun s => match m s with
           | (Ok a, s') => f a s'
           | (Raise e, s') => (Raise e, s')
           end.

Definition raise {A} (e : exn) : M A := fun s => (Raise e, s).

(** [try: m except e: h] *)
Definition try_except {A} (m : M A) (e : exn) (h : M A) : M A :=
  fun s => match m s with
           | (Ok a, s') => (Ok a, s')
           | (Raise e', s') =>
               if match e, e' with
                  | LeftRedistributeError, LeftRedistributeError
                  | RotateError, RotateError
                  | RemoveError, RemoveError => true
                  | _, _ => false
                  end
               then h s' else (Raise e', s')
           end.

Declare Scope py_scope.
Delimit Scope py_scope with py.
Notation "x <- m ;; k" := (bind m (fun x => k))
  (at level 100, m at next level, right associativity) : py_scope.
Notation "m ;;; k" := (bind m (fun _ => k))
  (at level 100, right associativity) : py_scope.
Local Open Scope py_scope.

Definition get_state : M state := fun s => (Ok s, s).
Definition print (m : message) : M unit :=
  fun s => (Ok tt, mkState (heap s) (tree_order s) (root s) (stdout s ++ [m])).
Definition set_root (r : ref) : M unit :=
  fun s => (Ok tt, mkState (heap s) (tree_order s) r (stdout s)).
Definition set_heap (h : list Node) : M unit :=
  fun s => (Ok tt, mkState h (tree_order s) (root s) (stdout s)).

(** Object access.  Every attribute read goes to the store, so that two names
    for one object see each other's writes. *)
Definition get_node (r : ref) : M Node :=
  fun s => match heap s !! r with
           | Some n => (Ok n, s)
           | None => (Raise DanglingRef, s)
           end.

Definition update_node (r : ref) (f : Node -> Node) : M unit :=
  n <- get_node r ;;
  s <- get_state ;;
  set_heap (<[r := f n]> (heap s)).

(** [Node(order, leaf, keys, values, parent)]: a new object, [prev] and
    [next] are [None]. *)
Definition new_node (o : Z) (l : bool) (ks : list Z) (vs : list value)
    (p : option ref) : M ref :=
  s <- get_state ;;
  set_heap (heap s ++ [mkNode o l ks vs p None None]) ;;;
  ret (length (heap s)).

Definition set_leaf (r : ref) (b : bool) : M unit :=
  update_node r (fun n => mkNode (order n) b (keys n) (values n) (parent n) (prev n) (next n)).
Definition set_keys (r : ref) (ks : list Z) : M unit :=
  update_node r (fun n => mkNode (order n) (leaf n) ks (values n) (parent n) (prev n) (next n)).
Definition set_values (r : ref) (vs : list value) : M unit :=
  update_node r (fun n => mkNode (order n) (leaf n) (keys n) vs (parent n) (prev n) (next n)).
Definition set_parent (r : ref) (p : option ref) : M unit :=
  update_node r (fun n => mkNode (order n) (leaf n) (keys n) (values n) p (prev n) (next n)).
Definition set_prev (r : ref) (p : option ref) : M unit :=
  update_node r (fun n => mkNode (order n) (leaf n) (keys n) (values n) (parent n) p (next n)).
Definition set_next (r : ref) (p : option ref) : M unit :=
  update_node r (fun n => mkNode (order n) (leaf n) (keys n) (values n) (parent n) (prev n) p).

Definition get_leaf (r : ref) : M bool := n <- get_node r ;; ret (leaf n).
Definition get_keys (r : ref) : M (list Z) := n <- get_node r ;; ret (keys n).
Definition get_values (r : ref) : M (list value) := n <- get_node r ;; ret (values n).
Definition get_parent (r : ref) : M (option ref) := n <- get_node r ;; ret (parent n).
Definition get_prev (r : ref) : M (option ref) := n <- get_node r ;; ret (prev n).
Definition get_next (r : ref) : M (option ref) := n <- get_node r ;; ret (next n).

(** Attribute access on something that may be [None]. *)
Definition not_none (o : option ref) : M ref :=
  match o with
  | Some r => ret r
  | None => raise AttributeError
  end.

(** Attribute access on an element of [values]: only a [Node] has the
    attributes [leaf], [keys], [parent], ...; an [int] or a [list] raises
    AttributeError. *)
Definition as_node (v : value) : M ref :=
  match v with
  | VNode r => ret r
  | _ => raise AttributeError
  end.

(** ** Python list primitives *)

(** [l[i]] for an integer [i], negative indices counting from the end. *)
Definition py_index {A} (l : list A) (i : Z) : option A :=
  if i <? 0
  then (if Z.of_nat (length l) + i <? 0 then None
        else l !! Z.to_nat (Z.of_nat (length l) + i))
  else l !! Z.to_nat i.

Definition index {A} (l : list A) (i : Z) : M A :=
  match py_index l i with
  | Some a => ret a
  | None => raise IndexError
  end.

(** [l.pop(i)]: the list without its element [i], or IndexError. *)
Definition py_pop {A} (l : list A) (i : Z) : option (list A) :=
  if i <? 0
  then (if Z.of_nat (length l) + i <? 0 then None
        else Some (delete (Z.to_nat (Z.of_nat (length l) + i)) l))
  else if (Z.to_nat i <? length l)%nat then Some (delete (Z.to_nat i) l) else None.

Definition pop {A} (l : list A) (i : Z) : M (list A) :=
  match py_pop l i with
  | Some l' => ret l'
  | None => raise IndexError
  end.

(** The bound of a slice [l[:i]] or [l[i:]]. *)
Definition slice_bound (len : nat) (i : Z) : nat :=
  if i <? 0 then Z.to_nat (Z.max 0 (Z.of_nat len + i)) else Z.to_nat i.
Definition slice_to {A} (l : list A) (i : Z) : list A := take (slice_bound (length l) i) l.
Definition slice_from {A} (l : list A) (i : Z) : list A := drop (slice_bound (length l) i) l.

(** [l.index(x)]: position of the first occurrence. *)
Fixpoint list_index (x : Z) (l : list Z) : option nat :=
  match l with
  | [] => None
  | y :: l' => if x =? y then Some O else S <$> list_index x l'
  end.

(** [math.ceil(order / 2)] *)
Definition ceil_half (o : Z) : Z := (o + 1) / 2.

(** [for x in l: body x] *)
Fixpoint for_each {A} (l : list A) (body : A -> M unit) : M unit :=
  match l with
  | [] => ret tt
  | x :: l' => body x ;;; for_each l' body
  end.

(** ** [node.py]: class [Node] *)

Module Node.

(** [len(self.keys) < math.ceil(self.order / 2)] *)
Definition is_underflow (n : Node) : bool :=
  Z.of_nat (length (keys n)) <? ceil_half (order n).

(** [len(self.keys) > self.order] *)
Definition is_overflow (n : Node) : bool :=
  order n <? Z.of_nat (length (keys n)).

(** The [for i, key in enumerate(self.keys)] loop of [add]: what it decides. *)
Inductive add_decision :=
| Duplicate
| InsertAt (i : nat)
| Append.

Fixpoint add_scan (data : Z) (ks : list Z) (i : nat) : add_decision :=
  match ks with
  | [] => Append
  | key :: ks' =>
      if data =? key then Duplicate
      else if data <? key then InsertAt i
      else add_scan data ks' (S i)
  end.

Definition add (self : ref) (data : Z) : M unit :=
  n <- get_node self ;;
  match keys n with
  | [] =>
      set_keys self (keys n ++ [data]) ;;;
      vs <- get_values self ;;
      set_values self (vs ++ [VList [data]])
  | _ =>
      match add_scan data (keys n) 0 with
      | Duplicate => print (DataAlreadyExists data)
      | InsertAt i =>
          set_keys self (take i (keys n) ++ [data] ++ drop i (keys n)) ;;;
          vs <- get_values self ;;
          set_values self (take i vs ++ [VList [data]] ++ drop i vs)
      | Append =>
          set_keys self (keys n ++ [data]) ;;;
          vs <- get_values self ;;
          set_values self (vs ++ [VList [data]])
      end
  end.

(** Returns [(self.parent, old_min_key, new_min_key)]. *)
Definition remove (self : ref) (data : Z) : M (option ref * Z * Z) :=
  ks <- get_keys self ;;
  match list_index data ks with
  | None => print (DataNotFound data) ;;; raise RemoveError
  | Some idx =>
      old_min_key <- index ks 0 ;;
      ks' <- pop ks (Z.of_nat idx) ;;
      set_keys self ks' ;;;
      vs <- get_values self ;;
      vs' <- pop vs (Z.of_nat idx) ;;
      set_values self vs' ;;;
      ks'' <- get_keys self ;;
      let new_min_key := match ks'' with k :: _ => k | [] => old_min_key end in
      p <- get_parent self ;;
      ret (p, old_min_key, new_min_key)
  end.

Definition _update_doubly_linked_list (self left right : ref) : M unit :=
  sp <- get_prev self ;;
  set_prev left sp ;;;
  sn <- get_next self ;;
  set_next right sn ;;;
  sp <- get_prev self ;;
  match sp with
  | Some p => set_next p (Some left)
  | None => ret tt
  end ;;;
  sn <- get_next self ;;
  match sn with
  | Some q => set_prev q (Some right)
  | None => ret tt
  end ;;;
  set_next left (Some right) ;;;
  set_prev right (Some left).

Definition split (self : ref) : M unit :=
  n <- get_node self ;;
  let key_mid_idx := ceil_half (order n) in
  let value_mid_idx := if leaf n then key_mid_idx else key_mid_idx + 1 in
  left <- new_node (order n) (leaf n) (slice_to (keys n) key_mid_idx)
            (slice_to (values n) value_mid_idx) (Some self) ;;
  right <- new_node (order n) (leaf n) (slice_from (keys n) key_mid_idx)
            (slice_from (values n) value_mid_idx) (Some self) ;;
  is_leaf <- get_leaf self ;;
  (if is_leaf then ret tt
   else
     lvs <- get_values left ;;
     for_each lvs (fun child => c <- as_node child ;; set_parent c (Some left)) ;;;
     rvs <- get_values right ;;
     for_each rvs (fun child => c <- as_node child ;; set_parent c (Some right))) ;;;
  is_leaf <- get_leaf self ;;
  rks <- get_keys right ;;
  k <- index rks 0 ;;
  (if is_leaf then ret tt
   else rks' <- pop rks 0 ;; set_keys right rks') ;;;
  set_keys self [k] ;;;
  set_values self [VNode left; VNode right] ;;;
  set_leaf self false ;;;
  _update_doubly_linked_list self left right.

(** [f"{key:>2}"]: the decimal numeral of [key], padded with blanks on the
    left to two characters. *)
Definition rjust2 (text : string) : string :=
  match text with
  | EmptyString => "  "
  | String _ EmptyString => " " +:+ text
  | _ => text
  end.

Definition key_aligned (key : Z) : string :=
  rjust2 (NilZero.string_of_int (Z.to_int key)).

(** The line that [show] prints for a node: the keys, padded with ["__"] up
    to [order] entries, between brackets and commas (leaf) or parentheses
    and colons (internal node), after four blanks for every level. *)
Definition show_line (level : nat) (self : Node) : string :=
  let seperate_symbol := if leaf self then "," else ":" in
  let start := if leaf self then "[" else "(" in
  let end_ := if leaf self then "]" else ")" in
  let keys_aligned :=
    (key_aligned <$> keys self)
    ++ replicate (Z.to_nat (order self - Z.of_nat (length (keys self)))) "__" in
  let keys_formatted := start +:+ String.concat seperate_symbol keys_aligned +:+ end_ in
  let indentation := String.concat "" (replicate level "    ") in
  indentation +:+ keys_formatted.

(** [show(level)]: the node's line, then the children of an internal node,
    one level deeper.  [fuel] bounds the depth of the recursion; it runs out
    only on a cyclic store. *)
Fixpoint show (fuel : nat) (self : ref) (level : nat) : M unit :=
  match fuel with
  | O => raise NonTermination
  | S fuel' =>
      n <- get_node self ;;
      print (Line (show_line level n)) ;;;
      if leaf n then ret tt
      else for_each (values n)
             (fun child => c <- as_node child ;; show fuel' c (S level))
  end.

End Node.

(** ** [bplustree.py]: class [BPlusTree] *)

(** [insert], [delete] and [bulk_load] are wrapped by the decorator
    [_display_bplus_tree], which runs the method, drops what it returns and
    prints the tree ([display], [Node.show]).  The definitions [insert],
    [delete] and [bulk_load] below are the methods under the decorator (what
    [insert_without_display] reaches through [__wrapped__]); the method that
    a caller of [tree.insert] runs is [_display_bplus_tree insert]. *)

Module BPlusTree.

(** [BPlusTree(order)]: the root is a leaf without keys.  (The root is built
    with the default arguments [keys=[]], [values=[]] of [Node.__init__];
    these two list objects are shared by every tree of one process.  The
    model covers the one tree that [main.py] creates.) *)
Definition init (o : Z) : state :=
  mkState [mkNode o true [] [] None None None] o 0%nat [].

(** The [while not node.leaf] loop of [_search_min_key_in_subtree]. *)
Fixpoint min_key_loop (fuel : nat) (node : value) : M Z :=
  match fuel with
  | O => raise NonTermination
  | S fuel' =>
      r <- as_node node ;;
      n <- get_node r ;;
      if leaf n then index (keys n) 0
      else child <- index (values n) 0 ;; min_key_loop fuel' child
  end.

Definition _search_min_key_in_subtree (node : value) : M Z :=
  match node with
  | VList l => index l 0
  | _ => s <- get_state ;; min_key_loop (S (length (heap s))) node
  end.

(** Index of the first key with [data < key], or [len(keys)]. *)
Fixpoint position_scan (data : Z) (ks : list Z) (i : nat) : nat :=
  match ks with
  | [] => i
  | key :: ks' => if data <? key then i else position_scan data ks' (S i)
  end.

(** With no key at all the loop variable [i] is never bound and
    [node.values[i + 1]] raises UnboundLocalError. *)
Definition _search_position_in_child (node : ref) (data : Z) : M (value * nat) :=
  n <- get_node node ;;
  match keys n with
  | [] => raise UnboundLocalError
  | _ =>
      let i := position_scan data (keys n) 0 in
      child <- index (values n) (Z.of_nat i) ;;
      ret (child, i)
  end.

(** Index of the first key with [pivot < key], if any. *)
Fixpoint pivot_scan (pivot : Z) (ks : list Z) (i : nat) : option nat :=
  match ks with
  | [] => None
  | key :: ks' => if pivot <? key then Some i else pivot_scan pivot ks' (S i)
  end.

Definition _merge_into_parent (node : ref) (idx : Z) : M unit :=
  po <- get_parent node ;;
  parent <- not_none po ;;
  pvs <- get_values parent ;;
  pvs' <- pop pvs idx ;;
  set_values parent pvs' ;;;
  nvs <- get_values node ;;
  for_each nvs (fun child => c <- as_node child ;; set_parent c (Some parent)) ;;;
  nks <- get_keys node ;;
  pivot <- index nks 0 ;;
  pks <- get_keys parent ;;
  match pivot_scan pivot pks 0 with
  | Some i =>
      set_keys parent (take i pks ++ [pivot] ++ drop i pks) ;;;
      pvs <- get_values parent ;;
      nvs <- get_values node ;;
      set_values parent (take i pvs ++ nvs ++ drop i pvs)
  | None =>
      set_keys parent (pks ++ [pivot]) ;;;
      pvs <- get_values parent ;;
      nvs <- get_values node ;;
      set_values parent (pvs ++ nvs)
  end.

Definition _left_rotate (node : ref) : M (option ref * Z * Z) :=
  left_sibling <- get_prev node ;;
  nvs <- get_values node ;;
  v0 <- index nvs 0 ;;
  old_min_key <- _search_min_key_in_subtree v0 ;;
  v1 <- index nvs 1 ;;
  new_min_key <- _search_min_key_in_subtree v1 ;;
  ls <- not_none left_sibling ;;
  lks <- get_keys ls ;;
  set_keys ls (lks ++ [old_min_key]) ;;;
  lvs <- get_values ls ;;
  nvs <- get_values node ;;
  v0 <- index nvs 0 ;;
  set_values ls (lvs ++ [v0]) ;;;
  nks <- get_keys node ;;
  nks' <- pop nks 0 ;;
  set_keys node nks' ;;;
  nvs <- get_values node ;;
  nvs' <- pop nvs 0 ;;
  set_values node nvs' ;;;
  ls_leaf <- get_leaf ls ;;
  (if ls_leaf then ret tt
   else
     lvs <- get_values ls ;;
     v <- index lvs (-1) ;;
     c <- as_node v ;;
     set_parent c (Some ls)) ;;;
  p <- get_parent node ;;
  ret (p, old_min_key, new_min_key).

Definition _right_rotate (node : ref) : M (option ref * Z * Z) :=
  right_sibling <- get_next node ;;
  rs <- not_none right_sibling ;;
  rvs <- get_values rs ;;
  rv0 <- index rvs 0 ;;
  old_min_key <- _search_min_key_in_subtree rv0 ;;
  nvs <- get_values node ;;
  vlast <- index nvs (-1) ;;
  new_min_key <- _search_min_key_in_subtree vlast ;;
  node_leaf <- get_leaf node ;;
  rks <- get_keys rs ;;
  set_keys rs ((if node_leaf then new_min_key else old_min_key) :: rks) ;;;
  rvs <- get_values rs ;;
  nvs <- get_values node ;;
  vlast <- index nvs (-1) ;;
  set_values rs (vlast :: rvs) ;;;
  nks <- get_keys node ;;
  nks' <- pop nks (-1) ;;
  set_keys node nks' ;;;
  nvs <- get_values node ;;
  nvs' <- pop nvs (-1) ;;
  set_values node nvs' ;;;
  rs_leaf <- get_leaf rs ;;
  (if rs_leaf then ret tt
   else
     rvs <- get_values rs ;;
     v <- index rvs 0 ;;
     c <- as_node v ;;
     set_parent c (Some rs)) ;;;
  p <- get_parent rs ;;
  ret (p, old_min_key, new_min_key).

Definition _rotate (node : ref) : M (option ref * Z * Z) :=
  s <- get_state ;;
  np <- get_prev node ;;
  left_ok <- match np with
             | Some p => pks <- get_keys p ;; ret (Z.of_nat (length pks) <? tree_order s)
             | None => ret false
             end ;;
  if left_ok : bool then _left_rotate node
  else
    nn <- get_next node ;;
    right_ok <- match nn with
                | Some q => qks <- get_keys q ;; ret (Z.of_nat (length qks) <? tree_order s)
                | None => ret false
                end ;;
    if right_ok : bool then _right_rotate node
    else raise RotateError.

Definition _left_redistribute (node : ref) (idx : nat) : M (option ref * Z * Z) :=
  s <- get_state ;;
  left_sibling <- get_prev node ;;
  match left_sibling with
  | None => raise LeftRedistributeError
  | Some ls =>
      lks <- get_keys ls ;;
      if ceil_half (tree_order s) <? Z.of_nat (length lks) then _right_rotate ls
      else
        nks <- get_keys node ;;
        if tree_order s <? Z.of_nat (length nks) + Z.of_nat (length lks)
        then raise LeftRedistributeError
        else
          nvs <- get_values node ;;
          v0 <- index nvs 0 ;;
          old_min_key <- _search_min_key_in_subtree v0 ;;
          new_min_key <-
            (if (idx =? 0)%nat
             then
               nn <- get_next node ;;
               q <- not_none nn ;;
               qvs <- get_values q ;;
               qv0 <- index qvs 0 ;;
               _search_min_key_in_subtree qv0
             else ret old_min_key) ;;
          node_leaf <- get_leaf node ;;
          nks <- get_keys node ;;
          let merged_keys := if node_leaf then nks else old_min_key :: nks in
          lks <- get_keys ls ;;
          set_keys ls (lks ++ merged_keys) ;;;
          lvs <- get_values ls ;;
          nvs <- get_values node ;;
          set_values ls (lvs ++ nvs) ;;;
          let key_idx := if (idx =? 0)%nat then idx else (idx - 1)%nat in
          po <- get_parent node ;;
          p <- not_none po ;;
          pks <- get_keys p ;;
          pks' <- pop pks (Z.of_nat key_idx) ;;
          set_keys p pks' ;;;
          po <- get_parent node ;;
          p <- not_none po ;;
          pvs <- get_values p ;;
          pvs' <- pop pvs (Z.of_nat idx) ;;
          set_values p pvs' ;;;
          node_leaf <- get_leaf node ;;
          (if node_leaf then ret tt
           else
             lvs <- get_values ls ;;
             for_each lvs (fun child => c <- as_node child ;; set_parent c (Some ls))) ;;;
          nn <- get_next node ;;
          set_next ls nn ;;;
          nn <- get_next node ;;
          match nn with
          | Some q => set_prev q (Some ls)
          | None => ret tt
          end ;;;
          po <- get_parent node ;;
          ret (po, old_min_key, new_min_key)
  end.

Definition _right_redistribute (node : ref) : M (option ref * Z * Z) :=
  s <- get_state ;;
  right_sibling <- get_next node ;;
  rs <- not_none right_sibling ;;
  rks <- get_keys rs ;;
  if ceil_half (tree_order s) <? Z.of_nat (length rks) then _left_rotate rs
  else
    rvs <- get_values rs ;;
    rv0 <- index rvs 0 ;;
    new_min_key <- _search_min_key_in_subtree rv0 ;;
    node_leaf <- get_leaf node ;;
    nks <- get_keys node ;;
    let merged_keys := if node_leaf then nks else nks ++ [new_min_key] in
    rks <- get_keys rs ;;
    set_keys rs (merged_keys ++ rks) ;;;
    nvs <- get_values node ;;
    rvs <- get_values rs ;;
    set_values rs (nvs ++ rvs) ;;;
    po <- get_parent node ;;
    p <- not_none po ;;
    pks <- get_keys p ;;
    pks' <- pop pks 0 ;;
    set_keys p pks' ;;;
    po <- get_parent node ;;
    p <- not_none po ;;
    pvs <- get_values p ;;
    pvs' <- pop pvs 0 ;;
    set_values p pvs' ;;;
    node_leaf <- get_leaf node ;;
    (if node_leaf then ret tt
     else
       rvs <- get_values rs ;;
       for_each rvs (fun child => c <- as_node child ;; set_parent c (Some rs))) ;;;
    set_prev rs None ;;;
    ret (None, -1, -1).

(** [node.keys[node.keys.index(old_min_key)] = new_min_key], doing nothing on
    ValueError. *)
Definition replace_first (old_min_key new_min_key : Z) (ks : list Z) : list Z :=
  match list_index old_min_key ks with
  | Some i => <[i := new_min_key]> ks
  | None => ks
  end.

Fixpoint update_parents_loop (fuel : nat) (node : option ref)
    (old_min_key new_min_key : Z) : M unit :=
  match node with
  | None => ret tt
  | Some r =>
      match fuel with
      | O => raise NonTermination
      | S fuel' =>
          ks <- get_keys r ;;
          set_keys r (replace_first old_min_key new_min_key ks) ;;;
          p <- get_parent r ;;
          update_parents_loop fuel' p old_min_key new_min_key
      end
  end.

Definition _update_parents (a : option ref * Z * Z) : M unit :=
  let '(node, old_min_key, new_min_key) := a in
  s <- get_state ;;
  update_parents_loop (S (length (heap s))) node old_min_key new_min_key.

(** [_chunks(lst, n)] for [n > 0]. *)
Fixpoint chunks (fuel : nat) (lst : list Z) (n : nat) : list (list Z) :=
  match fuel, lst with
  | _, [] => []
  | O, _ => []
  | S fuel', _ => take n lst :: chunks fuel' (drop n lst) n
  end.

(** The descent [while not curr_node.leaf] shared by [insert], [delete] and
    [find].  [path] is the Python list [path] with its last element first. *)
Fixpoint descend (fuel : nat) (curr_node : ref) (data : Z) (path : list nat)
    : M (ref * list nat) :=
  match fuel with
  | O => raise NonTermination
  | S fuel' =>
      is_leaf <- get_leaf curr_node ;;
      if is_leaf then ret (curr_node, path)
      else
        ci <- _search_position_in_child curr_node data ;;
        child <- as_node (fst ci) ;;
        descend fuel' child data (snd ci :: path)
  end.

Definition locate (data : Z) : M (ref * list nat) :=
  s <- get_state ;;
  descend (S (length (heap s))) (root s) data [].

(** [path.pop()] *)
Definition path_pop (path : list nat) : M (nat * list nat) :=
  match path with
  | idx :: path' => ret (idx, path')
  | [] => raise IndexError
  end.

(** The [while curr_node is not None and curr_node.is_overflow()] loop of
    [insert]. *)
Fixpoint insert_repair (fuel : nat) (curr_node : option ref) (path : list nat)
    : M unit :=
  match curr_node with
  | None => ret tt
  | Some c =>
      n <- get_node c ;;
      if negb (Node.is_overflow n) then ret tt
      else
        match fuel with
        | O => raise NonTermination
        | S fuel' =>
            r <- try_except
                   (a <- _rotate c ;; _update_parents a ;;; ret None)
                   RotateError
                   (Node.split c ;;;
                    p <- get_parent c ;;
                    match p with
                    | Some _ =>
                        ip <- path_pop path ;;
                        _merge_into_parent c (Z.of_nat (fst ip)) ;;;
                        ret (Some (snd ip))
                    | None => ret (Some path)
                    end) ;;
            match r with
            | None => ret tt
            | Some path' =>
                p <- get_parent c ;;
                insert_repair fuel' p path'
            end
        end
  end.

Definition insert (data : Z) : M unit :=
  cp <- locate data ;;
  Node.add (fst cp) data ;;;
  s <- get_state ;;
  insert_repair (S (length (heap s))) (Some (fst cp)) (snd cp).

(** The [while ... curr_node.is_underflow()] loop of [delete]. *)
Fixpoint delete_repair (fuel : nat) (curr_node : option ref) (path : list nat)
    : M unit :=
  match curr_node with
  | None => ret tt
  | Some c =>
      n <- get_node c ;;
      match parent n with
      | None => ret tt
      | Some _ =>
          if negb (Node.is_underflow n) then ret tt
          else
            match fuel with
            | O => raise NonTermination
            | S fuel' =>
                ip <- path_pop path ;;
                try_except
                  (a <- _left_redistribute c (fst ip) ;; _update_parents a)
                  LeftRedistributeError
                  (a <- _right_redistribute c ;; _update_parents a) ;;;
                p <- get_parent c ;;
                delete_repair fuel' p (snd ip)
            end
      end
  end.

Definition delete (data : Z) : M unit :=
  cp <- locate data ;;
  r <- try_except
         (a <- Node.remove (fst cp) data ;; ret (Some a))
         RemoveError
         (ret None) ;;
  match r with
  | None => ret tt
  | Some a =>
      _update_parents a ;;;
      s <- get_state ;;
      delete_repair (S (length (heap s))) (Some (fst cp)) (snd cp) ;;;
      s <- get_state ;;
      rn <- get_node (root s) ;;
      if negb (leaf rn) && (length (values rn) <=? 1)%nat
      then
        v <- index (values rn) 0 ;;
        r' <- as_node v ;;
        set_root r' ;;;
        set_parent r' None
      else ret tt
  end.

Definition find (data : Z) : M unit :=
  cp <- locate data ;;
  ks <- get_keys (fst cp) ;;
  match list_index data ks with
  | Some _ => print (KeyFound data)
  | None => print (KeyNotFound data)
  end.

(** The [while curr_node is not None and curr_node.is_overflow()] loop of
    [bulk_load]; returns the new [last_parent]. *)
Fixpoint bulk_repair (fuel : nat) (curr_node : option ref) (last_parent : ref)
    (first_split : bool) : M ref :=
  match curr_node with
  | None => ret last_parent
  | Some c =>
      n <- get_node c ;;
      if negb (Node.is_overflow n) then ret last_parent
      else
        match fuel with
        | O => raise NonTermination
        | S fuel' =>
            Node.split c ;;;
            p <- get_parent c ;;
            match p with
            | Some _ => _merge_into_parent c (-1)
            | None => ret tt
            end ;;;
            last_parent' <-
              (if first_split then ret last_parent
               else
                 vs <- get_values last_parent ;;
                 v <- index vs 1 ;;
                 as_node v) ;;
            p <- get_parent c ;;
            bulk_repair fuel' p last_parent' true
        end
  end.

(** The [for i, bucket in enumerate(buckets)] loop of [bulk_load]. *)
Fixpoint bulk_loop (buckets : list (list Z)) (i : nat) (last_parent : ref)
    (left_sibling : option ref) : M unit :=
  match buckets with
  | [] => ret tt
  | bucket :: buckets' =>
      s <- get_state ;;
      curr_node <- new_node (tree_order s) true bucket (VInt <$> bucket)
                     (Some last_parent) ;;
      match left_sibling with
      | Some l => set_next l (Some curr_node)
      | None => ret tt
      end ;;;
      set_prev curr_node left_sibling ;;;
      (if (i =? 0)%nat then ret tt
       else
         b0 <- index bucket 0 ;;
         lks <- get_keys last_parent ;;
         set_keys last_parent (lks ++ [b0])) ;;;
      lvs <- get_values last_parent ;;
      set_values last_parent (lvs ++ [VNode curr_node]) ;;;
      s <- get_state ;;
      last_parent' <- bulk_repair (S (length (heap s))) (Some last_parent)
                        last_parent false ;;
      bulk_loop buckets' (S i) last_parent' (Some curr_node)
  end.

(** [sorted(values)] *)
Definition sorted (l : list Z) : list Z := merge_sort Z.le l.

Definition bulk_load (values : list Z) : M unit :=
  s <- get_state ;;
  set_leaf (root s) false ;;;
  let last_parent := root s in
  let lst := sorted values in
  if tree_order s =? 0 then raise ValueError
  else
    let buckets :=
      if tree_order s <? 0 then []
      else chunks (length lst) lst (Z.to_nat (tree_order s)) in
    bulk_loop buckets 0 last_parent None.

(** [display()]: the tree in preorder, then an empty line.  (The call of
    [logger.info] prints nothing at the level the program sets.) *)
Definition display : M unit :=
  s <- get_state ;;
  Node.show (S (length (heap s))) (root s) 0 ;;;
  print (Line "").

(** The decorator: [func(self, data)], then [self.display()]. *)
Definition _display_bplus_tree (func : Z -> M unit) (data : Z) : M unit :=
  func data ;;;
  display.

End BPlusTree.



(** ** [main.py]: the commands of the interactive interface *)

Module Main.

Import Stdlib.Strings.Ascii.

Definition ONE_TERM_COMMAND_PREFIXES : string := "Dq".
Definition TWO_TERM_COMMAND_PREFIXES : string := "idf".

(** [a in b] for two strings: [a] occurs in [b]. *)
Fixpoint str_in (a b : string) : bool :=
  String.prefix a b
  || match b with
     | String _ b' => str_in a b'
     | EmptyString => false
     end.

(** [command.split(" ")] *)
Fixpoint str_split (command : string) : list string :=
  match command with
  | EmptyString => [EmptyString]
  | String c rest =>
      if Ascii.eqb c " "%char then EmptyString :: str_split rest
      else match str_split rest with
           | w :: ws => String c w :: ws
           | [] => [String c EmptyString]
           end
  end.

(** How a call of [run_command] ends: it returns, it raises an exception
    of the tree, of [command_args[1]] or of [int] ([Raised]), it raises
    NotImplementedError, or it leaves the program ([sys.exit()] raises
    SystemExit). *)
Inductive outcome :=
| Returned
| Raised (e : exn)
| NotImplementedError
| SystemExit.

(** A method of the tree called from [run_command]. *)
Definition call (method : M unit) : state -> outcome * state :=
  fun s => match method s with
           | (Ok _, s') => (Returned, s')
           | (Raise e, s') => (Raised e, s')
           end.

Section Commands.

(** Python's [int(s)] on a string; [None] stands for ValueError. *)
Variable int : string -> option Z.

Definition is_integer (s : string) : bool :=
  match int s with
  | Some _ => true
  | None => false
  end.

Definition is_command_valid (command : string) : bool :=
  let command_args := str_split command in
  match command_args with
  | [a] => str_in a ONE_TERM_COMMAND_PREFIXES
  | [a; b] => str_in a TWO_TERM_COMMAND_PREFIXES && is_integer b
  | _ => false
  end.

(** [method(int(command_args[1]))] *)
Definition with_int_arg (command_args : list string) (method : Z -> M unit)
    : state -> outcome * state :=
  match command_args !! 1%nat with
  | None => fun s => (Raised IndexError, s)
  | Some a =>
      match int a with
      | Some data => call (method data)
      | None => fun s => (Raised ValueError, s)
      end
  end.

(** [run_command(tree, command)]; [tree.insert] and [tree.delete] are the
    decorated methods. *)
Definition run_command (command : string) : state -> outcome * state :=
  let command_args := str_split command in
  match command_args with
  | [] => fun s => (Raised IndexError, s)
  | a :: _ =>
      if String.eqb a "i" then
        with_int_arg command_args (BPlusTree._display_bplus_tree BPlusTree.insert)
      else if String.eqb a "d" then
        with_int_arg command_args (BPlusTree._display_bplus_tree BPlusTree.delete)
      else if String.eqb a "D" then call BPlusTree.display
      else if String.eqb a "f" then with_int_arg command_args BPlusTree.find
      else if String.eqb a "q" then fun s => (SystemExit, s)
      else fun s => (NotImplementedError, s)
  end.

End Commands.

End Main.

(** ** Running the public operations *)

Inductive operation :=
| Insert (key : Z)
| Delete (key : Z)
| Find (key : Z)
| BulkLoad (values : list Z).

Definition perform (op : operation) : M unit :=
  match op with
  | Insert k => BPlusTree.insert k
  | Delete k => BPlusTree.delete k
  | Find k => BPlusTree.find k
  | BulkLoad l => BPlusTree.bulk_load l
  end.

Definition run (ops : list operation) : M unit := for_each ops perform.

(** The state after [ops] on a new tree of order [o], and how the last
    operation that ran ended. *)
Definition run_from_empty (o : Z) (ops : list operation) : result unit * state :=
  run ops (BPlusTree.init o).

(** ** The invariants of the specification, as decidable checks on a store *)

Section Observations.

Variable h : list Node.

(** The nodes of the subtree of [r] in preorder, each with its depth below
    [r].  [fuel] bounds the height. *)
Fixpoint subtree (fuel : nat) (depth : nat) (r : ref) : list (nat * ref) :=
  match fuel with
  | O => []
  | S fuel' =>
      match h !! r with
      | None => []
      | Some n =>
          (depth, r) ::
          (if leaf n then []
           else flat_map (fun v => match v with
                                   | VNode c => subtree fuel' (S depth) c
                                   | _ => []
                                   end) (values n))
      end
  end.

(** The keys stored in the leaves of the subtree of [r], left to right. *)
Definition subtree_keys (r : ref) : list Z :=
  flat_map (fun dr => match h !! snd dr with
                      | Some n => if leaf n then keys n else []
                      | None => []
                      end) (subtree (length h) 0 r).

Definition minimum (l : list Z) : option Z :=
  match l with
  | [] => None
  | x :: l' => Some (fold_right Z.min x l')
  end.

(** [keys[i]] is the minimum key of the subtree of [children[i+1]], for all
    [i]. *)
Definition separators_ok (n : Node) : bool :=
  forallb (fun i =>
             match keys n !! i, values n !! S i with
             | Some k, Some (VNode c) =>
                 match minimum (subtree_keys c) with
                 | Some m => k =? m
                 | None => false
                 end
             | _, _ => false
             end) (seq 0 (length (keys n))).

(** [ceil(order/2) <= len(keys) <= order] *)
Definition occupancy_ok (o : Z) (n : Node) : bool :=
  (ceil_half o <=? Z.of_nat (length (keys n))) && (Z.of_nat (length (keys n)) <=? o).

Definition node_at (r : ref) : Node :=
  default (mkNode 0 true [] [] None None None) (h !! r).

(** Following [next] from [r]. *)
Fixpoint chain (fuel : nat) (r : option ref) : list ref :=
  match fuel, r with
  | S fuel', Some x => x :: chain fuel' (next (node_at x))
  | _, _ => []
  end.

(** Following [values[0]] from [r] down to depth [d]. *)
Fixpoint leftmost (d : nat) (r : ref) : option ref :=
  match d with
  | O => Some r
  | S d' =>
      match values (node_at r) with
      | VNode c :: _ => if leaf (node_at r) then None else leftmost d' c
      | _ => None
      end
  end.

Fixpoint strictly_increasing (l : list Z) : bool :=
  match l with
  | x :: (y :: _) as l' => (x <? y) && strictly_increasing l'
  | _ => true
  end.

End Observations.

Definition reachable_nodes (s : state) : list (nat * ref) :=
  subtree (heap s) (length (heap s)) 0 (root s).

(** Invariant 4 of the specification. *)
Definition separator_invariant (s : state) : bool :=
  forallb (fun dr => let n := node_at (heap s) (snd dr) in
                     leaf n || separators_ok (heap s) n)
          (reachable_nodes s).

(** Invariant 1 of the specification, for the nodes other than the root. *)
Definition occupancy_invariant (s : state) : bool :=
  forallb (fun dr => (fst dr =? 0)%nat
                     || occupancy_ok (tree_order s) (node_at (heap s) (snd dr)))
          (reachable_nodes s).

(** The depths at which the leaves of the tree sit. *)
Definition leaf_depths (s : state) : list nat :=
  fst <$> filter (fun dr => leaf (node_at (heap s) (snd dr)) = true) (reachable_nodes s).

(** Invariant 6 of the specification. *)
Definition balanced (s : state) : bool :=
  match leaf_depths s with
  | [] => true
  | d :: ds => forallb (Nat.eqb d) ds
  end.

(** The nodes at depth [d], in tree order. *)
Definition level (s : state) (d : nat) : list ref :=
  snd <$> filter (fun dr => fst dr = d) (reachable_nodes s).

(** The nodes met when following [next] from the leftmost node at depth [d]. *)
Definition level_chain (s : state) (d : nat) : list ref :=
  chain (heap s) (length (heap s)) (leftmost (heap s) d (root s)).

Definition chain_keys (s : state) (d : nat) : list Z :=
  flat_map (fun r => keys (node_at (heap s) r)) (level_chain s d).

Definition height (s : state) : nat :=
  foldr Nat.max 0%nat (fst <$> reachable_nodes s).

(** The keys met when following [next] along the leaves. *)
Definition leaf_chain (s : state) : list Z := chain_keys s (height s).

(** Invariant 5 at depth [d]: the chain visits exactly the nodes of the level
    and its keys increase strictly. *)
Definition chain_ok (s : state) (d : nat) : bool :=
  bool_decide (level_chain s d = level s d) && strictly_increasing (chain_keys s d).

Definition chain_invariant (s : state) : bool :=
  forallb (chain_ok s) (seq 0 (S (height s))).

(** ** Definitions used in the statements and proofs *)

(** A computation is [stable] for a relation between states when the state
    it leaves is related to the one it started in, whatever it returns or
    raises. *)
Definition stable (R : relation state) {A} (m : M A) : Prop :=
  forall s, R s (snd (m s)).

(** Four instances: nothing changes; nothing is printed; no object is
    created; the tree (the objects, the root and the order) is as it was,
    whatever has been printed. *)
Definition unchanged : relation state := eq.
Definition same_stdout : relation state := fun s s' => stdout s' = stdout s.
Definition same_size : relation state :=
  fun s s' => length (heap s') = length (heap s).
Definition same_tree : relation state :=
  fun s s' => heap s' = heap s /\ root s' = root s /\ tree_order s' = tree_order s.

Definition with_message (s : state) (m : message) : state :=
  mkState (heap s) (tree_order s) (root s) (stdout s ++ [m]).

(** A tree of order 4 that has held the keys 1 to 6 and has been emptied
    again. *)
Definition emptied_tree : state :=
  Eval vm_compute in
    snd (run_from_empty 4
           ((Insert <$> [1; 2; 3; 4; 5; 6]) ++ (Delete <$> [1; 2; 3; 4; 5; 6]))).

(** The tree of the specification's scenario: order 4, keys 1 to 10 inserted
    in increasing order.  Its leaves are [1,2,3,4], [5,6] and [7,8,9,10]. *)
Definition tree_1_to_10 : state :=
  Eval vm_compute in
    snd (run_from_empty 4 (Insert <$> [1; 2; 3; 4; 5; 6; 7; 8; 9; 10])).

Definition with_heap (s : state) (h : list Node) : state :=
  mkState h (tree_order s) (root s) (stdout s).

Definition with_keys (n : Node) (ks : list Z) : Node :=
  mkNode (order n) (leaf n) ks (values n) (parent n) (prev n) (next n).
Definition with_values (n : Node) (vs : list value) : Node :=
  mkNode (order n) (leaf n) (keys n) vs (parent n) (prev n) (next n).
Definition with_parent (n : Node) (p : option ref) : Node :=
  mkNode (order n) (leaf n) (keys n) (values n) p (prev n) (next n).

(** The store after the child [a] (the object [na]) has been given the
    parent [p]; a leaf's values are not nodes and nothing is done. *)
Definition adopt (h : list Node) (p : ref) (is_leaf : bool) (a : ref) (na : Node)
    : list Node :=
  if is_leaf then h else <[a := with_parent na (Some p)]> h.

(** The tree [tree_1_to_10] just after [add] has put 11 in its last leaf
    (object 4, now [7,8,9,10,11]; its left sibling, object 3, is [5,6]), and
    just after [add] has put 0 in its first leaf (object 1, now
    [0,1,2,3,4]; no left sibling, right sibling [5,6]). *)
Definition overflow_last_leaf : state :=
  Eval vm_compute in snd (Node.add 4%nat 11 tree_1_to_10).
Definition overflow_first_leaf : state :=
  Eval vm_compute in snd (Node.add 1%nat 0 tree_1_to_10).

(** The number of keys of every node other than the root, in preorder. *)
Definition non_root_sizes (s : state) : list nat :=
  (fun dr => length (keys (node_at (heap s) (snd dr))))
    <$> filter (fun dr => fst dr <> 0%nat) (reachable_nodes s).

Definition keys_of (s : state) (r : ref) : list Z := keys (node_at (heap s) r).

(** The order-2 trees with the leaves [1] and [3], and [0,1] and [3], at the
    point where [delete(3)] has removed 3 from the right leaf (object 2) and
    is about to repair it: the leaf is empty and has the left sibling
    (object 1). *)
Definition before_merge : state :=
  Eval vm_compute in
    snd (Node.remove 2%nat 3
           (snd (run_from_empty 2 [Insert 1; Insert 2; Insert 3; Delete 2]))).
Definition before_borrow : state :=
  Eval vm_compute in
    snd (Node.remove 2%nat 3
           (snd (run_from_empty 2 [Insert 1; Insert 2; Insert 3; Insert 0; Delete 2]))).

(** [l[:i] + [x] + l[i:]] *)
Definition splice {A} (i : nat) (x : A) (l : list A) : list A :=
  take i l ++ x :: drop i l.

(** [data] put before the first key that is greater. *)
Fixpoint sorted_insert (data : Z) (ks : list Z) : list Z :=
  match ks with
  | [] => [data]
  | key :: ks' => if data <? key then data :: ks else key :: sorted_insert data ks'
  end.

(** What [_search_position_in_child] returns on the node object [n]. *)
Definition position_result (n : Node) (data : Z) : result (value * nat) :=
  match keys n with
  | [] => Raise UnboundLocalError
  | _ =>
      match py_index (values n) (Z.of_nat (BPlusTree.position_scan data (keys n) 0)) with
      | Some child => Ok (child, BPlusTree.position_scan data (keys n) 0)
      | None => Raise IndexError
      end
  end.

(** Following [parent] from [node] reaches [None] within [fuel] steps. *)
Fixpoint parent_chain_ends (fuel : nat) (h : list Node) (node : option ref) : bool :=
  match node with
  | None => true
  | Some r =>
      match fuel with
      | O => false
      | S fuel' =>
          match h !! r with
          | Some n => parent_chain_ends fuel' h (parent n)
          | None => false
          end
      end
  end.

(** The store after [insert(data)] has put [data] in the leaf [c] (the
    object [n]). *)
Definition with_added (s : state) (c : ref) (n : Node) (data : Z) : state :=
  with_heap s
    (<[c := with_values (with_keys n (sorted_insert data (keys n)))
              (splice (BPlusTree.position_scan data (keys n) 0) (VList [data])
                 (values n))]> (heap s)).

(** The store after entry [i] of the leaf [c] (the object [n]) has been
    removed. *)
Definition with_removed (s : state) (c : ref) (n : Node) (i : nat) : state :=
  with_heap s
    (<[c := with_values (with_keys n (delete i (keys n))) (delete i (values n))]>
       (heap s)).

Definition with_leaf (n : Node) (b : bool) : Node :=
  mkNode (order n) b (keys n) (values n) (parent n) (prev n) (next n).
Definition with_prev (n : Node) (p : option ref) : Node :=
  mkNode (order n) (leaf n) (keys n) (values n) (parent n) p (next n).
Definition with_next (n : Node) (p : option ref) : Node :=
  mkNode (order n) (leaf n) (keys n) (values n) (parent n) (prev n) p.

(** The store after [split] on a leaf [c] (the object [n]) that has no
    siblings: [c] becomes an internal node over two new leaves, which share
    the keys [ks] and values [vs] of [c] and are linked to each other. *)
Definition split_leaf_store (h : list Node) (c : ref) (n : Node) : list Node :=
  let mid := ceil_half (order n) in
  <[c := mkNode (order n) false (take 1 (slice_from (keys n) mid))
           [VNode (length h); VNode (S (length h))] (parent n) (prev n) (next n)]> h
  ++ [mkNode (order n) true (slice_to (keys n) mid) (slice_to (values n) mid)
        (Some c) (prev n) (Some (S (length h)));
      mkNode (order n) true (slice_from (keys n) mid) (slice_from (values n) mid)
        (Some c) (Some (length h)) (next n)].

(** The values of a leaf built by [add]: the one-element list [[k]] for each
    key [k]. *)
Definition leaf_payload (ks : list Z) : list value := (fun k => VList [k]) <$> ks.

(** A tree of order [o] that consists of one leaf with the keys [ks]. *)
Definition single_leaf (o : Z) (ks : list Z) : state :=
  mkState [mkNode o true ks (leaf_payload ks) None None None] o 0%nat [].


(** The first keys of the buckets after the first. *)
Definition separators (cs : list (list Z)) : list Z := omap head (tail cs).

(** The two-level tree that [bulk_load] builds from the buckets [cs] when
    the root does not overflow: object 0 is the root, object [j + 1] is the
    leaf of bucket [j], linked to the leaves of the buckets before and
    after. *)
Definition bulk_leaf (o : Z) (len j : nat) (c : list Z) : Node :=
  mkNode o true c (VInt <$> c) (Some 0%nat)
    (if (j =? 0)%nat then None else Some j)
    (if (S j =? len)%nat then None else Some (S (S j))).
Definition bulk_store (o : Z) (cs : list (list Z)) : list Node :=
  mkNode o false (separators cs) (VNode <$> seq 1 (length cs)) None None None
  :: imap (bulk_leaf o (length cs)) cs.
Definition bulk_state (o : Z) (cs : list (list Z)) : state :=
  mkState (bulk_store o cs) o 0%nat [].

(** The store after the leaf [c] (the object [nc]), child number [i + 1] of
    [p], has been merged into its left sibling [ls]: [ls] takes the keys and
    values of [c] and its [next], [p] loses the key [i] and the child
    [i + 1], the right neighbour of [c], if any, gets [ls] as [prev]. *)
Definition merged_into_left (h : list Node) (ls p : ref) (nc nl np : Node) (i : nat)
    : list Node :=
  let h' :=
    <[ls := with_next
              (with_values (with_keys nl (keys nl ++ keys nc)) (values nl ++ values nc))
              (next nc)]>
      (<[p := with_values (with_keys np (delete i (keys np))) (delete (S i) (values np))]>
         h) in
  match next nc with
  | Some q => <[q := with_prev (node_at h q) (Some ls)]> h'
  | None => h'
  end.

(** The exceptions of the interpreter, as opposed to the three of
    [exceptions.py] that the program raises and catches itself. *)
Definition builtin (e : exn) : bool :=
  match e with
  | LeftRedistributeError | RotateError | RemoveError => false
  | _ => true
  end.

(** A computation that raises no exception outside [P]. *)
Definition raises_only (P : exn -> bool) {A} (m : M A) : Prop :=
  forall s, match fst (m s) with
            | Raise e => P e = true
            | Ok _ => True
            end.

(** The built-in exceptions and [RotateError], [LeftRedistributeError] or
    [RemoveError]. *)
Definition or_rotate_error (e : exn) : bool :=
  match e with RotateError => true | _ => builtin e end.
Definition or_left_redistribute_error (e : exn) : bool :=
  match e with LeftRedistributeError => true | _ => builtin e end.
Definition or_remove_error (e : exn) : bool :=
  match e with RemoveError => true | _ => builtin e end.

(** The sibling [sibling] exists and holds fewer than [order] keys. *)
Definition has_room (s : state) (sibling : option ref) : bool :=
  match sibling with
  | Some p =>
      match heap s !! p with
      | Some np => Z.of_nat (length (keys np)) <? tree_order s
      | None => false
      end
  | None => false
  end.

(** The store after the leaf [c] (the object [nc]), first child of [p], has
    been merged into its right sibling [rs]: [rs] takes the keys and values
    of [c] in front of its own and has no [prev] any more, [p] loses its
    first key and its first child. *)
Definition merged_into_right (h : list Node) (rs p : ref) (nc nr np : Node)
    : list Node :=
  <[rs := with_prev
            (with_values (with_keys nr (keys nc ++ keys nr)) (values nc ++ values nr))
            None]>
    (<[p := with_values (with_keys np (delete 0%nat (keys np))) (delete 0%nat (values np))]> h).

(** [ks'] is [ks] with some occurrences of [old] replaced by [new]. *)
Definition renamed (old new : Z) (ks ks' : list Z) : Prop :=
  Forall2 (fun k k' => k' = k \/ (k = old /\ k' = new)) ks ks'.

(** The second state differs from the first only in keys, and there only by
    occurrences of [old] replaced by [new]. *)
Definition keys_renamed (old new : Z) : relation state :=
  fun s s' =>
    root s' = root s /\ tree_order s' = tree_order s /\ stdout s' = stdout s
    /\ Forall2 (fun n n' => n' = with_keys n (keys n') /\ renamed old new (keys n) (keys n'))
         (heap s) (heap s').

(** The store after every object of [refs] has been given the parent [p]
    ([for child in values: child.parent = p]). *)
Definition adopt_all (p : ref) (refs : list ref) (h : list Node) : list Node :=
  foldl (fun h r => <[r := with_parent (node_at h r) (Some p)]> h) h refs.

(** The store after [split] on an internal node [c] (the object [n]) that
    has no siblings and whose children are the objects [refs]: two new
    internal nodes share the keys of [c] but the middle one, which is left
    in [c], and the children, which get them as parents. *)
Definition split_internal_store (h : list Node) (c : ref) (n : Node) (refs : list ref)
    : list Node :=
  let mid := ceil_half (order n) in
  adopt_all (S (length h)) (slice_from refs (mid + 1))
    (adopt_all (length h) (slice_to refs (mid + 1))
       (<[c := mkNode (order n) false (take 1 (slice_from (keys n) mid))
                 [VNode (length h); VNode (S (length h))] (parent n) (prev n) (next n)]> h
        ++ [mkNode (order n) false (slice_to (keys n) mid)
              (VNode <$> slice_to refs (mid + 1)) (Some c) (prev n) (Some (S (length h)));
            mkNode (order n) false (delete 0%nat (slice_from (keys n) mid))
              (VNode <$> slice_from refs (mid + 1)) (Some c) (Some (length h)) (next n)])).

(** A tree of order 4 with the keys 10 to 60: the root (object 0) has the
    key 30, its leaves are [10,20] (object 1) and [30,40,50,60] (object
    2). *)
Definition tree_tens : state :=
  Eval vm_compute in
    snd (run_from_empty 4 (Insert <$> [10; 20; 30; 40; 50; 60])).

(** A tree of order 4 with the leaves [1,2] (object 1) and [3,4] (object
    2) under the root (object 0, key 3). *)
Definition two_half_leaves : state :=
  Eval vm_compute in
    snd (run_from_empty 4 ((Insert <$> [1; 2; 3; 4; 5; 6]) ++ (Delete <$> [5; 6]))).

(** The leaf [1,2,3,4] of order 4 after [add] has put 5 in it. *)
Definition overflow_root_leaf : state :=
  Eval vm_compute in snd (Node.add 0%nat 5 (single_leaf 4 [1; 2; 3; 4])).

(** The tree [tree_tens] in the middle of an insertion of 45: [add] has put
    45 in the leaf [30,40,50,60] (object 2) and [split] has turned object 2
    into an internal node with the key 45 over the new leaves [30,40]
    (object 3) and [45,50,60] (object 4); it is still the second child of
    the root. *)
Definition after_leaf_split : state :=
  Eval vm_compute in snd (Node.split 2%nat (snd (Node.add 2%nat 45 tree_tens))).

(** A tree of order 3 with the keys 1 to 12, in the middle of the insertion
    of 13: the last leaf has been split and merged into the root (object 0),
    which now has the four keys 4, 7, 10, 12 and five children. *)
Definition overflowing_root : state :=
  Eval vm_compute in
    (let s := snd (run_from_empty 3 (Insert <$> [1; 2; 3; 4; 5; 6; 7; 8; 9; 10; 11; 12])) in
     snd (BPlusTree._merge_into_parent 6%nat 3
            (snd (Node.split 6%nat (snd (Node.add 6%nat 13 s)))))).

(** A stand-in for [int] that converts the numeral ["5"] and nothing else. *)
Definition int_of_5 (s : string) : option Z :=
  if String.eqb s "5" then Some 5 else None.

(** The prefixes of a string, and all the strings that occur in it. *)
Fixpoint prefixes (b : string) : list string :=
  EmptyString ::
  match b with
  | String c b' => String c <$> prefixes b'
  | EmptyString => []
  end.
Fixpoint substrings (b : string) : list string :=
  prefixes b ++
  match b with
  | String _ b' => substrings b'
  | EmptyString => []
  end.

(** ** Reasoning about computations *)

#[local] Instance unchanged_preorder : PreOrder unchanged.
Proof. split; unfold unchanged; [intros s; reflexivity | intros a b c; congruence]. Qed.

#[local] Instance same_stdout_preorder : PreOrder same_stdout.
Proof. split; unfold same_stdout; [intros s; reflexivity | intros a b c; congruence]. Qed.

#[local] Instance same_size_preorder : PreOrder same_size.
Proof. split; unfold same_size; [intros s; reflexivity | intros a b c; congruence]. Qed.

#[local] Instance same_tree_preorder : PreOrder same_tree.
Proof.
  split; unfold same_tree; [intros s; auto | intros a b c (? & ? & ?) (? & ? & ?)].
  repeat split; congruence.
Qed.

Section Stable.

Context (R : relation state) `{!PreOrder R}.

Lemma stable_ret {A} (a : A) : stable R (ret a).
Proof. intros s. reflexivity. Qed.

Lemma stable_raise {A} (e : exn) : stable R (@raise A e).
Proof. intros s. reflexivity. Qed.

Lemma stable_bind {A B} (m : M A) (f : A -> M B) :
  stable R m -> (forall a, stable R (f a)) -> stable R (bind m f).
Proof.
  intros Hm Hf s. unfold bind. specialize (Hm s).
  destruct (m s) as [[a|e] s']; simpl in *; [|exact Hm].
  etransitivity; [exact Hm | apply Hf].
Qed.

Lemma stable_try_except {A} (m : M A) (e : exn) (h : M A) :
  stable R m -> stable R h -> stable R (try_except m e h).
Proof.
  intros Hm Hh s. unfold try_except. specialize (Hm s).
  destruct (m s) as [[a|e'] s']; simpl in *; [exact Hm|].
  destruct (match e with
            | LeftRedistributeError => _ | RotateError => _ | RemoveError => _
            | _ => _ end); [|exact Hm].
  etransitivity; [exact Hm | apply Hh].
Qed.

Lemma stable_for_each {A} (l : list A) (body : A -> M unit) :
  (forall a, stable R (body a)) -> stable R (for_each l body).
Proof.
  intros Hb. induction l as [|x l IH]; simpl.
  - apply stable_ret.
  - apply stable_bind; [apply Hb | intros _; exact IH].
Qed.

Lemma stable_get_state : stable R get_state.
Proof. intros s. reflexivity. Qed.

Lemma stable_get_node r : stable R (get_node r).
Proof. intros s. unfold get_node. destruct (heap s !! r); reflexivity. Qed.

Lemma stable_index {A} (l : list A) i : stable R (index l i).
Proof. unfold index. destruct (py_index l i); [apply stable_ret | apply stable_raise]. Qed.

Lemma stable_pop {A} (l : list A) i : stable R (pop l i).
Proof. unfold pop. destruct (py_pop l i); [apply stable_ret | apply stable_raise]. Qed.

Lemma stable_not_none o : stable R (not_none o).
Proof. destruct o; [apply stable_ret | apply stable_raise]. Qed.

Lemma stable_as_node v : stable R (as_node v).
Proof. destruct v; first [apply stable_ret | apply stable_raise]. Qed.

Lemma stable_path_pop p : stable R (BPlusTree.path_pop p).
Proof. destruct p; [apply stable_raise | apply stable_ret]. Qed.

End Stable.

Create HintDb stable.
#[local] Hint Resolve stable_ret stable_raise stable_get_state stable_get_node
  stable_index stable_pop stable_not_none stable_as_node stable_path_pop : stable.

(** One step of a stability proof: follow the structure of the program. *)
Ltac stable_step :=
  first
    [ solve [eauto with stable typeclass_instances]
    | apply stable_bind; [apply _ | | intros ?; cbv beta]
    | apply stable_try_except; [apply _ | | ]
    | apply stable_for_each; [apply _ | intros ?; cbv beta]
    | match goal with
      | |- stable _ (match ?x with _ => _ end) => destruct x
      end ].

Ltac stable_tac := repeat stable_step.

(** *** Reading never changes the state *)

Lemma unchanged_get_leaf r : stable unchanged (get_leaf r).
Proof. unfold get_leaf. stable_tac. Qed.
Lemma unchanged_get_keys r : stable unchanged (get_keys r).
Proof. unfold get_keys. stable_tac. Qed.
Lemma unchanged_get_values r : stable unchanged (get_values r).
Proof. unfold get_values. stable_tac. Qed.

Lemma unchanged_min_key_loop fuel v : stable unchanged (BPlusTree.min_key_loop fuel v).
Proof.
  revert v. induction fuel as [|fuel IH]; intros v; simpl; stable_tac.
Qed.

Lemma unchanged_search_min_key v : stable unchanged (BPlusTree._search_min_key_in_subtree v).
Proof.
  unfold BPlusTree._search_min_key_in_subtree.
  destruct v; stable_tac; apply unchanged_min_key_loop.
Qed.

Lemma unchanged_search_position node data :
  stable unchanged (BPlusTree._search_position_in_child node data).
Proof. unfold BPlusTree._search_position_in_child. stable_tac. Qed.

Lemma unchanged_descend fuel curr data path :
  stable unchanged (BPlusTree.descend fuel curr data path).
Proof.
  revert curr path. induction fuel as [|fuel IH]; intros curr path; simpl.
  - stable_tac.
  - stable_tac; first [apply unchanged_get_leaf | apply unchanged_search_position | apply IH].
Qed.

Lemma unchanged_locate data : stable unchanged (BPlusTree.locate data).
Proof. unfold BPlusTree.locate. stable_tac. apply unchanged_descend. Qed.

(** A computation that leaves the state unchanged is determined by what it
    returns. *)
Lemma unchanged_run {A} (m : M A) (s : state) (r : result A) :
  stable unchanged m -> fst (m s) = r -> m s = (r, s).
Proof.
  intros Hm Hr. specialize (Hm s). unfold unchanged in Hm.
  destruct (m s) as [r' s']; simpl in *. congruence.
Qed.

(** *** Writes that keep a relation *)

Section Writes.

Context (R : relation state) `{!PreOrder R}.
Hypothesis R_update : forall r f, stable R (update_node r f).
Hypothesis R_root : forall r, stable R (set_root r).

Local Hint Resolve R_update R_root : stable.

Lemma stable_set_leaf r b : stable R (set_leaf r b).
Proof. apply R_update. Qed.
Lemma stable_set_keys r ks : stable R (set_keys r ks).
Proof. apply R_update. Qed.
Lemma stable_set_values r vs : stable R (set_values r vs).
Proof. apply R_update. Qed.
Lemma stable_set_parent r p : stable R (set_parent r p).
Proof. apply R_update. Qed.
Lemma stable_set_prev r p : stable R (set_prev r p).
Proof. apply R_update. Qed.
Lemma stable_set_next r p : stable R (set_next r p).
Proof. apply R_update. Qed.

Lemma stable_get_leaf r : stable R (get_leaf r).
Proof. unfold get_leaf. stable_tac. Qed.
Lemma stable_get_keys r : stable R (get_keys r).
Proof. unfold get_keys. stable_tac. Qed.
Lemma stable_get_values r : stable R (get_values r).
Proof. unfold get_values. stable_tac. Qed.
Lemma stable_get_parent r : stable R (get_parent r).
Proof. unfold get_parent. stable_tac. Qed.
Lemma stable_get_prev r : stable R (get_prev r).
Proof. unfold get_prev. stable_tac. Qed.
Lemma stable_get_next r : stable R (get_next r).
Proof. unfold get_next. stable_tac. Qed.

Local Hint Resolve stable_set_leaf stable_set_keys stable_set_values
  stable_set_parent stable_set_prev stable_set_next stable_get_leaf
  stable_get_keys stable_get_values stable_get_parent stable_get_prev
  stable_get_next : stable.

Lemma stable_min_key_loop fuel v : stable R (BPlusTree.min_key_loop fuel v).
Proof. revert v. induction fuel as [|fuel IH]; intros v; simpl; stable_tac. Qed.

Lemma stable_search_min_key v : stable R (BPlusTree._search_min_key_in_subtree v).
Proof.
  unfold BPlusTree._search_min_key_in_subtree.
  destruct v; stable_tac; apply stable_min_key_loop.
Qed.

Local Hint Resolve stable_search_min_key : stable.

Lemma stable_left_rotate node : stable R (BPlusTree._left_rotate node).
Proof. unfold BPlusTree._left_rotate. stable_tac. Qed.

Lemma stable_right_rotate node : stable R (BPlusTree._right_rotate node).
Proof. unfold BPlusTree._right_rotate. stable_tac. Qed.

Lemma stable_rotate node : stable R (BPlusTree._rotate node).
Proof.
  unfold BPlusTree._rotate. stable_tac;
    first [apply stable_left_rotate | apply stable_right_rotate].
Qed.

Lemma stable_left_redistribute node idx :
  stable R (BPlusTree._left_redistribute node idx).
Proof.
  unfold BPlusTree._left_redistribute. stable_tac; apply stable_right_rotate.
Qed.

Lemma stable_right_redistribute node :
  stable R (BPlusTree._right_redistribute node).
Proof.
  unfold BPlusTree._right_redistribute. stable_tac; apply stable_left_rotate.
Qed.

Lemma stable_update_parents_loop fuel node old_min_key new_min_key :
  stable R (BPlusTree.update_parents_loop fuel node old_min_key new_min_key).
Proof.
  revert node. induction fuel as [|fuel IH]; intros [r|]; simpl; stable_tac.
Qed.

Lemma stable_update_parents a : stable R (BPlusTree._update_parents a).
Proof.
  unfold BPlusTree._update_parents. destruct a as [[node o] n].
  stable_tac. apply stable_update_parents_loop.
Qed.

Lemma stable_delete_repair fuel curr path :
  stable R (BPlusTree.delete_repair fuel curr path).
Proof.
  revert curr path. induction fuel as [|fuel IH]; intros [c|] path; simpl;
    stable_tac;
    first [apply stable_left_redistribute | apply stable_right_redistribute
          | apply stable_update_parents].
Qed.

End Writes.

Lemma same_stdout_update_node r f : stable same_stdout (update_node r f).
Proof.
  intros s. unfold update_node, bind, get_node, get_state, set_heap, same_stdout.
  destruct (heap s !! r); reflexivity.
Qed.

Lemma same_stdout_set_root r : stable same_stdout (set_root r).
Proof. intros s. reflexivity. Qed.

Lemma same_size_update_node r f : stable same_size (update_node r f).
Proof.
  intros s. unfold update_node, bind, get_node, get_state, set_heap, same_size.
  destruct (heap s !! r); simpl; [apply length_insert | reflexivity].
Qed.

Lemma same_size_set_root r : stable same_size (set_root r).
Proof. intros s. reflexivity. Qed.

#[local] Hint Resolve same_stdout_update_node same_stdout_set_root
  same_size_update_node same_size_set_root
  stable_set_leaf stable_set_keys stable_set_values stable_set_parent
  stable_set_prev stable_set_next stable_get_leaf stable_get_keys
  stable_get_values stable_get_parent stable_get_prev stable_get_next
  stable_search_min_key stable_left_rotate stable_right_rotate stable_rotate
  stable_left_redistribute stable_right_redistribute stable_update_parents
  stable_delete_repair : stable.

(** ** Facts about the list primitives *)

Lemma list_index_None (x : Z) (l : list Z) : list_index x l = None <-> x ∉ l.
Proof.
  induction l as [|y l IH]; simpl.
  - split; [intros _; apply not_elem_of_nil | reflexivity].
  - destruct (Z.eqb_spec x y) as [->|Hne].
    + split; [discriminate | intros H; exfalso; apply H; left].
    + rewrite not_elem_of_cons. destruct (list_index x l); simpl.
      * split; [discriminate | intros [_ H]; apply IH in H; discriminate].
      * split; [intros _; split; [exact Hne | apply IH; reflexivity] | reflexivity].
Qed.

Lemma list_index_Some (x : Z) (l : list Z) : x ∈ l -> exists i, list_index x l = Some i.
Proof.
  intros Hin. destruct (list_index x l) as [i|] eqn:E; [eauto|].
  apply list_index_None in E. contradiction.
Qed.

Lemma strictly_increasing_head (x : Z) (l : list Z) :
  strictly_increasing (x :: l) = true -> forall y, y ∈ l -> x < y.
Proof.
  revert x. induction l as [|z l IH]; intros x H y Hy.
  - inversion Hy.
  - simpl in H. apply andb_true_iff in H as [Hxz Hl]. apply Z.ltb_lt in Hxz.
    apply elem_of_cons in Hy as [->|Hy]; [exact Hxz|].
    specialize (IH z Hl y Hy). lia.
Qed.

Lemma strictly_increasing_tail (x : Z) (l : list Z) :
  strictly_increasing (x :: l) = true -> strictly_increasing l = true.
Proof.
  destruct l as [|z l]; [reflexivity|]. simpl.
  intros H. apply andb_true_iff in H as [_ H]. exact H.
Qed.

(** In a sorted node the scan of [add] meets a key that is present before any
    larger one. *)
Lemma add_scan_present (data : Z) (ks : list Z) (i : nat) :
  strictly_increasing ks = true -> data ∈ ks -> Node.add_scan data ks i = Node.Duplicate.
Proof.
  revert i. induction ks as [|key ks IH]; intros i Hs Hin.
  - inversion Hin.
  - simpl. destruct (Z.eqb_spec data key) as [|Hne]; [reflexivity|].
    apply elem_of_cons in Hin as [|Hin]; [contradiction|].
    pose proof (strictly_increasing_head _ _ Hs data Hin) as Hlt.
    destruct (Z.ltb_spec data key); [lia|].
    apply IH; [eapply strictly_increasing_tail; eassumption | exact Hin].
Qed.

(** ** Deleting a key that is absent (C7) *)

Lemma remove_absent (s : state) (c : ref) (n : Node) (data : Z) :
  heap s !! c = Some n -> data ∉ keys n ->
  Node.remove c data s = (Raise RemoveError, with_message s (DataNotFound data)).
Proof.
  intros Hc Habs. apply list_index_None in Habs.
  unfold Node.remove, bind, get_keys, bind, get_node. rewrite Hc. simpl.
  rewrite Habs. reflexivity.
Qed.

(** [display] only prints. *)
Lemma same_tree_print (m : message) : stable same_tree (print m).
Proof. intros s. repeat split. Qed.

Lemma same_tree_show (fuel : nat) (self : ref) (level : nat) :
  stable same_tree (Node.show fuel self level).
Proof.
  revert self level. induction fuel as [|fuel IH]; intros self level; simpl.
  - apply stable_raise, _.
  - apply stable_bind; [apply _ | apply stable_get_node, _ | intros n].
    apply stable_bind; [apply _ | apply same_tree_print | intros _].
    destruct (leaf n); [apply stable_ret, _|].
    apply stable_for_each; [apply _ | intros child].
    apply stable_bind; [apply _ | apply stable_as_node, _ | intros c; apply IH].
Qed.

Lemma same_tree_display : stable same_tree BPlusTree.display.
Proof.
  unfold BPlusTree.display.
  apply stable_bind; [apply _ | apply stable_get_state, _ | intros s].
  apply stable_bind; [apply _ | apply same_tree_show | intros _; apply same_tree_print].
Qed.

Lemma delete_absent_run (s : state) (data : Z) (c : ref) (path : list nat) (n : Node) :
  fst (BPlusTree.locate data s) = Ok (c, path) ->
  heap s !! c = Some n ->
  data ∉ keys n ->
  BPlusTree.delete data s = (Ok tt, with_message s (DataNotFound data)).
Proof.
  intros Hloc Hc Habs.
  pose proof (unchanged_run _ s _ (unchanged_locate data) Hloc) as Hrun.
  unfold BPlusTree.delete. unfold bind at 1. rewrite Hrun. simpl.
  unfold bind at 1, try_except, bind at 1.
  rewrite (remove_absent s c n data Hc Habs). reflexivity.
Qed.

(** C7, as amended.  Let the descent for [data] end in a leaf [c] that does
    not hold [data].  The method under the decorator returns normally: it
    changes nothing in the store and prints "Data not found: data"
    (RemoveError is caught inside [delete]).  The public [delete] then
    displays the tree, and whether that display returns or raises, the
    objects, the root and the order are as they were.  The outcome is
    reported on standard output only. *)
Theorem delete_absent_key (s : state) (data : Z) (c : ref) (path : list nat) (n : Node) :
  fst (BPlusTree.locate data s) = Ok (c, path) ->
  heap s !! c = Some n ->
  data ∉ keys n ->
  BPlusTree.delete data s = (Ok tt, with_message s (DataNotFound data))
  /\ BPlusTree._display_bplus_tree BPlusTree.delete data s
     = BPlusTree.display (with_message s (DataNotFound data))
  /\ same_tree s (snd (BPlusTree._display_bplus_tree BPlusTree.delete data s)).
Proof.
  intros Hloc Hc Habs.
  pose proof (delete_absent_run s data c path n Hloc Hc Habs) as Hrun.
  assert (Hd : BPlusTree._display_bplus_tree BPlusTree.delete data s
               = BPlusTree.display (with_message s (DataNotFound data))).
  { unfold BPlusTree._display_bplus_tree, bind at 1. rewrite Hrun. reflexivity. }
  split; [exact Hrun|]. split; [exact Hd|].
  rewrite Hd.
  transitivity (with_message s (DataNotFound data));
    [repeat split | apply same_tree_display].
Qed.

Lemma delete_absent_key_witness :
  BPlusTree.delete 11 tree_1_to_10 = (Ok tt, with_message tree_1_to_10 (DataNotFound 11))
  /\ BPlusTree._display_bplus_tree BPlusTree.delete 11 tree_1_to_10
     = BPlusTree.display (with_message tree_1_to_10 (DataNotFound 11))
  /\ same_tree tree_1_to_10
       (snd (BPlusTree._display_bplus_tree BPlusTree.delete 11 tree_1_to_10)).
Proof.
  refine (delete_absent_key tree_1_to_10 11 4%nat [2%nat]
            (mkNode 4 true [7; 8; 9; 10]
               [VList [7]; VList [8]; VList [9]; VList [10]]
               (Some 0%nat) (Some 3%nat) None) eq_refl eq_refl _).
  apply list_index_None. reflexivity.
Defined.

(** C7, counterexample.  In the tree that holds the keys 1 to 10 (order
    4), [delete(11)] of an absent key and [delete(7)] of a present key end
    in the same way for the caller: both return [None], the method under
    the decorator as well as the public method.  Only the first prints "Data
    not found". *)
Lemma delete_absent_returns_like_present :
  leaf_chain tree_1_to_10 = [1; 2; 3; 4; 5; 6; 7; 8; 9; 10]
  /\ fst (BPlusTree.delete 11 tree_1_to_10) = Ok tt
  /\ fst (BPlusTree.delete 7 tree_1_to_10) = Ok tt
  /\ fst (BPlusTree._display_bplus_tree BPlusTree.delete 11 tree_1_to_10) = Ok tt
  /\ fst (BPlusTree._display_bplus_tree BPlusTree.delete 7 tree_1_to_10) = Ok tt
  /\ stdout (snd (BPlusTree.delete 11 tree_1_to_10)) = [DataNotFound 11]
  /\ stdout (snd (BPlusTree.delete 7 tree_1_to_10)) = [].
Proof. repeat split; vm_compute; reflexivity. Qed.

(** ** The empty tree (C10) *)

Lemma locate_leaf_root (s : state) (n : Node) (data : Z) :
  heap s !! root s = Some n -> leaf n = true ->
  BPlusTree.locate data s = (Ok (root s, []), s).
Proof.
  intros Hr Hl. unfold BPlusTree.locate, bind at 1, get_state.
  cbn [BPlusTree.descend]. unfold bind at 1, get_leaf, bind at 1, get_node.
  rewrite Hr. cbn. rewrite Hl. reflexivity.
Qed.

(** C10.  On an empty tree, that is whenever the root is a leaf without
    keys (the new tree of any order, or a tree emptied by deletions),
    [find(k)] returns normally and prints "Key not found", and [delete(k)]
    returns normally and prints "Data not found"; the store and the root are
    left as they were. *)
Theorem empty_tree_find_delete (s : state) (n : Node) (k : Z) :
  heap s !! root s = Some n -> leaf n = true -> keys n = [] ->
  BPlusTree.find k s = (Ok tt, with_message s (KeyNotFound k))
  /\ BPlusTree.delete k s = (Ok tt, with_message s (DataNotFound k)).
Proof.
  intros Hr Hl Hk.
  pose proof (locate_leaf_root s n k Hr Hl) as Hloc.
  split.
  - unfold BPlusTree.find, bind at 1. rewrite Hloc. cbn [fst snd].
    unfold bind at 1, get_keys, bind at 1, get_node. rewrite Hr. cbn.
    rewrite Hk. reflexivity.
  - apply (delete_absent_run s k (root s) [] n).
    + rewrite Hloc. reflexivity.
    + exact Hr.
    + rewrite Hk. apply not_elem_of_nil.
Qed.

Lemma empty_tree_find_delete_witness :
  (BPlusTree.find 7 (BPlusTree.init 4)
   = (Ok tt, with_message (BPlusTree.init 4) (KeyNotFound 7))
   /\ BPlusTree.delete 7 (BPlusTree.init 4)
      = (Ok tt, with_message (BPlusTree.init 4) (DataNotFound 7)))
  /\
  (BPlusTree.find 7 emptied_tree = (Ok tt, with_message emptied_tree (KeyNotFound 7))
   /\ BPlusTree.delete 7 emptied_tree
      = (Ok tt, with_message emptied_tree (DataNotFound 7))).
Proof.
  split.
  - exact (empty_tree_find_delete (BPlusTree.init 4)
             (mkNode 4 true [] [] None None None) 7 eq_refl eq_refl eq_refl).
  - exact (empty_tree_find_delete emptied_tree
             (mkNode 4 true [] [] None None None) 7 eq_refl eq_refl eq_refl).
Defined.

(** ** Inserting a key that is present (C6) *)

Lemma add_present (s : state) (c : ref) (n : Node) (data : Z) :
  heap s !! c = Some n -> data ∈ keys n -> strictly_increasing (keys n) = true ->
  Node.add c data s = (Ok tt, with_message s (DataAlreadyExists data)).
Proof.
  intros Hc Hin Hs. unfold Node.add, bind at 1, get_node. rewrite Hc.
  rewrite (add_scan_present data (keys n) 0 Hs Hin).
  destruct (keys n); [inversion Hin | reflexivity].
Qed.

(** Let the descent for [data] end in a leaf [c] that holds [data], whose
    keys increase strictly and which is within capacity.  Then the method
    under the decorator returns normally and changes neither the store nor
    the root: it only prints "Data already exists: data". *)
Lemma insert_present_key (s : state) (data : Z) (c : ref) (path : list nat) (n : Node) :
  fst (BPlusTree.locate data s) = Ok (c, path) ->
  heap s !! c = Some n ->
  data ∈ keys n ->
  strictly_increasing (keys n) = true ->
  Node.is_overflow n = false ->
  BPlusTree.insert data s = (Ok tt, with_message s (DataAlreadyExists data)).
Proof.
  intros Hloc Hc Hin Hs Hov.
  pose proof (unchanged_run _ s _ (unchanged_locate data) Hloc) as Hrun.
  unfold BPlusTree.insert. unfold bind at 1. rewrite Hrun. cbn [fst snd].
  unfold bind at 1. rewrite (add_present s c n data Hc Hin Hs).
  unfold bind at 1, get_state. cbn [BPlusTree.insert_repair].
  unfold bind at 1, get_node. cbn [heap with_message]. rewrite Hc, Hov. reflexivity.
Qed.

(** C6.  Order 4 (the default) and [bulk_load] of the single key 3: the
    call returns normally and the leaf chain is [3], but the root is an
    internal node with one child and no key.  [insert(3)], the insertion of
    the key that the tree holds, then raises UnboundLocalError in
    [_search_position_in_child] instead of rejecting the duplicate; the same
    holds with the three keys 1, 2, 3.  In a tree built by insertions the
    same call returns normally, changes nothing and prints "Data already
    exists". *)
Theorem insert_present_after_small_bulk_load_raises :
  (fst (run_from_empty 4 [BulkLoad [3]]) = Ok tt
   /\ leaf_chain (snd (run_from_empty 4 [BulkLoad [3]])) = [3]
   /\ keys_of (snd (run_from_empty 4 [BulkLoad [3]])) 0%nat = []
   /\ leaf (node_at (heap (snd (run_from_empty 4 [BulkLoad [3]]))) 0%nat) = false
   /\ fst (run_from_empty 4 [BulkLoad [3]; Insert 3]) = Raise UnboundLocalError)
  /\
  (leaf_chain (snd (run_from_empty 4 [BulkLoad [1; 2; 3]])) = [1; 2; 3]
   /\ fst (run_from_empty 4 [BulkLoad [1; 2; 3]; Insert 2]) = Raise UnboundLocalError)
  /\
  run_from_empty 4 [Insert 3; Insert 3]
  = (Ok tt,
     with_message (snd (run_from_empty 4 [Insert 3])) (DataAlreadyExists 3)).
Proof. repeat split; vm_compute; reflexivity. Qed.

(** ** Running a computation step by step *)

Lemma with_heap_twice (s : state) (h1 h2 : list Node) :
  with_heap (with_heap s h1) h2 = with_heap s h2.
Proof. reflexivity. Qed.

Lemma bind_ok {A B} (m : M A) (f : A -> M B) (s : state) (a : A) (s' : state) :
  m s = (Ok a, s') -> bind m f s = f a s'.
Proof. intros H. unfold bind. rewrite H. reflexivity. Qed.

Lemma bind_raise {A B} (m : M A) (f : A -> M B) (s : state) (e : exn) (s' : state) :
  m s = (Raise e, s') -> bind m f s = (Raise e, s').
Proof. intros H. unfold bind. rewrite H. reflexivity. Qed.

Section Runs.

Context (s : state) (r : ref) (n : Node) (Hr : heap s !! r = Some n).

Lemma get_node_run : get_node r s = (Ok n, s).
Proof. unfold get_node. rewrite Hr. reflexivity. Qed.

Lemma get_leaf_run : get_leaf r s = (Ok (leaf n), s).
Proof. unfold get_leaf. rewrite (bind_ok _ _ _ _ _ get_node_run). reflexivity. Qed.
Lemma get_keys_run : get_keys r s = (Ok (keys n), s).
Proof. unfold get_keys. rewrite (bind_ok _ _ _ _ _ get_node_run). reflexivity. Qed.
Lemma get_values_run : get_values r s = (Ok (values n), s).
Proof. unfold get_values. rewrite (bind_ok _ _ _ _ _ get_node_run). reflexivity. Qed.
Lemma get_parent_run : get_parent r s = (Ok (parent n), s).
Proof. unfold get_parent. rewrite (bind_ok _ _ _ _ _ get_node_run). reflexivity. Qed.
Lemma get_prev_run : get_prev r s = (Ok (prev n), s).
Proof. unfold get_prev. rewrite (bind_ok _ _ _ _ _ get_node_run). reflexivity. Qed.
Lemma get_next_run : get_next r s = (Ok (next n), s).
Proof. unfold get_next. rewrite (bind_ok _ _ _ _ _ get_node_run). reflexivity. Qed.

Lemma update_node_run (f : Node -> Node) :
  update_node r f s = (Ok tt, with_heap s (<[r := f n]> (heap s))).
Proof. unfold update_node. rewrite (bind_ok _ _ _ _ _ get_node_run). reflexivity. Qed.

Lemma set_keys_run (ks : list Z) :
  set_keys r ks s = (Ok tt, with_heap s (<[r := with_keys n ks]> (heap s))).
Proof. apply update_node_run. Qed.
Lemma set_values_run (vs : list value) :
  set_values r vs s = (Ok tt, with_heap s (<[r := with_values n vs]> (heap s))).
Proof. apply update_node_run. Qed.
Lemma set_parent_run (p : option ref) :
  set_parent r p s = (Ok tt, with_heap s (<[r := with_parent n p]> (heap s))).
Proof. apply update_node_run. Qed.

End Runs.

Lemma py_index_last {A} (l : list A) (x : A) : py_index (l ++ [x]) (-1) = Some x.
Proof.
  unfold py_index. rewrite length_app. simpl.
  destruct (Z.ltb_spec (Z.of_nat (length l + 1) + -1) 0); [lia|].
  replace (Z.to_nat (Z.of_nat (length l + 1) + -1)) with (length l) by lia.
  rewrite lookup_app_r by lia. rewrite Nat.sub_diag. reflexivity.
Qed.

Lemma py_pop_last {A} (l : list A) (x : A) : py_pop (l ++ [x]) (-1) = Some l.
Proof.
  unfold py_pop. rewrite length_app. simpl.
  destruct (Z.ltb_spec (Z.of_nat (length l + 1) + -1) 0); [lia|].
  replace (Z.to_nat (Z.of_nat (length l + 1) + -1)) with (length l) by lia.
  rewrite delete_middle. rewrite app_nil_r. reflexivity.
Qed.

Lemma index_last_run {A} (l : list A) (x : A) (s : state) :
  index (l ++ [x]) (-1) s = (Ok x, s).
Proof. unfold index. rewrite py_index_last. reflexivity. Qed.

Lemma pop_last_run {A} (l : list A) (x : A) (s : state) :
  pop (l ++ [x]) (-1) s = (Ok l, s).
Proof. unfold pop. rewrite py_pop_last. reflexivity. Qed.

(** Looking an object up in a store written by a sequence of updates. *)
Ltac lookup_tac :=
  cbn [heap with_heap];
  repeat first
    [ rewrite list_lookup_insert_eq by (rewrite ?length_insert; assumption)
    | rewrite list_lookup_insert_ne by congruence ];
  first [eassumption | reflexivity].

(** Run the first statement of a program. *)
Ltac run :=
  first
    [ erewrite bind_ok by
        (first
           [ apply get_node_run | apply get_leaf_run | apply get_keys_run
           | apply get_values_run | apply get_parent_run | apply get_prev_run
           | apply get_next_run | apply set_keys_run | apply set_values_run
           | apply set_parent_run ]; lookup_tac)
    | erewrite bind_ok by
        (first [eassumption | apply index_last_run | apply pop_last_run | reflexivity]) ];
  cbn [keys values prev next parent leaf order with_keys with_values with_parent
       heap with_heap tree_order root stdout not_none as_node];
  rewrite ?with_heap_twice, ?list_insert_insert_eq.

(** ** The two rotations *)

Lemma search_min_run (v : value) (s : state) (k : Z) :
  fst (BPlusTree._search_min_key_in_subtree v s) = Ok k ->
  BPlusTree._search_min_key_in_subtree v s = (Ok k, s).
Proof. apply unchanged_run, unchanged_search_min_key. Qed.

(** [_left_rotate(c)]: the first value [v0] of [c], with the minimum key
    [kold] of its subtree, goes to the end of the left sibling [p]; [c]
    loses its first key and its first value. *)
Lemma left_rotate_run (s : state) (c p a : ref) (nc np na : Node)
    (v0 v1 : value) (vs : list value) (k : Z) (ks : list Z) (kold knew : Z) :
  heap s !! c = Some nc -> prev nc = Some p -> heap s !! p = Some np -> p <> c ->
  keys nc = k :: ks -> values nc = v0 :: v1 :: vs ->
  fst (BPlusTree._search_min_key_in_subtree v0 s) = Ok kold ->
  fst (BPlusTree._search_min_key_in_subtree v1 s) = Ok knew ->
  (leaf np = false -> v0 = VNode a /\ heap s !! a = Some na /\ a <> c /\ a <> p) ->
  BPlusTree._left_rotate c s
  = (Ok (parent nc, kold, knew),
     with_heap s
       (adopt (<[c := with_values (with_keys nc ks) (v1 :: vs)]>
                 (<[p := with_values (with_keys np (keys np ++ [kold])) (values np ++ [v0])]>
                    (heap s)))
          p (leaf np) a na)).
Proof.
  intros Hc Hprev Hp Hne Hk Hv H0 H1 Hint.
  apply search_min_run in H0, H1.
  assert (Hlc : (c < length (heap s))%nat) by (eapply lookup_lt_Some; eauto).
  assert (Hlp : (p < length (heap s))%nat) by (eapply lookup_lt_Some; eauto).
  destruct nc as [o lf kk vv par pv nx]. simpl in Hprev, Hk, Hv. subst pv kk vv.
  unfold BPlusTree._left_rotate.
  do 20 run. unfold adopt.
  destruct (leaf np) eqn:Hleaf.
  - run. run. reflexivity.
  - destruct (Hint eq_refl) as (-> & Ha & Hac & Hap).
    assert (Hla : (a < length (heap s))%nat) by (eapply lookup_lt_Some; eauto).
    erewrite bind_ok.
    2:{ do 3 run. apply set_parent_run. lookup_tac. }
    run. reflexivity.
Qed.

(** [_right_rotate(c)]: the last value [vlast] of [c] goes to the front of
    the right sibling [q], with the minimum key [knew] of its subtree (leaf)
    or the former minimum key [kold] of [q]'s subtree (internal node) as
    its key; [c] loses its last key and its last value. *)
Lemma right_rotate_run (s : state) (c q a : ref) (nc nq na : Node)
    (w0 vlast : value) (ws vs : list value) (klast : Z) (ks : list Z) (kold knew : Z) :
  heap s !! c = Some nc -> next nc = Some q -> heap s !! q = Some nq -> q <> c ->
  values nq = w0 :: ws ->
  keys nc = ks ++ [klast] -> values nc = vs ++ [vlast] ->
  fst (BPlusTree._search_min_key_in_subtree w0 s) = Ok kold ->
  fst (BPlusTree._search_min_key_in_subtree vlast s) = Ok knew ->
  (leaf nq = false -> vlast = VNode a /\ heap s !! a = Some na /\ a <> c /\ a <> q) ->
  BPlusTree._right_rotate c s
  = (Ok (parent nq, kold, knew),
     with_heap s
       (adopt (<[c := with_values (with_keys nc ks) vs]>
                 (<[q := with_values
                           (with_keys nq ((if leaf nc then knew else kold) :: keys nq))
                           (vlast :: values nq)]>
                    (heap s)))
          q (leaf nq) a na)).
Proof.
  intros Hc Hnext Hq Hne Hw Hk Hv H0 H1 Hint.
  apply search_min_run in H0, H1.
  assert (Hlc : (c < length (heap s))%nat) by (eapply lookup_lt_Some; eauto).
  assert (Hlq : (q < length (heap s))%nat) by (eapply lookup_lt_Some; eauto).
  destruct nc as [o lf kk vv par pv nx]. simpl in Hnext, Hk, Hv. subst nx kk vv.
  destruct nq as [o' lf' kk' vv' par' pv' nx']. simpl in Hw, Hint. subst vv'.
  unfold BPlusTree._right_rotate.
  do 22 run. unfold adopt. cbn [leaf].
  destruct lf'.
  - run. run. reflexivity.
  - destruct (Hint eq_refl) as (-> & Ha & Hac & Haq).
    assert (Hla : (a < length (heap s))%nat) by (eapply lookup_lt_Some; eauto).
    erewrite bind_ok.
    2:{ do 3 run. apply set_parent_run. lookup_tac. }
    run. reflexivity.
Qed.

(** ** Rotation in the overflow repair of [insert] (C8) *)

(** [_update_parents] raises none of the exceptions the program catches. *)
Lemma update_parents_loop_raises (fuel : nat) (node : option ref) (o n : Z)
    (s : state) (e : exn) :
  fst (BPlusTree.update_parents_loop fuel node o n s) = Raise e ->
  e = NonTermination \/ e = DanglingRef.
Proof.
  revert node s. induction fuel as [|fuel IH]; intros [r|] s; simpl;
    try discriminate.
  - intros [= <-]. left; reflexivity.
  - destruct (heap s !! r) as [nr|] eqn:Hr.
    + assert (Hl : (r < length (heap s))%nat) by (eapply lookup_lt_Some; eauto).
      do 3 run. apply IH.
    + unfold bind at 1, get_keys, bind at 1, get_node. rewrite Hr. simpl.
      intros [= <-]. right; reflexivity.
Qed.

Lemma update_parents_raises (a : option ref * Z * Z) (s : state) (e : exn) :
  fst (BPlusTree._update_parents a s) = Raise e ->
  e = NonTermination \/ e = DanglingRef.
Proof.
  destruct a as [[node o] n]. unfold BPlusTree._update_parents.
  unfold bind, get_state. apply update_parents_loop_raises.
Qed.

(** When [_rotate] succeeds, the repair loop propagates the new minimum and
    stops: no split, no further iteration. *)
Lemma insert_repair_rotated (s s1 : state) (c : ref) (nc : Node) (fuel : nat)
    (path : list nat) (a : option ref * Z * Z) :
  heap s !! c = Some nc -> Node.is_overflow nc = true ->
  BPlusTree._rotate c s = (Ok a, s1) ->
  BPlusTree.insert_repair (S fuel) (Some c) path s = BPlusTree._update_parents a s1.
Proof.
  intros Hc Hov Hrot. cbn [BPlusTree.insert_repair].
  run. rewrite Hov. cbn [negb].
  unfold bind at 1, try_except. unfold bind at 1. rewrite Hrot.
  unfold bind at 1.
  pose proof (update_parents_raises a s1) as Hr.
  destruct (BPlusTree._update_parents a s1) as [[[]|e] s2]; [reflexivity|].
  destruct (Hr e eq_refl) as [-> | ->]; reflexivity.
Qed.

Lemma rotate_left_run (s : state) (c p : ref) (nc np : Node) :
  heap s !! c = Some nc -> prev nc = Some p -> heap s !! p = Some np ->
  Z.of_nat (length (keys np)) < tree_order s ->
  BPlusTree._rotate c s = BPlusTree._left_rotate c s.
Proof.
  intros Hc Hprev Hp Hlt. unfold BPlusTree._rotate.
  unfold bind at 1, get_state. run. rewrite Hprev.
  erewrite bind_ok by (run; reflexivity).
  apply Z.ltb_lt in Hlt. rewrite Hlt. reflexivity.
Qed.

Lemma rotate_right_run (s : state) (c q : ref) (nc nq : Node) :
  heap s !! c = Some nc ->
  (prev nc = None \/
   exists p np, prev nc = Some p /\ heap s !! p = Some np /\
                tree_order s <= Z.of_nat (length (keys np))) ->
  next nc = Some q -> heap s !! q = Some nq ->
  Z.of_nat (length (keys nq)) < tree_order s ->
  BPlusTree._rotate c s = BPlusTree._right_rotate c s.
Proof.
  intros Hc Hleft Hnext Hq Hlt. unfold BPlusTree._rotate.
  unfold bind at 1, get_state. run.
  assert (Hl : forall f : bool -> M (option ref * Z * Z),
             bind (match prev nc with
                   | Some p => pks <- get_keys p ;;
                               ret (Z.of_nat (length pks) <? tree_order s)
                   | None => ret false
                   end) f s = f false s).
  { intros f. destruct Hleft as [-> | (p & np & -> & Hp & Hge)]; [reflexivity|].
    erewrite bind_ok by (run; reflexivity).
    apply Z.ltb_ge in Hge. rewrite Hge. reflexivity. }
  rewrite Hl. run. rewrite Hnext.
  erewrite bind_ok by (run; reflexivity).
  apply Z.ltb_lt in Hlt. rewrite Hlt. reflexivity.
Qed.

Lemma adopt_length (h : list Node) (p : ref) (b : bool) (a : ref) (na : Node) :
  length (adopt h p b a na) = length h.
Proof. unfold adopt. destruct b; [reflexivity | apply length_insert]. Qed.

Lemma update_parents_same_size (a : option ref * Z * Z) (s : state) :
  length (heap (snd (BPlusTree._update_parents a s))) = length (heap s).
Proof.
  assert (H : stable same_size (BPlusTree._update_parents a)) by stable_tac.
  apply H.
Qed.

(** Rotation in the repair loop of [insert], on payloads that
    [_search_min_key_in_subtree] can read.  Let the node [c] of the loop
    overflow.

    Left: if [c.prev] is a node [p] with fewer than [order] keys (whatever
    its parent), the first value [v0] of [c] is appended to [p] together with
    the minimum key [kold] of [v0]'s subtree (for a leaf, [v0] is [[k]] and
    [kold] is the first key [k] of [c]); [c] loses its first key and value; an
    internal [p] becomes the parent of the moved child.

    Right: otherwise, if [c.next] is a node [q] with fewer than [order]
    keys, the last value [vlast] of [c] is put in front of [q], with the
    minimum key [knew] of its subtree (leaf) or the former minimum [kold] of
    [q]'s subtree (internal node) as its key, and [c] loses its last key and
    value.

    In both cases the loop then only runs [_update_parents] with the old and
    new minimum, from the parent of the node whose minimum changed, and
    stops: nothing is split, no object is created. *)
Lemma insert_repair_rotates (s : state) (c : ref) (nc : Node) (fuel : nat)
    (path : list nat) :
  heap s !! c = Some nc ->
  Node.is_overflow nc = true ->
  (forall (p a : ref) (np na : Node) (v0 v1 : value) (vs : list value)
          (k : Z) (ks : list Z) (kold knew : Z),
     prev nc = Some p -> heap s !! p = Some np ->
     Z.of_nat (length (keys np)) < tree_order s -> p <> c ->
     keys nc = k :: ks -> values nc = v0 :: v1 :: vs ->
     fst (BPlusTree._search_min_key_in_subtree v0 s) = Ok kold ->
     fst (BPlusTree._search_min_key_in_subtree v1 s) = Ok knew ->
     (leaf np = false -> v0 = VNode a /\ heap s !! a = Some na /\ a <> c /\ a <> p) ->
     BPlusTree.insert_repair (S fuel) (Some c) path s
     = BPlusTree._update_parents (parent nc, kold, knew)
         (with_heap s
            (adopt (<[c := with_values (with_keys nc ks) (v1 :: vs)]>
                      (<[p := with_values (with_keys np (keys np ++ [kold]))
                                (values np ++ [v0])]> (heap s)))
               p (leaf np) a na))
     /\ length (heap (snd (BPlusTree.insert_repair (S fuel) (Some c) path s)))
        = length (heap s))
  /\
  (forall (q a : ref) (nq na : Node) (w0 vlast : value) (ws vs : list value)
          (klast : Z) (ks : list Z) (kold knew : Z),
     (prev nc = None \/
      exists p np, prev nc = Some p /\ heap s !! p = Some np /\
                   tree_order s <= Z.of_nat (length (keys np))) ->
     next nc = Some q -> heap s !! q = Some nq ->
     Z.of_nat (length (keys nq)) < tree_order s -> q <> c ->
     values nq = w0 :: ws ->
     keys nc = ks ++ [klast] -> values nc = vs ++ [vlast] ->
     fst (BPlusTree._search_min_key_in_subtree w0 s) = Ok kold ->
     fst (BPlusTree._search_min_key_in_subtree vlast s) = Ok knew ->
     (leaf nq = false -> vlast = VNode a /\ heap s !! a = Some na /\ a <> c /\ a <> q) ->
     BPlusTree.insert_repair (S fuel) (Some c) path s
     = BPlusTree._update_parents (parent nq, kold, knew)
         (with_heap s
            (adopt (<[c := with_values (with_keys nc ks) vs]>
                      (<[q := with_values
                                (with_keys nq ((if leaf nc then knew else kold) :: keys nq))
                                (vlast :: values nq)]> (heap s)))
               q (leaf nq) a na))
     /\ length (heap (snd (BPlusTree.insert_repair (S fuel) (Some c) path s)))
        = length (heap s)).
Proof.
  intros Hc Hov. split.
  - intros p a np na v0 v1 vs k ks kold knew Hprev Hp Hlt Hne Hk Hv H0 H1 Hint.
    assert (Heq : BPlusTree.insert_repair (S fuel) (Some c) path s
                  = BPlusTree._update_parents (parent nc, kold, knew)
                      (with_heap s
                         (adopt (<[c := with_values (with_keys nc ks) (v1 :: vs)]>
                                   (<[p := with_values (with_keys np (keys np ++ [kold]))
                                             (values np ++ [v0])]> (heap s)))
                            p (leaf np) a na))).
    { eapply insert_repair_rotated; [exact Hc | exact Hov |].
      rewrite (rotate_left_run s c p nc np Hc Hprev Hp Hlt).
      eapply left_rotate_run; eassumption. }
    split; [exact Heq|].
    rewrite Heq, update_parents_same_size. cbn [heap with_heap].
    rewrite adopt_length, !length_insert. reflexivity.
  - intros q a nq na w0 vlast ws vs klast ks kold knew Hleft Hnext Hq Hlt Hne Hw Hk Hv
           H0 H1 Hint.
    assert (Heq : BPlusTree.insert_repair (S fuel) (Some c) path s
                  = BPlusTree._update_parents (parent nq, kold, knew)
                      (with_heap s
                         (adopt (<[c := with_values (with_keys nc ks) vs]>
                                   (<[q := with_values
                                             (with_keys nq
                                                ((if leaf nc then knew else kold) :: keys nq))
                                             (vlast :: values nq)]> (heap s)))
                            q (leaf nq) a na))).
    { eapply insert_repair_rotated; [exact Hc | exact Hov |].
      rewrite (rotate_right_run s c q nc nq Hc Hleft Hnext Hq Hlt).
      eapply right_rotate_run; eassumption. }
    split; [exact Heq|].
    rewrite Heq, update_parents_same_size. cbn [heap with_heap].
    rewrite adopt_length, !length_insert. reflexivity.
Qed.

Lemma insert_repair_rotates_witness :
  (BPlusTree.insert_repair 1 (Some 4%nat) [2%nat] overflow_last_leaf
   = BPlusTree._update_parents (Some 0%nat, 7, 8)
       (with_heap overflow_last_leaf
          (<[4%nat := mkNode 4 true [8; 9; 10; 11]
                        [VList [8]; VList [9]; VList [10]; VList [11]]
                        (Some 0%nat) (Some 3%nat) None]>
             (<[3%nat := mkNode 4 true [5; 6; 7] [VList [5]; VList [6]; VList [7]]
                           (Some 0%nat) (Some 1%nat) (Some 4%nat)]>
                (heap overflow_last_leaf))))
   /\ length (heap (snd (BPlusTree.insert_repair 1 (Some 4%nat) [2%nat] overflow_last_leaf)))
      = 5%nat)
  /\
  (BPlusTree.insert_repair 1 (Some 1%nat) [0%nat] overflow_first_leaf
   = BPlusTree._update_parents (Some 0%nat, 5, 4)
       (with_heap overflow_first_leaf
          (<[1%nat := mkNode 4 true [0; 1; 2; 3]
                        [VList [0]; VList [1]; VList [2]; VList [3]]
                        (Some 0%nat) None (Some 3%nat)]>
             (<[3%nat := mkNode 4 true [4; 5; 6] [VList [4]; VList [5]; VList [6]]
                           (Some 0%nat) (Some 1%nat) (Some 4%nat)]>
                (heap overflow_first_leaf))))
   /\ length (heap (snd (BPlusTree.insert_repair 1 (Some 1%nat) [0%nat] overflow_first_leaf)))
      = 5%nat).
Proof.
  split.
  - refine (proj1 (insert_repair_rotates overflow_last_leaf 4%nat
                     (mkNode 4 true [7; 8; 9; 10; 11]
                        [VList [7]; VList [8]; VList [9]; VList [10]; VList [11]]
                        (Some 0%nat) (Some 3%nat) None) 0 [2%nat] eq_refl eq_refl)
              3%nat 0%nat
              (mkNode 4 true [5; 6] [VList [5]; VList [6]]
                 (Some 0%nat) (Some 1%nat) (Some 4%nat))
              (mkNode 4 true [] [] None None None)
              (VList [7]) (VList [8]) [VList [9]; VList [10]; VList [11]]
              7 [8; 9; 10; 11] 7 8
              eq_refl eq_refl eq_refl _ eq_refl eq_refl eq_refl eq_refl _).
    + discriminate.
    + discriminate.
  - refine (proj2 (insert_repair_rotates overflow_first_leaf 1%nat
                     (mkNode 4 true [0; 1; 2; 3; 4]
                        [VList [0]; VList [1]; VList [2]; VList [3]; VList [4]]
                        (Some 0%nat) None (Some 3%nat)) 0 [0%nat] eq_refl eq_refl)
              3%nat 0%nat
              (mkNode 4 true [5; 6] [VList [5]; VList [6]]
                 (Some 0%nat) (Some 1%nat) (Some 4%nat))
              (mkNode 4 true [] [] None None None)
              (VList [5]) (VList [4]) [VList [6]]
              [VList [0]; VList [1]; VList [2]; VList [3]]
              4 [0; 1; 2; 3] 5 4
              _ eq_refl eq_refl eq_refl _ eq_refl eq_refl eq_refl eq_refl eq_refl _).
    + left. reflexivity.
    + discriminate.
    + discriminate.
Defined.

(** ** Runs on which the program leaves its specification *)

(** C1.  Order 2, keys 1, 2, 3 inserted, 2 deleted: the root has the
    separator 3 over the leaves [1] and [3], and the separator invariant
    holds.  [delete(3)] then empties the right leaf and raises IndexError in
    [_left_redistribute] ([node.values[0]] of the emptied leaf); the store it
    leaves has the separator 3 over a subtree without keys.  The same happens
    at the default order 4 after [bulk_load] of 1..9, whose last leaf holds
    the single key 9, with [delete(9)]. *)
Theorem separator_invariant_broken_by_delete :
  (fst (run_from_empty 2 [Insert 1; Insert 2; Insert 3; Delete 2]) = Ok tt
   /\ separator_invariant
        (snd (run_from_empty 2 [Insert 1; Insert 2; Insert 3; Delete 2])) = true
   /\ fst (run_from_empty 2 [Insert 1; Insert 2; Insert 3; Delete 2; Delete 3])
      = Raise IndexError
   /\ separator_invariant
        (snd (run_from_empty 2 [Insert 1; Insert 2; Insert 3; Delete 2; Delete 3]))
      = false)
  /\
  (fst (run_from_empty 4 [BulkLoad [1; 2; 3; 4; 5; 6; 7; 8; 9]]) = Ok tt
   /\ separator_invariant
        (snd (run_from_empty 4 [BulkLoad [1; 2; 3; 4; 5; 6; 7; 8; 9]])) = true
   /\ fst (run_from_empty 4 [BulkLoad [1; 2; 3; 4; 5; 6; 7; 8; 9]; Delete 9])
      = Raise IndexError
   /\ separator_invariant
        (snd (run_from_empty 4 [BulkLoad [1; 2; 3; 4; 5; 6; 7; 8; 9]; Delete 9]))
      = false).
Proof. repeat split; vm_compute; reflexivity. Qed.

(** C2.  Order 3, so [ceil(order/2) = 2].  After the keys 1 to 13 are
    inserted in increasing order the root has been split as an internal
    node: its right child keeps one key, fewer than 2.  After 1 to 27 are
    inserted and 22 and 23 deleted, an internal node other than the root
    holds four keys, more than the order.  Every operation of both runs
    returns normally, and the leaves stay at one depth. *)
Theorem occupancy_broken_at_odd_order :
  (fst (run_from_empty 3 (Insert <$> [1; 2; 3; 4; 5; 6; 7; 8; 9; 10; 11; 12; 13])) = Ok tt
   /\ occupancy_invariant
        (snd (run_from_empty 3 (Insert <$> [1; 2; 3; 4; 5; 6; 7; 8; 9; 10; 11; 12; 13])))
      = false
   /\ non_root_sizes
        (snd (run_from_empty 3 (Insert <$> [1; 2; 3; 4; 5; 6; 7; 8; 9; 10; 11; 12; 13])))
      = [2; 3; 3; 3; 1; 2; 2]%nat)
  /\
  (fst (run_from_empty 3
          ((Insert <$> [1; 2; 3; 4; 5; 6; 7; 8; 9; 10; 11; 12; 13; 14; 15; 16; 17; 18;
                        19; 20; 21; 22; 23; 24; 25; 26; 27])
           ++ [Delete 22; Delete 23])) = Ok tt
   /\ non_root_sizes
        (snd (run_from_empty 3
                ((Insert <$> [1; 2; 3; 4; 5; 6; 7; 8; 9; 10; 11; 12; 13; 14; 15; 16; 17;
                              18; 19; 20; 21; 22; 23; 24; 25; 26; 27])
                 ++ [Delete 22; Delete 23])))
      = [3; 3; 3; 3; 3; 4; 3; 3; 2; 2; 3]%nat
   /\ balanced
        (snd (run_from_empty 3
                ((Insert <$> [1; 2; 3; 4; 5; 6; 7; 8; 9; 10; 11; 12; 13; 14; 15; 16; 17;
                              18; 19; 20; 21; 22; 23; 24; 25; 26; 27])
                 ++ [Delete 22; Delete 23])))
      = true).
Proof. repeat split; vm_compute; reflexivity. Qed.

(** *** [bulk_load] of at most [order] keys *)

Lemma chunks_single (l : list Z) (n : nat) :
  l <> [] -> (length l <= n)%nat -> BPlusTree.chunks (length l) l n = [l].
Proof.
  intros Hne Hle. destruct l as [|x l]; [contradiction|].
  cbn [length BPlusTree.chunks]. rewrite take_ge by exact Hle.
  rewrite drop_ge by exact Hle. destruct (length l); reflexivity.
Qed.

Lemma sorted_length (l : list Z) : length (BPlusTree.sorted l) = length l.
Proof. unfold BPlusTree.sorted. apply Permutation_length, merge_sort_Permutation. Qed.

(** Whatever the order and the keys, as long as they fit in one bucket:
    [bulk_load] returns normally, the leaf chain is the sorted key list, and
    every [find] raises UnboundLocalError. *)
Lemma bulk_load_single_bucket (o : Z) (values : list Z) (k : Z) :
  0 < o -> Z.of_nat (length values) <= o ->
  fst (run_from_empty o [BulkLoad values]) = Ok tt
  /\ leaf_chain (snd (run_from_empty o [BulkLoad values])) = BPlusTree.sorted values
  /\ fst (run_from_empty o [BulkLoad values; Find k]) = Raise UnboundLocalError.
Proof.
  intros Ho Hlen.
  pose proof (sorted_length values) as Hs.
  unfold run_from_empty, run, for_each, perform, BPlusTree.bulk_load, BPlusTree.init.
  remember (BPlusTree.sorted values) as lst eqn:E in *. clear E.
  destruct o as [|p|p]; try lia.
  destruct (decide (lst = [])) as [->|Hne].
  - repeat split; reflexivity.
  - assert (Hc : BPlusTree.chunks (length lst) lst (Z.to_nat (Z.pos p)) = [lst]).
    { apply chunks_single; [exact Hne | lia]. }
    repeat split.
    + unfold bind at 1, get_state. unfold bind at 1.
      cbn -[BPlusTree.chunks BPlusTree.bulk_loop Z.to_nat].
      rewrite Hc. cbn. reflexivity.
    + unfold bind at 1, get_state. unfold bind at 1.
      cbn -[BPlusTree.chunks BPlusTree.bulk_loop Z.to_nat leaf_chain].
      rewrite Hc. lazy. exact (app_nil_r lst).
    + unfold bind at 1, get_state. unfold bind at 1.
      cbn -[BPlusTree.chunks BPlusTree.bulk_loop Z.to_nat].
      rewrite Hc. lazy. reflexivity.
Qed.

(** C5.  Order 3 and the keys 1, 2, 3: [bulk_load] returns normally and the
    leaf chain is the sorted key list, but the root is an internal node
    with one child and no key, and [find] raises UnboundLocalError in
    [_search_position_in_child], for a key that was loaded as for one that
    was not.  With more keys than the order the same calls print "Key
    found" and "Key not found". *)
Theorem find_after_small_bulk_load_raises :
  (fst (run_from_empty 3 [BulkLoad [3; 1; 2]]) = Ok tt
   /\ leaf_chain (snd (run_from_empty 3 [BulkLoad [3; 1; 2]])) = [1; 2; 3]
   /\ keys_of (snd (run_from_empty 3 [BulkLoad [3; 1; 2]])) 0%nat = []
   /\ fst (run_from_empty 3 [BulkLoad [3; 1; 2]; Find 1]) = Raise UnboundLocalError
   /\ fst (run_from_empty 3 [BulkLoad [3; 1; 2]; Find 4]) = Raise UnboundLocalError)
  /\
  (run_from_empty 3 [BulkLoad [7; 1; 9; 3; 5; 2; 8; 4; 6]; Find 5; Find 10]
   = (Ok tt,
      mkState (heap (snd (run_from_empty 3 [BulkLoad [7; 1; 9; 3; 5; 2; 8; 4; 6]])))
        3 0%nat [KeyFound 5; KeyNotFound 10])
   /\ leaf_chain (snd (run_from_empty 3 [BulkLoad [7; 1; 9; 3; 5; 2; 8; 4; 6]]))
      = [1; 2; 3; 4; 5; 6; 7; 8; 9]).
Proof. repeat split; vm_compute; reflexivity. Qed.

(** C9.  At order 2 a leaf underflows when it is empty.  Whether its left
    sibling holds [ceil(order/2) = 1] key (merge) or 2 keys (borrow),
    [_left_redistribute] raises IndexError before it changes anything: both
    paths start by reading [values[0]] of the empty leaf.  [delete] as a
    whole raises.  At order 3 (keys 1 to 13, then [delete(10)]) the leaf
    borrows 9 from its left sibling, which has another parent; the loop then
    goes on with the parent, which has had one key since the split of the
    root, merges it with its left sibling and the tree loses a level: the
    new root holds the four keys 4, 7, 9, 12. *)
Theorem left_redistribute_on_empty_leaf :
  (Node.is_underflow (node_at (heap before_merge) 2%nat) = true
   /\ prev (node_at (heap before_merge) 2%nat) = Some 1%nat
   /\ keys_of before_merge 1%nat = [1]
   /\ BPlusTree._left_redistribute 2%nat 1%nat before_merge
      = (Raise IndexError, before_merge))
  /\
  (Node.is_underflow (node_at (heap before_borrow) 2%nat) = true
   /\ prev (node_at (heap before_borrow) 2%nat) = Some 1%nat
   /\ keys_of before_borrow 1%nat = [0; 1]
   /\ BPlusTree._left_redistribute 2%nat 1%nat before_borrow
      = (Raise IndexError, before_borrow))
  /\
  (fst (run_from_empty 2 [Insert 1; Insert 2; Insert 3; Delete 2; Delete 3])
   = Raise IndexError
   /\ fst (run_from_empty 2 [Insert 1; Insert 2; Insert 3; Insert 0; Delete 2; Delete 3])
      = Raise IndexError)
  /\
  (fst (run_from_empty 3
          ((Insert <$> [1; 2; 3; 4; 5; 6; 7; 8; 9; 10; 11; 12; 13]) ++ [Delete 10]))
   = Ok tt
   /\ height (snd (run_from_empty 3
                     (Insert <$> [1; 2; 3; 4; 5; 6; 7; 8; 9; 10; 11; 12; 13]))) = 2%nat
   /\ height (snd (run_from_empty 3
                     ((Insert <$> [1; 2; 3; 4; 5; 6; 7; 8; 9; 10; 11; 12; 13])
                      ++ [Delete 10]))) = 1%nat
   /\ (let s := snd (run_from_empty 3
                       ((Insert <$> [1; 2; 3; 4; 5; 6; 7; 8; 9; 10; 11; 12; 13])
                        ++ [Delete 10])) in
       keys_of s (root s) = [4; 7; 9; 12])).
Proof. repeat split; vm_compute; reflexivity. Qed.

(** C8.  Order 4 (the default) and [bulk_load] of 10, 20, ..., 90: the
    leaves are [10,20,30,40], [50,60,70,80] and [90] (objects 1, 2, 3).
    [insert(55)] puts 55 into the second leaf, which then holds five keys;
    its left sibling is full and its right sibling holds one key, fewer than
    the order, so that [_rotate] calls [_right_rotate].  That call raises
    AttributeError: [bulk_load] has stored the bare integer 90 as the value
    of the key 90, where [Node.add] stores the list [[90]], and
    [_search_min_key_in_subtree] reads [node.leaf] of it.  No key moves, the
    leaf keeps its five keys, and [insert] raises.  In a tree built by
    insertions (the keys 1 to 10) [insert(0)] overflows the first leaf,
    whose right sibling [5,6] has room: the key 4 moves there, the
    separator 5 of the root becomes 4, and no object is created. *)
Theorem rotation_after_bulk_load_raises :
  (fst (run_from_empty 4 [BulkLoad [10; 20; 30; 40; 50; 60; 70; 80; 90]]) = Ok tt
   /\ (let s := snd (run_from_empty 4 [BulkLoad [10; 20; 30; 40; 50; 60; 70; 80; 90]]) in
       keys_of s 1%nat = [10; 20; 30; 40]
       /\ keys_of s 2%nat = [50; 60; 70; 80]
       /\ keys_of s 3%nat = [90]
       /\ values (node_at (heap s) 3%nat) = [VInt 90]
       /\ prev (node_at (heap s) 2%nat) = Some 1%nat
       /\ next (node_at (heap s) 2%nat) = Some 3%nat)
   /\ fst (run_from_empty 4 [BulkLoad [10; 20; 30; 40; 50; 60; 70; 80; 90]; Insert 55])
      = Raise AttributeError
   /\ (let s := snd (run_from_empty 4
                       [BulkLoad [10; 20; 30; 40; 50; 60; 70; 80; 90]; Insert 55]) in
       keys_of s 2%nat = [50; 55; 60; 70; 80]
       /\ Node.is_overflow (node_at (heap s) 2%nat) = true
       /\ keys_of s 3%nat = [90]
       /\ length (heap s) = 4%nat))
  /\
  (let s := snd (run_from_empty 4 (Insert <$> [1; 2; 3; 4; 5; 6; 7; 8; 9; 10])) in
   keys_of s 0%nat = [5; 7]
   /\ keys_of s 1%nat = [1; 2; 3; 4]
   /\ keys_of s 3%nat = [5; 6]
   /\ next (node_at (heap s) 1%nat) = Some 3%nat
   /\ fst (BPlusTree.insert 0 s) = Ok tt
   /\ keys_of (snd (BPlusTree.insert 0 s)) 0%nat = [4; 7]
   /\ keys_of (snd (BPlusTree.insert 0 s)) 1%nat = [0; 1; 2; 3]
   /\ keys_of (snd (BPlusTree.insert 0 s)) 3%nat = [4; 5; 6]
   /\ length (heap (snd (BPlusTree.insert 0 s))) = length (heap s)).
Proof. repeat split; vm_compute; reflexivity. Qed.

(** * Further properties of the code *)

(** ** [Node.add] and [Node.remove] *)

Ltac run_last :=
  first
    [ erewrite set_keys_run by lookup_tac
    | erewrite set_values_run by lookup_tac
    | erewrite set_parent_run by lookup_tac ];
  cbn [keys values prev next parent leaf order with_keys with_values with_parent
       heap with_heap tree_order root stdout];
  rewrite ?with_heap_twice, ?list_insert_insert_eq.

Lemma with_heap_same (s : state) : with_heap s (heap s) = s.
Proof. destruct s. reflexivity. Qed.

Lemma position_scan_shift (data : Z) (ks : list Z) (i : nat) :
  BPlusTree.position_scan data ks i = (i + BPlusTree.position_scan data ks 0)%nat.
Proof.
  revert i. induction ks as [|key ks IH]; intros i; simpl; [lia|].
  destruct (data <? key); [lia|].
  rewrite (IH (S i)), (IH 1%nat). lia.
Qed.

Lemma position_scan_le (data : Z) (ks : list Z) :
  (BPlusTree.position_scan data ks 0 <= length ks)%nat.
Proof.
  induction ks as [|key ks IH]; simpl; [lia|].
  destruct (data <? key); [lia|]. rewrite position_scan_shift. lia.
Qed.

(** The keys before the position found are not greater than [data]; the key
    at the position, if any, is greater. *)
Lemma position_scan_before (data : Z) (ks : list Z) (m : nat) (k : Z) :
  ks !! m = Some k -> (m < BPlusTree.position_scan data ks 0)%nat -> k <= data.
Proof.
  revert m. induction ks as [|key ks IH]; intros m Hm Hlt; [discriminate|].
  simpl in Hlt. destruct (Z.ltb_spec data key); [lia|].
  rewrite position_scan_shift in Hlt.
  destruct m as [|m]; simpl in Hm.
  - injection Hm as <-. lia.
  - apply (IH m Hm). lia.
Qed.

Lemma position_scan_at (data : Z) (ks : list Z) (k : Z) :
  ks !! BPlusTree.position_scan data ks 0 = Some k -> data < k.
Proof.
  induction ks as [|key ks IH]; simpl; [discriminate|].
  destruct (Z.ltb_spec data key).
  - simpl. intros [= <-]. assumption.
  - rewrite position_scan_shift. simpl. exact IH.
Qed.

Lemma splice_position (data : Z) (ks : list Z) :
  splice (BPlusTree.position_scan data ks 0) data ks = sorted_insert data ks.
Proof.
  unfold splice. induction ks as [|key ks IH]; simpl; [reflexivity|].
  destruct (data <? key); [reflexivity|].
  rewrite position_scan_shift. simpl. f_equal. exact IH.
Qed.

Lemma add_scan_absent (data : Z) (ks : list Z) (i : nat) :
  data ∉ ks ->
  Node.add_scan data ks i
  = if (BPlusTree.position_scan data ks 0 <? length ks)%nat
    then Node.InsertAt (i + BPlusTree.position_scan data ks 0)
    else Node.Append.
Proof.
  revert i. induction ks as [|key ks IH]; intros i Hn; simpl; [reflexivity|].
  apply not_elem_of_cons in Hn as [Hne Hn].
  destruct (Z.eqb_spec data key) as [|_]; [contradiction|].
  destruct (data <? key).
  - simpl. f_equal. lia.
  - rewrite (IH (S i) Hn), (position_scan_shift data ks 1).
    change (1 + ?a <? S ?b)%nat with (a <? b)%nat.
    destruct (_ <? _)%nat; [f_equal; lia | reflexivity].
Qed.

Lemma sorted_insert_elem (data x : Z) (ks : list Z) :
  x ∈ sorted_insert data ks <-> x = data \/ x ∈ ks.
Proof.
  induction ks as [|key ks IH]; simpl.
  - rewrite list_elem_of_singleton. split; [auto | intros [H|H]; [exact H | inversion H]].
  - destruct (data <? key).
    + rewrite elem_of_cons. reflexivity.
    + rewrite !elem_of_cons, IH. tauto.
Qed.

Lemma sorted_insert_increasing (data : Z) (ks : list Z) :
  strictly_increasing ks = true -> data ∉ ks ->
  strictly_increasing (sorted_insert data ks) = true.
Proof.
  induction ks as [|key ks IH]; intros Hs Hn; [reflexivity|].
  apply not_elem_of_cons in Hn as [Hne Hn]. simpl.
  destruct (Z.ltb_spec data key) as [Hlt|Hge].
  - change (strictly_increasing (data :: key :: ks))
      with ((data <? key) && strictly_increasing (key :: ks)).
    rewrite Hs. apply Z.ltb_lt in Hlt. rewrite Hlt. reflexivity.
  - assert (Hk : key < data) by lia.
    specialize (IH (strictly_increasing_tail _ _ Hs) Hn).
    destruct ks as [|k2 ks].
    + simpl. apply Z.ltb_lt in Hk. rewrite Hk. reflexivity.
    + simpl in *. destruct (data <? k2).
      * apply Z.ltb_lt in Hk. rewrite Hk. exact IH.
      * apply andb_true_iff in Hs as [H1 _]. rewrite H1. exact IH.
Qed.

Lemma sorted_insert_length (data : Z) (ks : list Z) :
  length (sorted_insert data ks) = S (length ks).
Proof.
  induction ks as [|key ks IH]; simpl; [reflexivity|].
  destruct (data <? key); simpl; [reflexivity | rewrite IH; reflexivity].
Qed.

Lemma splice_length {A} (i : nat) (x : A) (l : list A) :
  length (splice i x l) = S (length l).
Proof.
  unfold splice. rewrite length_app. simpl. rewrite length_take, length_drop. lia.
Qed.

(** What [add] leaves in the store when [data] is new. *)
Lemma add_absent_run (s : state) (c : ref) (n : Node) (data : Z) :
  heap s !! c = Some n ->
  data ∉ keys n ->
  length (values n) = length (keys n) ->
  Node.add c data s
  = (Ok tt,
     with_heap s
       (<[c := with_values (with_keys n (sorted_insert data (keys n)))
                 (splice (BPlusTree.position_scan data (keys n) 0) (VList [data])
                    (values n))]> (heap s))).
Proof.
  intros Hc Hn Hlen.
  assert (Hlc : (c < length (heap s))%nat) by (eapply lookup_lt_Some; eauto).
  rewrite <- splice_position.
  unfold Node.add. run.
  rewrite (add_scan_absent data (keys n) 0 Hn).
  pose proof (position_scan_le data (keys n)) as Hle.
  assert (Happ : forall A (x : A) (l : list A), length l = length (keys n) ->
            splice (length (keys n)) x l = l ++ [x]).
  { intros A x l Hl. unfold splice. rewrite <- Hl, firstn_all, drop_all. reflexivity. }
  destruct (keys n) as [|k0 ks] eqn:Hk.
  - cbv iota. do 2 run. run_last.
    destruct (values n); [reflexivity | discriminate].
  - cbv iota. destruct (Nat.ltb_spec (BPlusTree.position_scan data (k0 :: ks) 0)
                          (length (k0 :: ks))) as [Hlt|Hge].
    + rewrite Nat.add_0_l. do 2 run. run_last. reflexivity.
    + do 2 run. run_last.
      replace (BPlusTree.position_scan data (k0 :: ks) 0) with (length (k0 :: ks)) by lia.
      rewrite !Happ by congruence. reflexivity.
Qed.

(** X1.  [Node.add] of a key that the leaf does not hold: the key is put
    before the first greater key ([sorted_insert]) and the value [[data]] at
    the same position; no other attribute and no other object changes and
    nothing is printed.  The leaf then holds exactly its former keys and
    [data], and a leaf that was sorted stays sorted. *)
Theorem add_new_key (s : state) (c : ref) (n : Node) (data : Z) :
  heap s !! c = Some n ->
  data ∉ keys n ->
  length (values n) = length (keys n) ->
  exists n',
    Node.add c data s = (Ok tt, with_heap s (<[c := n']> (heap s)))
    /\ keys n' = sorted_insert data (keys n)
    /\ values n' = splice (BPlusTree.position_scan data (keys n) 0) (VList [data]) (values n)
    /\ (order n', leaf n', parent n', prev n', next n')
       = (order n, leaf n, parent n, prev n, next n)
    /\ (forall x, x ∈ keys n' <-> x = data \/ x ∈ keys n)
    /\ (strictly_increasing (keys n) = true -> strictly_increasing (keys n') = true).
Proof.
  intros Hc Hn Hlen. eexists. split; [apply add_absent_run; eassumption|].
  cbn [keys values with_keys with_values order leaf parent prev next].
  repeat split.
  - apply sorted_insert_elem.
  - apply sorted_insert_elem.
  - intros Hs. apply sorted_insert_increasing; assumption.
Qed.

Lemma add_new_key_witness :
  exists n',
    Node.add 3%nat 0 tree_1_to_10
    = (Ok tt, with_heap tree_1_to_10 (<[3%nat := n']> (heap tree_1_to_10)))
    /\ keys n' = [0; 5; 6]
    /\ values n' = [VList [0]; VList [5]; VList [6]].
Proof.
  destruct (add_new_key tree_1_to_10 3%nat
              (mkNode 4 true [5; 6] [VList [5]; VList [6]]
                 (Some 0%nat) (Some 1%nat) (Some 4%nat)) 0 eq_refl)
    as (n' & Hrun & Hk & Hv & _).
  - apply list_index_None. reflexivity.
  - reflexivity.
  - exists n'. split; [exact Hrun|]. split; [exact Hk | exact Hv].
Defined.

Lemma list_index_lookup (x : Z) (l : list Z) (i : nat) :
  list_index x l = Some i -> l !! i = Some x.
Proof.
  revert i. induction l as [|y l IH]; intros i; simpl; [discriminate|].
  destruct (Z.eqb_spec x y) as [->|_].
  - intros [= <-]. reflexivity.
  - destruct (list_index x l) as [j|]; [|discriminate].
    intros [= <-]. simpl. apply IH. reflexivity.
Qed.

Lemma list_index_sorted_insert (data : Z) (ks : list Z) :
  data ∉ ks ->
  list_index data (sorted_insert data ks) = Some (BPlusTree.position_scan data ks 0).
Proof.
  induction ks as [|key ks IH]; intros Hn; simpl.
  - rewrite Z.eqb_refl. reflexivity.
  - apply not_elem_of_cons in Hn as [Hne Hn].
    destruct (data <? key); simpl.
    + rewrite Z.eqb_refl. reflexivity.
    + destruct (Z.eqb_spec data key); [contradiction|].
      rewrite (IH Hn), (position_scan_shift data ks 1). reflexivity.
Qed.

Lemma delete_splice {A} (i : nat) (x : A) (l : list A) :
  (i <= length l)%nat -> delete i (splice i x l) = l.
Proof.
  intros Hi. unfold splice.
  assert (Hl : length (take i l) = i) by (rewrite length_take; lia).
  rewrite <- Hl at 1. rewrite delete_middle. apply take_drop.
Qed.

Lemma py_pop_nat {A} (l : list A) (i : nat) :
  (i < length l)%nat -> py_pop l (Z.of_nat i) = Some (delete i l).
Proof.
  intros Hi. unfold py_pop.
  destruct (Z.ltb_spec (Z.of_nat i) 0); [lia|].
  rewrite Nat2Z.id. destruct (Nat.ltb_spec i (length l)); [reflexivity | lia].
Qed.

Lemma pop_nat_run {A} (l : list A) (i : nat) (s : state) :
  (i < length l)%nat -> pop l (Z.of_nat i) s = (Ok (delete i l), s).
Proof. intros Hi. unfold pop. rewrite py_pop_nat by exact Hi. reflexivity. Qed.

Lemma py_index_nat {A} (l : list A) (i : nat) : py_index l (Z.of_nat i) = l !! i.
Proof.
  unfold py_index. destruct (Z.ltb_spec (Z.of_nat i) 0); [lia|].
  rewrite Nat2Z.id. reflexivity.
Qed.

Lemma index_nat_run {A} (l : list A) (i : nat) (x : A) (s : state) :
  l !! i = Some x -> index l (Z.of_nat i) s = (Ok x, s).
Proof. intros Hi. unfold index. rewrite py_index_nat, Hi. reflexivity. Qed.

(** What [remove] leaves in the store and returns when [data] is present. *)
Lemma remove_present_run (s : state) (c : ref) (n : Node) (data : Z) (i : nat) (k0 : Z) :
  heap s !! c = Some n ->
  list_index data (keys n) = Some i ->
  head (keys n) = Some k0 ->
  length (values n) = length (keys n) ->
  Node.remove c data s
  = (Ok (parent n, k0, default k0 (head (delete i (keys n)))),
     with_heap s
       (<[c := with_values (with_keys n (delete i (keys n))) (delete i (values n))]>
          (heap s))).
Proof.
  intros Hc Hi Hk0 Hlen.
  assert (Hlc : (c < length (heap s))%nat) by (eapply lookup_lt_Some; eauto).
  assert (Hil : (i < length (keys n))%nat).
  { eapply lookup_lt_Some, list_index_lookup, Hi. }
  unfold Node.remove. run. rewrite Hi.
  erewrite bind_ok by (apply (index_nat_run _ 0); rewrite <- head_lookup; exact Hk0).
  erewrite bind_ok by (apply pop_nat_run; exact Hil).
  do 2 run.
  erewrite bind_ok by (apply pop_nat_run; lia).
  do 3 run.
  destruct (delete i (keys n)); reflexivity.
Qed.

Lemma strictly_increasing_cons (x : Z) (l : list Z) :
  strictly_increasing (x :: l) = true
  <-> (forall y, y ∈ l -> x < y) /\ strictly_increasing l = true.
Proof.
  split.
  - intros H. split; [apply strictly_increasing_head, H | eapply strictly_increasing_tail, H].
  - intros [Hx Hl]. destruct l as [|z l]; [reflexivity|].
    change ((x <? z) && strictly_increasing (z :: l) = true).
    rewrite Hl, andb_true_r. apply Z.ltb_lt, Hx. left.
Qed.

Lemma strictly_increasing_delete (l : list Z) (i : nat) (d : Z) :
  strictly_increasing l = true -> l !! i = Some d ->
  strictly_increasing (delete i l) = true
  /\ forall x, x ∈ delete i l <-> x ∈ l /\ x <> d.
Proof.
  revert i. induction l as [|y l IH]; intros i Hs Hi; [discriminate|].
  apply strictly_increasing_cons in Hs as [Hy Hl].
  destruct i as [|i]; simpl in *.
  - injection Hi as ->. split; [exact Hl|].
    intros x. rewrite elem_of_cons. split.
    + intros Hx. split; [right; exact Hx | specialize (Hy x Hx); lia].
    + intros [[->|Hx] Hne]; [contradiction | exact Hx].
  - destruct (IH i Hl Hi) as [Hs' Hel]. split.
    + apply strictly_increasing_cons. split; [|exact Hs'].
      intros z Hz. apply Hy, Hel, Hz.
    + intros x. rewrite !elem_of_cons, Hel.
      assert (y < d) by (apply Hy; eapply list_elem_of_lookup_2; eassumption).
      split; [intros [->|[? ?]]; split; auto; lia | intros [[->|?] ?]; auto].
Qed.

(** X2.  [Node.remove] of a key that the leaf holds: the first occurrence
    (index [i]) is removed from [keys] and the entry [i] from [values];
    nothing else changes.  It returns the parent, the former first key and
    the new first key (the former one again when the leaf is left empty).
    In a sorted leaf the remaining keys are the former ones without [data]
    and stay sorted. *)
Theorem remove_present_key (s : state) (c : ref) (n : Node) (data : Z) :
  heap s !! c = Some n ->
  data ∈ keys n ->
  length (values n) = length (keys n) ->
  exists i n' old_min_key,
    Node.remove c data s
    = (Ok (parent n, old_min_key, default old_min_key (head (keys n'))),
       with_heap s (<[c := n']> (heap s)))
    /\ keys n !! i = Some data
    /\ head (keys n) = Some old_min_key
    /\ keys n' = delete i (keys n)
    /\ values n' = delete i (values n)
    /\ (order n', leaf n', parent n', prev n', next n')
       = (order n, leaf n, parent n, prev n, next n)
    /\ (strictly_increasing (keys n) = true ->
        strictly_increasing (keys n') = true
        /\ forall x, x ∈ keys n' <-> x ∈ keys n /\ x <> data).
Proof.
  intros Hc Hin Hlen.
  destruct (list_index_Some _ _ Hin) as [i Hi].
  assert (Hhd : exists k0, head (keys n) = Some k0).
  { destruct (keys n); [inversion Hin | simpl; eauto]. }
  destruct Hhd as [k0 Hk0].
  exists i, (with_values (with_keys n (delete i (keys n))) (delete i (values n))), k0.
  pose proof (list_index_lookup _ _ _ Hi) as Hlk.
  cbn [keys values with_values with_keys order leaf parent prev next].
  split; [apply remove_present_run; assumption|].
  split; [exact Hlk|]. split; [exact Hk0|]. do 3 (split; [reflexivity|]).
  intros Hs. exact (strictly_increasing_delete _ _ _ Hs Hlk).
Qed.

Lemma remove_present_key_witness :
  exists n',
    Node.remove 3%nat 6 tree_1_to_10
    = (Ok (Some 0%nat, 5, default 5 (head (keys n'))),
       with_heap tree_1_to_10 (<[3%nat := n']> (heap tree_1_to_10)))
    /\ keys n' = [5] /\ values n' = [VList [5]].
Proof.
  destruct (remove_present_key tree_1_to_10 3%nat
              (mkNode 4 true [5; 6] [VList [5]; VList [6]]
                 (Some 0%nat) (Some 1%nat) (Some 4%nat)) 6 eq_refl)
    as (i & n' & k0 & Hrun & Hi & Hk0 & Hk & Hv & _).
  - apply list_elem_of_In. simpl. tauto.
  - reflexivity.
  - destruct i as [|[|i]]; try discriminate Hi. injection Hk0 as <-.
    exists n'. split; [exact Hrun|]. split; [exact Hk | exact Hv].
Defined.

(** X3.  Round trip in a leaf: [add(data)] of an absent key followed by
    [remove(data)] gives back the store exactly as it was.  [remove] reports
    the smallest key during the visit of [data] as the old minimum and the
    leaf's own first key as the new one ([data] itself when the leaf was
    empty). *)
Theorem add_remove_round_trip (s : state) (c : ref) (n : Node) (data : Z) :
  heap s !! c = Some n ->
  data ∉ keys n ->
  length (values n) = length (keys n) ->
  (Node.add c data ;;; Node.remove c data) s
  = (Ok (parent n,
         default data (head (sorted_insert data (keys n))),
         default data (head (keys n))),
     s).
Proof.
  intros Hc Hn Hlen.
  assert (Hlc : (c < length (heap s))%nat) by (eapply lookup_lt_Some; eauto).
  pose proof (position_scan_le data (keys n)) as Hle.
  erewrite bind_ok by (apply add_absent_run; eassumption).
  assert (Hhd : exists k0, head (sorted_insert data (keys n)) = Some k0).
  { destruct (keys n) as [|k ks]; simpl; [eauto|]. destruct (data <? k); simpl; eauto. }
  destruct Hhd as [k0 Hk0].
  erewrite remove_present_run.
  2:{ cbn [heap with_heap]. apply list_lookup_insert_eq. exact Hlc. }
  2:{ cbn [keys with_values with_keys]. apply list_index_sorted_insert, Hn. }
  2:{ cbn [keys with_values with_keys]. exact Hk0. }
  2:{ cbn [keys values with_values with_keys]. rewrite splice_length, sorted_insert_length.
      congruence. }
  cbn [keys values with_values with_keys parent heap with_heap].
  rewrite with_heap_twice, list_insert_insert_eq.
  rewrite <- splice_position, !delete_splice by lia.
  rewrite splice_position, Hk0. cbn [default].
  unfold with_values, with_keys. cbn [order leaf keys values parent prev next].
  replace (mkNode (order n) (leaf n) (keys n) (values n) (parent n) (prev n) (next n))
    with n by (destruct n; reflexivity).
  rewrite list_insert_id by exact Hc. rewrite with_heap_same.
  destruct (keys n) as [|k ks]; simpl in *; [congruence | reflexivity].
Qed.

Lemma add_remove_round_trip_witness :
  (Node.add 3%nat 0 ;;; Node.remove 3%nat 0) tree_1_to_10
  = (Ok (Some 0%nat, 0, 5), tree_1_to_10).
Proof.
  refine (add_remove_round_trip tree_1_to_10 3%nat
            (mkNode 4 true [5; 6] [VList [5]; VList [6]]
               (Some 0%nat) (Some 1%nat) (Some 4%nat)) 0 eq_refl _ eq_refl).
  apply list_index_None. reflexivity.
Defined.

(** ** [_search_position_in_child] *)

Lemma search_position_run (s : state) (node : ref) (n : Node) (data : Z) :
  heap s !! node = Some n ->
  BPlusTree._search_position_in_child node data s = (position_result n data, s).
Proof.
  intros Hn. unfold BPlusTree._search_position_in_child, position_result.
  erewrite bind_ok by (apply get_node_run; exact Hn).
  destruct (keys n) as [|k ks]; [reflexivity|].
  unfold bind, index. destruct (py_index _ _); reflexivity.
Qed.

(** X4.  [_search_position_in_child]: on a node without keys it raises
    UnboundLocalError (the loop variable is never bound).  On a node with
    [len(keys) + 1] children it returns the child at the index [i] of the
    first key greater than [data] (or the last child): every key before [i]
    is at most [data] and the key at [i], if any, is greater.  The store is
    not changed. *)
Theorem search_position_in_child_spec (s : state) (node : ref) (n : Node) (data : Z) :
  heap s !! node = Some n ->
  (keys n = [] ->
   BPlusTree._search_position_in_child node data s = (Raise UnboundLocalError, s))
  /\ (keys n <> [] -> length (values n) = S (length (keys n)) ->
      exists i child,
        BPlusTree._search_position_in_child node data s = (Ok (child, i), s)
        /\ values n !! i = Some child
        /\ (forall m k, keys n !! m = Some k -> (m < i)%nat -> k <= data)
        /\ (forall k, keys n !! i = Some k -> data < k)).
Proof.
  intros Hn. rewrite (search_position_run s node n data Hn). unfold position_result.
  split.
  - intros ->. reflexivity.
  - intros Hne Hlen.
    pose proof (position_scan_le data (keys n)) as Hle.
    destruct (lookup_lt_is_Some_2 (values n) (BPlusTree.position_scan data (keys n) 0))
      as [child Hchild]; [lia|].
    exists (BPlusTree.position_scan data (keys n) 0), child.
    rewrite py_index_nat, Hchild.
    split; [destruct (keys n); [contradiction | reflexivity]|].
    split; [reflexivity|].
    split; [intros m k; apply position_scan_before | intros k; apply position_scan_at].
Qed.

Lemma search_position_in_child_spec_witness :
  BPlusTree._search_position_in_child 0%nat 1 (snd (run_from_empty 3 [BulkLoad [3; 1; 2]]))
  = (Raise UnboundLocalError, snd (run_from_empty 3 [BulkLoad [3; 1; 2]]))
  /\ exists i child,
       BPlusTree._search_position_in_child 0%nat 6 tree_1_to_10
       = (Ok (child, i), tree_1_to_10)
       /\ [VNode 1%nat; VNode 3%nat; VNode 4%nat] !! i = Some child
       /\ (forall m k, [5; 7] !! m = Some k -> (m < i)%nat -> k <= 6)
       /\ (forall k, [5; 7] !! i = Some k -> 6 < k).
Proof.
  split.
  - exact (proj1 (search_position_in_child_spec
                    (snd (run_from_empty 3 [BulkLoad [3; 1; 2]])) 0%nat
                    (mkNode 3 false [] [VNode 1%nat] None None None) 1 eq_refl) eq_refl).
  - refine (proj2 (search_position_in_child_spec tree_1_to_10 0%nat
                     (mkNode 4 false [5; 7] [VNode 1%nat; VNode 3%nat; VNode 4%nat]
                        None None None) 6 eq_refl) _ eq_refl).
    discriminate.
Defined.

(** ** The descent *)

Lemma descend_step (fuel : nat) (r : ref) (nr : Node) (data : Z) (path : list nat)
    (s : state) :
  heap s !! r = Some nr ->
  BPlusTree.descend (S fuel) r data path s
  = if leaf nr then (Ok (r, path), s)
    else match position_result nr data with
         | Ok (VNode child, i) => BPlusTree.descend fuel child data (i :: path) s
         | Ok (_, _) => (Raise AttributeError, s)
         | Raise e => (Raise e, s)
         end.
Proof.
  intros Hr. cbn [BPlusTree.descend].
  erewrite bind_ok by (apply get_leaf_run; exact Hr).
  destruct (leaf nr); [reflexivity|].
  unfold bind at 1. rewrite (search_position_run s r nr data Hr).
  destruct (position_result nr data) as [[[child| |] i]|e]; reflexivity.
Qed.

Lemma descend_dangling (fuel : nat) (r : ref) (data : Z) (path : list nat) (s : state) :
  heap s !! r = None ->
  BPlusTree.descend (S fuel) r data path s = (Raise DanglingRef, s).
Proof.
  intros Hr. cbn [BPlusTree.descend]. unfold bind, get_leaf, bind, get_node.
  rewrite Hr. reflexivity.
Qed.

(** The descent ends in a leaf. *)
Lemma descend_leaf (fuel : nat) (r : ref) (data : Z) (path : list nat) (s : state)
    (c : ref) (p : list nat) :
  fst (BPlusTree.descend fuel r data path s) = Ok (c, p) ->
  exists n, heap s !! c = Some n /\ leaf n = true.
Proof.
  revert r path. induction fuel as [|fuel IH]; intros r path; [discriminate|].
  destruct (heap s !! r) as [nr|] eqn:Hr.
  - rewrite (descend_step fuel r nr data path s Hr).
    destruct (leaf nr) eqn:Hl.
    + intros [= <- <-]. eauto.
    + destruct (position_result nr data) as [[[child| |] i]|e]; try discriminate.
      apply IH.
  - rewrite (descend_dangling fuel r data path s Hr). discriminate.
Qed.

(** The descent reads the keys and values of internal nodes only: it is not
    affected by what a leaf holds. *)
Lemma descend_frame (fuel : nat) (r : ref) (data : Z) (path : list nat) (s : state)
    (c : ref) (n n' : Node) :
  heap s !! c = Some n -> leaf n = true -> leaf n' = true ->
  fst (BPlusTree.descend fuel r data path (with_heap s (<[c := n']> (heap s))))
  = fst (BPlusTree.descend fuel r data path s).
Proof.
  intros Hc Hl Hl'.
  assert (Hlc : (c < length (heap s))%nat) by (eapply lookup_lt_Some; eauto).
  revert r path. induction fuel as [|fuel IH]; intros r path; [reflexivity|].
  destruct (decide (r = c)) as [->|Hne].
  - erewrite (descend_step fuel c n' data path (with_heap s _))
      by (cbn [heap with_heap]; apply list_lookup_insert_eq; exact Hlc).
    rewrite (descend_step fuel c n data path s Hc), Hl, Hl'. reflexivity.
  - destruct (heap s !! r) as [nr|] eqn:Hr.
    + erewrite (descend_step fuel r nr data path (with_heap s _))
        by (cbn [heap with_heap]; rewrite list_lookup_insert_ne by congruence; exact Hr).
      rewrite (descend_step fuel r nr data path s Hr).
      destruct (leaf nr); [reflexivity|].
      destruct (position_result nr data) as [[[child| |] i]|e]; try reflexivity.
      apply IH.
    + erewrite (descend_dangling fuel r data path (with_heap s _))
        by (cbn [heap with_heap]; rewrite list_lookup_insert_ne by congruence; exact Hr).
      rewrite (descend_dangling fuel r data path s Hr). reflexivity.
Qed.

Lemma locate_run (s : state) (data : Z) (c : ref) (path : list nat) :
  fst (BPlusTree.locate data s) = Ok (c, path) ->
  BPlusTree.locate data s = (Ok (c, path), s).
Proof. apply unchanged_run, unchanged_locate. Qed.

Lemma locate_leaf (s : state) (data : Z) (c : ref) (path : list nat) :
  fst (BPlusTree.locate data s) = Ok (c, path) ->
  exists n, heap s !! c = Some n /\ leaf n = true.
Proof. unfold BPlusTree.locate, bind, get_state. apply descend_leaf. Qed.

Lemma locate_frame (data : Z) (s : state) (c : ref) (n n' : Node) :
  heap s !! c = Some n -> leaf n = true -> leaf n' = true ->
  fst (BPlusTree.locate data (with_heap s (<[c := n']> (heap s))))
  = fst (BPlusTree.locate data s).
Proof.
  intros Hc Hl Hl'. unfold BPlusTree.locate, bind, get_state.
  cbn [heap with_heap root]. rewrite length_insert.
  apply (descend_frame _ _ _ _ _ _ _ _ Hc Hl Hl').
Qed.

Lemma find_run (s : state) (data : Z) (c : ref) (path : list nat) (n : Node) :
  fst (BPlusTree.locate data s) = Ok (c, path) ->
  heap s !! c = Some n ->
  BPlusTree.find data s
  = (Ok tt, with_message s (if bool_decide (data ∈ keys n) then KeyFound data
                            else KeyNotFound data)).
Proof.
  intros Hloc Hc. unfold BPlusTree.find.
  erewrite bind_ok by (apply locate_run; exact Hloc). cbn [fst snd].
  erewrite bind_ok by (apply get_keys_run; exact Hc).
  destruct (list_index data (keys n)) as [i|] eqn:Hi.
  - rewrite bool_decide_true; [reflexivity|].
    eapply list_elem_of_lookup_2, list_index_lookup, Hi.
  - rewrite bool_decide_false; [reflexivity|]. apply list_index_None, Hi.
Qed.

(** ** Insertion into a leaf with room *)

Lemma insert_with_room_run (s : state) (data : Z) (c : ref) (path : list nat) (n : Node) :
  fst (BPlusTree.locate data s) = Ok (c, path) ->
  heap s !! c = Some n ->
  data ∉ keys n ->
  length (values n) = length (keys n) ->
  Z.of_nat (length (keys n)) < order n ->
  BPlusTree.insert data s = (Ok tt, with_added s c n data).
Proof.
  intros Hloc Hc Hn Hlen Hroom.
  assert (Hlc : (c < length (heap s))%nat) by (eapply lookup_lt_Some; eauto).
  unfold BPlusTree.insert.
  erewrite bind_ok by (apply locate_run; exact Hloc). cbn [fst snd].
  erewrite bind_ok by (apply add_absent_run; eassumption).
  erewrite bind_ok by reflexivity.
  cbn [BPlusTree.insert_repair]. run.
  unfold Node.is_overflow. cbn [order keys with_keys with_values].
  rewrite sorted_insert_length.
  destruct (Z.ltb_spec (order n) (Z.of_nat (S (length (keys n))))); [lia | reflexivity].
Qed.

Lemma with_message_inj (s : state) (m m' : message) :
  with_message s m = with_message s m' -> m = m'.
Proof.
  intros H. apply (f_equal stdout) in H. cbn in H.
  apply app_inv_head in H. congruence.
Qed.

(** What [find] prints after a leaf has been rewritten. *)
Lemma find_after_leaf_update (s : state) (c : ref) (n n' : Node) (k : Z) (m : message) :
  heap s !! c = Some n -> leaf n = true -> leaf n' = true ->
  (k ∈ keys n' <-> k ∈ keys n) ->
  BPlusTree.find k s = (Ok tt, with_message s m) ->
  BPlusTree.find k (with_heap s (<[c := n']> (heap s)))
  = (Ok tt, with_message (with_heap s (<[c := n']> (heap s))) m).
Proof.
  intros Hc Hl Hl' Hk Hfind.
  assert (Hlc : (c < length (heap s))%nat) by (eapply lookup_lt_Some; eauto).
  destruct (fst (BPlusTree.locate k s)) as [[ck pk]|e] eqn:Hloc.
  - destruct (locate_leaf s k ck pk Hloc) as (nk & Hck & Hlk).
    rewrite (find_run s k ck pk nk Hloc Hck) in Hfind.
    assert (Hloc' : fst (BPlusTree.locate k (with_heap s (<[c := n']> (heap s))))
                    = Ok (ck, pk)).
    { rewrite (locate_frame k s c n n' Hc Hl Hl'). exact Hloc. }
    destruct (decide (ck = c)) as [->|Hne].
    + erewrite find_run; [|exact Hloc' | cbn [heap with_heap]; apply list_lookup_insert_eq, Hlc].
      assert (nk = n) by congruence. subst nk.
      rewrite (bool_decide_ext _ _ Hk).
      assert (Hm : with_message s (if bool_decide (k ∈ keys n) then KeyFound k
                                   else KeyNotFound k) = with_message s m) by congruence.
      apply with_message_inj in Hm. rewrite <- Hm. reflexivity.
    + erewrite find_run;
        [|exact Hloc' | cbn [heap with_heap]; rewrite list_lookup_insert_ne by congruence;
                        exact Hck].
      assert (Hm : with_message s (if bool_decide (k ∈ keys nk) then KeyFound k
                                   else KeyNotFound k) = with_message s m) by congruence.
      apply with_message_inj in Hm. rewrite <- Hm. reflexivity.
  - exfalso. pose proof (unchanged_run _ s _ (unchanged_locate k) Hloc) as Hrun.
    unfold BPlusTree.find in Hfind. erewrite bind_raise in Hfind by exact Hrun.
    discriminate.
Qed.

(** X5.  Insertion without repair: when the descent for [data] ends in a
    leaf that does not hold [data] and has fewer than [order] keys, the
    method under the decorator only rewrites that leaf (as [Node.add] does)
    and returns, and the public [insert(data)] is the display of the tree
    so changed.  In that tree [find(data)] prints "Key found", and [find] of
    any other key prints what it prints in the former tree. *)
Theorem insert_into_leaf_with_room (s : state) (data : Z) (c : ref) (path : list nat)
    (n : Node) :
  fst (BPlusTree.locate data s) = Ok (c, path) ->
  heap s !! c = Some n ->
  data ∉ keys n ->
  length (values n) = length (keys n) ->
  Z.of_nat (length (keys n)) < order n ->
  BPlusTree.insert data s = (Ok tt, with_added s c n data)
  /\ BPlusTree._display_bplus_tree BPlusTree.insert data s
     = BPlusTree.display (with_added s c n data)
  /\ BPlusTree.find data (with_added s c n data)
     = (Ok tt, with_message (with_added s c n data) (KeyFound data))
  /\ forall k m, k <> data ->
       BPlusTree.find k s = (Ok tt, with_message s m) ->
       BPlusTree.find k (with_added s c n data)
       = (Ok tt, with_message (with_added s c n data) m).
Proof.
  intros Hloc Hc Hn Hlen Hroom.
  assert (Hlc : (c < length (heap s))%nat) by (eapply lookup_lt_Some; eauto).
  destruct (locate_leaf s data c path Hloc) as (n0 & Hc0 & Hl).
  assert (n0 = n) by congruence. subst n0.
  pose proof (insert_with_room_run s data c path n Hloc Hc Hn Hlen Hroom) as Hins.
  split; [exact Hins|].
  split.
  { unfold BPlusTree._display_bplus_tree. erewrite bind_ok by exact Hins. reflexivity. }
  split.
  - rewrite (find_run (with_added s c n data) data c path
               (with_values (with_keys n (sorted_insert data (keys n)))
                  (splice (BPlusTree.position_scan data (keys n) 0) (VList [data])
                     (values n)))).
    + rewrite bool_decide_true; [reflexivity|].
      cbn [keys with_keys with_values]. apply sorted_insert_elem. left. reflexivity.
    + unfold with_added. rewrite (locate_frame data s c n _ Hc Hl); [exact Hloc | exact Hl].
    + unfold with_added. cbn [heap with_heap]. apply list_lookup_insert_eq, Hlc.
  - intros k m Hk Hfind. unfold with_added.
    apply (find_after_leaf_update s c n _ k m Hc Hl); [exact Hl | | exact Hfind].
    cbn [keys with_keys with_values]. rewrite sorted_insert_elem. tauto.
Qed.

Lemma insert_into_leaf_with_room_witness :
  BPlusTree.insert 15 tree_tens
  = (Ok tt,
     with_added tree_tens 1%nat
       (mkNode 4 true [10; 20] [VList [10]; VList [20]] (Some 0%nat) None (Some 2%nat)) 15)
  /\ BPlusTree._display_bplus_tree BPlusTree.insert 15 tree_tens
     = BPlusTree.display
         (with_added tree_tens 1%nat
            (mkNode 4 true [10; 20] [VList [10]; VList [20]] (Some 0%nat) None
               (Some 2%nat)) 15).
Proof.
  refine ((fun H => conj (proj1 H) (proj1 (proj2 H)))
            (insert_into_leaf_with_room tree_tens 15 1%nat [0%nat]
               (mkNode 4 true [10; 20] [VList [10]; VList [20]]
                  (Some 0%nat) None (Some 2%nat)) eq_refl eq_refl _ eq_refl _)).
  - apply list_index_None. reflexivity.
  - simpl. lia.
Defined.

(** ** Deleting a key that is not the first of its leaf *)

Lemma replace_first_same (k : Z) (ks : list Z) : BPlusTree.replace_first k k ks = ks.
Proof.
  unfold BPlusTree.replace_first. destruct (list_index k ks) as [i|] eqn:Hi; [|reflexivity].
  apply list_insert_id, list_index_lookup, Hi.
Qed.

Lemma with_keys_same (n : Node) : with_keys n (keys n) = n.
Proof. destruct n; reflexivity. Qed.

(** Replacing a key by itself along the parent chain changes nothing. *)
Lemma update_parents_loop_same (fuel : nat) (node : option ref) (k : Z) (s : state) :
  parent_chain_ends fuel (heap s) node = true ->
  BPlusTree.update_parents_loop fuel node k k s = (Ok tt, s).
Proof.
  revert node. induction fuel as [|fuel IH]; intros [r|] Hend; try reflexivity;
    try discriminate.
  cbn [parent_chain_ends] in Hend. unfold ref in *. destruct (heap s !! r) as [nr|] eqn:Hr; [|discriminate].
  assert (Hlr : (r < length (heap s))%nat) by (eapply lookup_lt_Some; eauto).
  cbn [BPlusTree.update_parents_loop]. do 2 run.
  rewrite replace_first_same, with_keys_same, list_insert_id by exact Hr.
  rewrite with_heap_same. run. apply IH, Hend.
Qed.

Lemma parent_chain_ends_insert (fuel : nat) (h : list Node) (node : option ref)
    (c : ref) (n n' : Node) :
  h !! c = Some n -> parent n' = parent n ->
  parent_chain_ends fuel (<[c := n']> h) node = parent_chain_ends fuel h node.
Proof.
  intros Hc Hp.
  revert node. induction fuel as [|fuel IH]; intros [r|]; try reflexivity.
  cbn [parent_chain_ends]. unfold ref in *. destruct (decide (r = c)) as [->|Hne].
  - rewrite list_lookup_insert_eq by (eapply lookup_lt_Some; eauto).
    rewrite Hc, Hp. apply IH.
  - rewrite list_lookup_insert_ne by congruence.
    destruct (h !! r) eqn:Hr; [apply IH | reflexivity].
Qed.

Lemma locate_root (s : state) (data : Z) (c : ref) (path : list nat) :
  fst (BPlusTree.locate data s) = Ok (c, path) ->
  exists rn, heap s !! root s = Some rn.
Proof.
  unfold BPlusTree.locate, bind, get_state. intros H.
  destruct (heap s !! root s) as [rn|] eqn:Hr; [eauto|].
  rewrite (descend_dangling _ _ _ _ _ Hr) in H. discriminate.
Qed.

(** [delete(data)] when nothing has to be repaired: the leaf is a root
    without parent, or [data] is not its first key and it stays at least half
    full. *)
Lemma delete_leaf_run (s : state) (data : Z) (c : ref) (path : list nat) (n : Node)
    (i : nat) :
  fst (BPlusTree.locate data s) = Ok (c, path) ->
  heap s !! c = Some n ->
  list_index data (keys n) = Some i ->
  length (values n) = length (keys n) ->
  (parent n = None
   \/ (i <> 0%nat
       /\ parent_chain_ends (S (length (heap s))) (heap s) (parent n) = true
       /\ ceil_half (order n) <= Z.of_nat (length (keys n)) - 1)) ->
  (forall rn, heap s !! root s = Some rn -> leaf rn = true \/ (1 < length (values rn))%nat) ->
  BPlusTree.delete data s = (Ok tt, with_removed s c n i).
Proof.
  intros Hloc Hc Hi Hlen Hcase Hroot.
  assert (Hlc : (c < length (heap s))%nat) by (eapply lookup_lt_Some; eauto).
  destruct (locate_leaf s data c path Hloc) as (n0 & Hc0 & Hl).
  assert (n0 = n) by congruence. subst n0.
  destruct (locate_root s data c path Hloc) as [rn Hrn].
  assert (Hhd : exists k0, head (keys n) = Some k0).
  { destruct (keys n); [discriminate | simpl; eauto]. }
  destruct Hhd as [k0 Hk0].
  assert (Hil : (i < length (keys n))%nat).
  { eapply lookup_lt_Some, list_index_lookup, Hi. }
  unfold BPlusTree.delete.
  erewrite bind_ok by (apply locate_run; exact Hloc). cbn [fst snd].
  erewrite bind_ok.
  2:{ unfold try_except. erewrite bind_ok by (eapply remove_present_run; eassumption).
      reflexivity. }
  cbv beta iota.
  erewrite bind_ok.
  2:{ unfold BPlusTree._update_parents. erewrite bind_ok by reflexivity.
      destruct Hcase as [Hp|(Hi0 & Hend & _)].
      - rewrite Hp. reflexivity.
      - assert (Hhd' : head (delete i (keys n)) = Some k0).
        { destruct i; [contradiction|]. destruct (keys n); [discriminate | exact Hk0]. }
        rewrite Hhd'. cbn [default].
        apply update_parents_loop_same. cbn [heap with_heap].
        rewrite length_insert. erewrite parent_chain_ends_insert; eauto. }
  erewrite bind_ok by reflexivity.
  erewrite bind_ok.
  2:{ cbn [BPlusTree.delete_repair]. run.
      destruct (parent n) as [p|] eqn:Hp; [|reflexivity].
      destruct Hcase as [|(_ & _ & Hfull)]; [discriminate|].
      unfold Node.is_underflow. cbn [keys order with_keys with_values].
      rewrite length_delete by (apply lookup_lt_is_Some_2; exact Hil).
      destruct (Z.ltb_spec (Z.of_nat (length (keys n) - 1)) (ceil_half (order n)));
        [lia | reflexivity]. }
  erewrite bind_ok by reflexivity. cbn [root with_heap].
  destruct (decide (root s = c)) as [Hrc|Hrc].
  - rewrite Hrc. run. rewrite Hl. reflexivity.
  - erewrite bind_ok
      by (apply get_node_run; cbn [heap with_heap];
          rewrite list_lookup_insert_ne by congruence; exact Hrn).
    destruct (Hroot rn Hrn) as [Hlr|Hvr].
    + rewrite Hlr. reflexivity.
    + destruct (Nat.leb_spec (length (values rn)) 1); [lia|].
      rewrite andb_false_r. reflexivity.
Qed.

(** X6.  Deletion without repair: when the descent for [data] ends in a
    sorted leaf that holds [data] at index [i], and either the leaf has no
    parent (it is the root), or [data] is not its first key, its parent
    chain ends and it keeps at least [ceil(order/2)] keys, and the root is
    not an internal node with a single child, then [delete(data)] only
    removes the entry [i] of that leaf.  Afterwards [find(data)] prints
    "Key not found", and [find] of any other key prints what it printed
    before. *)
Theorem delete_from_leaf (s : state) (data : Z) (c : ref) (path : list nat) (n : Node)
    (i : nat) :
  fst (BPlusTree.locate data s) = Ok (c, path) ->
  heap s !! c = Some n ->
  list_index data (keys n) = Some i ->
  length (values n) = length (keys n) ->
  strictly_increasing (keys n) = true ->
  (parent n = None
   \/ (i <> 0%nat
       /\ parent_chain_ends (S (length (heap s))) (heap s) (parent n) = true
       /\ ceil_half (order n) <= Z.of_nat (length (keys n)) - 1)) ->
  (forall rn, heap s !! root s = Some rn -> leaf rn = true \/ (1 < length (values rn))%nat) ->
  BPlusTree.delete data s = (Ok tt, with_removed s c n i)
  /\ BPlusTree.find data (with_removed s c n i)
     = (Ok tt, with_message (with_removed s c n i) (KeyNotFound data))
  /\ forall k m, k <> data ->
       BPlusTree.find k s = (Ok tt, with_message s m) ->
       BPlusTree.find k (with_removed s c n i)
       = (Ok tt, with_message (with_removed s c n i) m).
Proof.
  intros Hloc Hc Hi Hlen Hs Hcase Hroot.
  assert (Hlc : (c < length (heap s))%nat) by (eapply lookup_lt_Some; eauto).
  destruct (locate_leaf s data c path Hloc) as (n0 & Hc0 & Hl).
  assert (n0 = n) by congruence. subst n0.
  destruct (strictly_increasing_delete _ _ _ Hs (list_index_lookup _ _ _ Hi)) as [_ Hel].
  split; [apply (delete_leaf_run s data c path n i); assumption|].
  split.
  - rewrite (find_run (with_removed s c n i) data c path
               (with_values (with_keys n (delete i (keys n))) (delete i (values n)))).
    + rewrite bool_decide_false; [reflexivity|].
      cbn [keys with_keys with_values]. rewrite Hel. tauto.
    + unfold with_removed. rewrite (locate_frame data s c n _ Hc Hl); [exact Hloc | exact Hl].
    + unfold with_removed. cbn [heap with_heap]. apply list_lookup_insert_eq, Hlc.
  - intros k m Hk Hfind. unfold with_removed.
    apply (find_after_leaf_update s c n _ k m Hc Hl); [exact Hl | | exact Hfind].
    cbn [keys with_keys with_values]. rewrite Hel. tauto.
Qed.

Lemma delete_from_leaf_witness :
  BPlusTree.delete 40 tree_tens
  = (Ok tt,
     with_removed tree_tens 2%nat
       (mkNode 4 true [30; 40; 50; 60] [VList [30]; VList [40]; VList [50]; VList [60]]
          (Some 0%nat) (Some 1%nat) None) 1%nat).
Proof.
  refine (proj1 (delete_from_leaf tree_tens 40 2%nat [1%nat]
                   (mkNode 4 true [30; 40; 50; 60]
                      [VList [30]; VList [40]; VList [50]; VList [60]]
                      (Some 0%nat) (Some 1%nat) None) 1%nat
                   eq_refl eq_refl eq_refl eq_refl eq_refl _ _)).
  - right. split; [lia|]. split; [reflexivity|]. vm_compute. discriminate.
  - intros rn Hrn. injection Hrn as <-. right. simpl. lia.
Defined.

(** The descent reads the store only. *)
Lemma descend_same_heap (fuel : nat) (r : ref) (data : Z) (path : list nat) (s s' : state) :
  heap s' = heap s ->
  fst (BPlusTree.descend fuel r data path s') = fst (BPlusTree.descend fuel r data path s).
Proof.
  intros Hh. revert r path. induction fuel as [|fuel IH]; intros r path; [reflexivity|].
  destruct (heap s !! r) as [nr|] eqn:Hr.
  - rewrite (descend_step fuel r nr data path s Hr).
    rewrite (descend_step fuel r nr data path s') by (rewrite Hh; exact Hr).
    destruct (leaf nr); [reflexivity|].
    destruct (position_result nr data) as [[[child| |] i]|e]; try reflexivity.
    apply IH.
  - rewrite (descend_dangling fuel r data path s Hr).
    rewrite (descend_dangling fuel r data path s') by (rewrite Hh; exact Hr).
    reflexivity.
Qed.

Lemma locate_same_tree (data : Z) (s s' : state) :
  same_tree s s' -> fst (BPlusTree.locate data s') = fst (BPlusTree.locate data s).
Proof.
  intros (Hh & Hr & _). unfold BPlusTree.locate, bind, get_state.
  rewrite Hh, Hr. apply descend_same_heap, Hh.
Qed.

(** Deleting [data] right after it has been inserted into the leaf [c],
    whatever has been printed in between. *)
Lemma delete_after_insert_run (s : state) (data : Z) (c : ref) (path : list nat)
    (n : Node) (out : list message) :
  fst (BPlusTree.locate data s) = Ok (c, path) ->
  heap s !! c = Some n ->
  data ∉ keys n ->
  length (values n) = length (keys n) ->
  Z.of_nat (length (keys n)) < order n ->
  (parent n = None
   \/ ((exists k0, head (keys n) = Some k0 /\ k0 < data)
       /\ parent_chain_ends (S (length (heap s))) (heap s) (parent n) = true
       /\ ceil_half (order n) <= Z.of_nat (length (keys n)))) ->
  (forall rn, heap s !! root s = Some rn -> leaf rn = true \/ (1 < length (values rn))%nat) ->
  BPlusTree.delete data
    (mkState (heap (with_added s c n data)) (tree_order s) (root s) out)
  = (Ok tt, mkState (heap s) (tree_order s) (root s) out).
Proof.
  intros Hloc Hc Hn Hlen Hroom Hcase Hroot.
  assert (Hlc : (c < length (heap s))%nat) by (eapply lookup_lt_Some; eauto).
  destruct (locate_leaf s data c path Hloc) as (n0 & Hc0 & Hl).
  assert (n0 = n) by congruence. subst n0.
  pose proof (position_scan_le data (keys n)) as Hle.
  set (s1 := mkState (heap (with_added s c n data)) (tree_order s) (root s) out).
  erewrite (delete_leaf_run s1 data c path
              (with_values (with_keys n (sorted_insert data (keys n)))
                 (splice (BPlusTree.position_scan data (keys n) 0) (VList [data])
                    (values n)))
              (BPlusTree.position_scan data (keys n) 0)).
  - unfold with_removed, s1, with_added, with_heap.
    cbn [heap tree_order root stdout keys values with_keys with_values].
    rewrite list_insert_insert_eq.
    rewrite <- splice_position, !delete_splice by lia.
    unfold with_values, with_keys. cbn [order leaf keys values parent prev next].
    replace (mkNode (order n) (leaf n) (keys n) (values n) (parent n) (prev n) (next n))
      with n by (destruct n; reflexivity).
    rewrite list_insert_id by exact Hc. reflexivity.
  - rewrite (locate_same_tree data (with_added s c n data) s1) by (repeat split).
    unfold with_added. rewrite (locate_frame data s c n _ Hc Hl); [exact Hloc | exact Hl].
  - unfold s1, with_added. cbn [heap with_heap]. apply list_lookup_insert_eq, Hlc.
  - cbn [keys with_keys with_values]. apply list_index_sorted_insert, Hn.
  - cbn [keys values with_keys with_values].
    rewrite splice_length, sorted_insert_length. congruence.
  - cbn [parent keys order with_keys with_values].
    destruct Hcase as [Hp|((k0 & Hk0 & Hlt) & Hend & Hfull)]; [left; exact Hp | right].
    split; [|split].
    + destruct (keys n) as [|k ks]; [discriminate|]. injection Hk0 as Hk. subst k.
      simpl. destruct (Z.ltb_spec data k0); [lia|].
      rewrite position_scan_shift. lia.
    + unfold s1, with_added. cbn [heap with_heap]. rewrite length_insert.
      erewrite parent_chain_ends_insert; eauto.
    + rewrite sorted_insert_length. lia.
  - unfold s1, with_added. cbn [heap with_heap root]. intros rn Hrn.
    destruct (decide (root s = c)) as [Hrc|Hrc].
    + rewrite Hrc, list_lookup_insert_eq in Hrn by exact Hlc.
      injection Hrn as <-. left. exact Hl.
    + rewrite list_lookup_insert_ne in Hrn by congruence. apply Hroot, Hrn.
Qed.

(** X7.  Round trip in the tree: under the conditions of X5 for the
    insertion and of X6 for the deletion (the leaf is the root, or [data] is
    greater than its first key and the leaf is at least half full), the
    methods under the decorator, insertion then deletion of [data], return
    normally and leave the state exactly as it was.  For the public
    methods: if [insert(data)] returns (its display of the tree succeeds),
    then after [delete(data)] the objects, the root and the order are
    exactly as before the insertion. *)
Theorem insert_delete_round_trip (s : state) (data : Z) (c : ref) (path : list nat)
    (n : Node) :
  fst (BPlusTree.locate data s) = Ok (c, path) ->
  heap s !! c = Some n ->
  data ∉ keys n ->
  length (values n) = length (keys n) ->
  Z.of_nat (length (keys n)) < order n ->
  (parent n = None
   \/ ((exists k0, head (keys n) = Some k0 /\ k0 < data)
       /\ parent_chain_ends (S (length (heap s))) (heap s) (parent n) = true
       /\ ceil_half (order n) <= Z.of_nat (length (keys n)))) ->
  (forall rn, heap s !! root s = Some rn -> leaf rn = true \/ (1 < length (values rn))%nat) ->
  (BPlusTree.insert data ;;; BPlusTree.delete data) s = (Ok tt, s)
  /\ (fst (BPlusTree._display_bplus_tree BPlusTree.insert data s) = Ok tt ->
      same_tree s
        (snd ((BPlusTree._display_bplus_tree BPlusTree.insert data ;;;
               BPlusTree._display_bplus_tree BPlusTree.delete data) s))).
Proof.
  intros Hloc Hc Hn Hlen Hroom Hcase Hroot.
  pose proof (insert_with_room_run s data c path n Hloc Hc Hn Hlen Hroom) as Hins.
  pose proof (fun out => delete_after_insert_run s data c path n out
                           Hloc Hc Hn Hlen Hroom Hcase Hroot) as Hdel.
  split.
  - erewrite bind_ok by exact Hins.
    specialize (Hdel (stdout s)). unfold with_added, with_heap in *.
    cbn [heap] in *. rewrite Hdel. destruct s; reflexivity.
  - intros Hret.
    assert (Hd : BPlusTree._display_bplus_tree BPlusTree.insert data s
                 = BPlusTree.display (with_added s c n data)).
    { unfold BPlusTree._display_bplus_tree. erewrite bind_ok by exact Hins. reflexivity. }
    rewrite Hd in Hret.
    pose proof (same_tree_display (with_added s c n data)) as (Hh & Hr & Ho).
    destruct (BPlusTree.display (with_added s c n data)) as [[[]|e] s1] eqn:Hdisp;
      [|discriminate].
    erewrite bind_ok by exact Hd.
    cbn [snd] in Hh, Hr, Ho.
    destruct s1 as [h1 o1 r1 out1].
    unfold with_added, with_heap in Hr, Ho.
    cbn [heap root tree_order] in Hh, Hr, Ho. subst h1 o1 r1.
    unfold BPlusTree._display_bplus_tree.
    erewrite bind_ok by (apply Hdel).
    etransitivity; [|apply same_tree_display]. repeat split.
Qed.

Lemma insert_delete_round_trip_witness :
  (BPlusTree.insert 15 ;;; BPlusTree.delete 15) tree_tens = (Ok tt, tree_tens)
  /\ same_tree tree_tens
       (snd ((BPlusTree._display_bplus_tree BPlusTree.insert 15 ;;;
              BPlusTree._display_bplus_tree BPlusTree.delete 15) tree_tens)).
Proof.
  refine ((fun H => conj (proj1 H) (proj2 H eq_refl))
            (insert_delete_round_trip tree_tens 15 1%nat [0%nat]
               (mkNode 4 true [10; 20] [VList [10]; VList [20]] (Some 0%nat) None
                  (Some 2%nat))
               eq_refl eq_refl _ eq_refl _ _ _)).
  - apply list_index_None. reflexivity.
  - simpl. lia.
  - right. split; [exists 10; split; [reflexivity | lia]|].
    split; [reflexivity|]. vm_compute. discriminate.
  - intros rn Hrn. injection Hrn as <-. right. simpl. lia.
Defined.

(** ** The first split *)

Section RunsMore.

Context (s : state) (r : ref) (n : Node) (Hr : heap s !! r = Some n).

Lemma set_leaf_run (b : bool) :
  set_leaf r b s = (Ok tt, with_heap s (<[r := with_leaf n b]> (heap s))).
Proof. exact (update_node_run s r n Hr _). Qed.
Lemma set_prev_run (p : option ref) :
  set_prev r p s = (Ok tt, with_heap s (<[r := with_prev n p]> (heap s))).
Proof. exact (update_node_run s r n Hr _). Qed.
Lemma set_next_run (p : option ref) :
  set_next r p s = (Ok tt, with_heap s (<[r := with_next n p]> (heap s))).
Proof. exact (update_node_run s r n Hr _). Qed.

End RunsMore.

Lemma new_node_run (o : Z) (l : bool) (ks : list Z) (vs : list value) (p : option ref)
    (s : state) :
  new_node o l ks vs p s
  = (Ok (length (heap s)), with_heap s (heap s ++ [mkNode o l ks vs p None None])).
Proof. reflexivity. Qed.

(** A store that ends in two new objects. *)
Section Pair.

Context (H : list Node) (A B : Node).

Lemma lookup_pair_old (c : ref) : (c < length H)%nat -> (H ++ [A; B]) !! c = H !! c.
Proof. intros Hc. apply lookup_app_l, Hc. Qed.
Lemma lookup_pair_left (l : ref) : l = length H -> (H ++ [A; B]) !! l = Some A.
Proof. intros ->. rewrite lookup_app_r, Nat.sub_diag by lia. reflexivity. Qed.
Lemma lookup_pair_right (l : ref) : l = S (length H) -> (H ++ [A; B]) !! l = Some B.
Proof.
  intros ->. rewrite lookup_app_r by lia.
  replace (S (length H) - length H)%nat with 1%nat by lia. reflexivity.
Qed.
Lemma insert_pair_old (c : ref) (x : Node) :
  (c < length H)%nat -> <[c := x]> (H ++ [A; B]) = <[c := x]> H ++ [A; B].
Proof. intros Hc. apply insert_app_l, Hc. Qed.
Lemma insert_pair_left (l : ref) (x : Node) :
  l = length H -> <[l := x]> (H ++ [A; B]) = H ++ [x; B].
Proof.
  intros ->. replace (length H) with (length H + 0)%nat at 1 by lia.
  rewrite insert_app_r. reflexivity.
Qed.
Lemma insert_pair_right (l : ref) (x : Node) :
  l = S (length H) -> <[l := x]> (H ++ [A; B]) = H ++ [A; x].
Proof.
  intros ->. replace (S (length H)) with (length H + 1)%nat at 1 by lia.
  rewrite insert_app_r. reflexivity.
Qed.

End Pair.

Ltac len_tac := rewrite ?length_insert; first [assumption | reflexivity | lia].

Ltac look :=
  cbn [heap with_heap];
  first
    [ apply lookup_pair_left; len_tac
    | apply lookup_pair_right; len_tac
    | rewrite lookup_pair_old by len_tac;
      first [ rewrite list_lookup_insert_eq by len_tac; reflexivity | eassumption ] ].

Ltac norm :=
  cbn [keys values prev next parent leaf order with_keys with_values with_parent
       with_leaf with_prev with_next heap with_heap tree_order root stdout];
  rewrite ?with_heap_twice;
  repeat first
    [ rewrite insert_pair_old by len_tac
    | rewrite insert_pair_left by len_tac
    | rewrite insert_pair_right by len_tac ];
  rewrite ?list_insert_insert_eq.

Ltac step lem := erewrite bind_ok by (apply lem; look); norm.

Lemma split_root_leaf_run (s : state) (c : ref) (n : Node) (k : Z) :
  heap s !! c = Some n ->
  leaf n = true -> prev n = None -> next n = None ->
  head (slice_from (keys n) (ceil_half (order n))) = Some k ->
  Node.split c s = (Ok tt, with_heap s (split_leaf_store (heap s) c n)).
Proof.
  intros Hc Hl Hp Hn Hk.
  assert (Hlc : (c < length (heap s))%nat) by (eapply lookup_lt_Some; eauto).
  unfold Node.split. run. rewrite Hl.
  rewrite bind_ok with (1 := new_node_run _ _ _ _ _ _).
  rewrite bind_ok with (1 := new_node_run _ _ _ _ _ _).
  cbn [heap with_heap]. rewrite with_heap_twice, length_app, <- app_assoc.
  cbn [length app]. rewrite Nat.add_1_r.
  step get_leaf_run. rewrite Hl. erewrite bind_ok by reflexivity.
  step get_leaf_run. step get_keys_run.
  erewrite bind_ok by (apply (index_nat_run _ 0); rewrite <- head_lookup; exact Hk).
  rewrite Hl. erewrite bind_ok by reflexivity.
  step set_keys_run. step set_values_run. step set_leaf_run.
  unfold Node._update_doubly_linked_list.
  step get_prev_run. step set_prev_run. step get_next_run. step set_next_run.
  step get_prev_run. rewrite Hp. erewrite bind_ok by reflexivity.
  step get_next_run. rewrite Hn. erewrite bind_ok by reflexivity.
  step set_next_run.
  erewrite set_prev_run by look. norm.
  unfold split_leaf_store, with_leaf, with_values, with_keys, with_prev, with_next.
  cbn [keys values prev next parent leaf order]. rewrite ?Hp, ?Hn.
  destruct (slice_from (keys n) (ceil_half (order n))); [discriminate|].
  injection Hk as ->. reflexivity.
Qed.

Lemma try_except_rotate_error {A} (m h : M A) (s s' : state) :
  m s = (Raise RotateError, s') -> try_except m RotateError h s = h s'.
Proof. intros Hm. unfold try_except. rewrite Hm. reflexivity. Qed.

(** Without siblings there is nothing to rotate into. *)
Lemma rotate_no_sibling_run (s : state) (c : ref) (n : Node) :
  heap s !! c = Some n -> prev n = None -> next n = None ->
  BPlusTree._rotate c s = (Raise RotateError, s).
Proof.
  intros Hc Hp Hn. unfold BPlusTree._rotate.
  erewrite bind_ok by reflexivity.
  erewrite bind_ok by (apply get_prev_run; exact Hc). rewrite Hp.
  erewrite bind_ok by reflexivity. cbv iota.
  erewrite bind_ok by (apply get_next_run; exact Hc). rewrite Hn.
  erewrite bind_ok by reflexivity. reflexivity.
Qed.

Lemma split_leaf_store_insert (h : list Node) (c : ref) (n0 n : Node) :
  split_leaf_store (<[c := n0]> h) c n = split_leaf_store h c n.
Proof. unfold split_leaf_store. rewrite list_insert_insert_eq, length_insert. reflexivity. Qed.

Lemma slice_from_head (ks : list Z) (mid : Z) :
  0 <= mid < Z.of_nat (length ks) -> exists k, head (slice_from ks mid) = Some k.
Proof.
  intros Hm. unfold slice_from, slice_bound.
  destruct (Z.ltb_spec mid 0); [lia|].
  destruct (drop (Z.to_nat mid) ks) eqn:Hd; [|simpl; eauto].
  apply (f_equal length) in Hd. rewrite length_drop in Hd. simpl in Hd. lia.
Qed.

Lemma ceil_half_bounds (o : Z) : 1 <= o -> 1 <= ceil_half o <= o.
Proof.
  intros Ho. unfold ceil_half. split.
  - apply Z.div_le_lower_bound; lia.
  - apply Z.div_le_upper_bound; lia.
Qed.

Lemma insert_repair_none (fuel : nat) (path : list nat) :
  BPlusTree.insert_repair fuel None path = ret tt.
Proof. destruct fuel; reflexivity. Qed.

Lemma insert_full_root_leaf_run (s : state) (n : Node) (data : Z) :
  heap s !! root s = Some n ->
  leaf n = true -> parent n = None -> prev n = None -> next n = None ->
  data ∉ keys n ->
  length (values n) = length (keys n) ->
  1 <= order n <= Z.of_nat (length (keys n)) ->
  BPlusTree.insert data s
  = (Ok tt,
     with_heap s
       (split_leaf_store (heap s) (root s)
          (with_values (with_keys n (sorted_insert data (keys n)))
             (splice (BPlusTree.position_scan data (keys n) 0) (VList [data])
                (values n))))).
Proof.
  intros Hc Hl Hpar Hp Hn Hnew Hlen Hfull.
  assert (Hlc : (root s < length (heap s))%nat) by (eapply lookup_lt_Some; eauto).
  pose proof (ceil_half_bounds (order n) ltac:(lia)) as Hmid.
  destruct (slice_from_head (sorted_insert data (keys n)) (ceil_half (order n))) as [k Hk].
  { rewrite sorted_insert_length. lia. }
  unfold BPlusTree.insert.
  erewrite bind_ok by (eapply locate_leaf_root; eassumption). cbn [fst snd].
  erewrite bind_ok by (apply add_absent_run; eassumption).
  erewrite bind_ok by reflexivity.
  cbn [BPlusTree.insert_repair]. run.
  unfold Node.is_overflow at 1. cbn [order keys with_keys with_values].
  rewrite sorted_insert_length.
  destruct (Z.ltb_spec (order n) (Z.of_nat (S (length (keys n))))); [|lia].
  cbn [negb]. cbv iota.
  erewrite bind_ok.
  2:{ erewrite try_except_rotate_error.
      2:{ erewrite bind_raise; [reflexivity|].
          eapply rotate_no_sibling_run;
            [cbn [heap with_heap]; apply list_lookup_insert_eq, Hlc | exact Hp | exact Hn]. }
      erewrite bind_ok.
      2:{ eapply split_root_leaf_run;
            [cbn [heap with_heap]; apply list_lookup_insert_eq, Hlc
            | exact Hl | exact Hp | exact Hn | exact Hk]. }
      cbn [heap with_heap]. rewrite with_heap_twice, split_leaf_store_insert.
      erewrite bind_ok.
      2:{ apply get_parent_run. unfold split_leaf_store. cbn [heap with_heap].
          rewrite lookup_pair_old by len_tac.
          apply list_lookup_insert_eq, Hlc. }
      cbn [parent with_keys with_values]. rewrite Hpar. reflexivity. }
  cbv iota beta.
  erewrite bind_ok.
  2:{ apply get_parent_run. unfold split_leaf_store. cbn [heap with_heap].
      rewrite lookup_pair_old by len_tac.
      apply list_lookup_insert_eq, Hlc. }
  cbn [parent with_keys with_values]. rewrite Hpar. rewrite insert_repair_none. reflexivity.
Qed.

Lemma strictly_increasing_app (l1 l2 : list Z) (k : Z) :
  strictly_increasing (l1 ++ k :: l2) = true ->
  (forall y, y ∈ l1 -> y < k) /\ (forall y, y ∈ l2 -> k < y).
Proof.
  induction l1 as [|x l1 IH]; simpl; intros Hs.
  - split; [intros y Hy; inversion Hy | apply strictly_increasing_head, Hs].
  - change (strictly_increasing (x :: (l1 ++ k :: l2)) = true) in Hs.
    apply strictly_increasing_cons in Hs as [Hx Hs].
    destruct (IH Hs) as [H1 H2]. split; [|exact H2].
    intros y Hy. apply elem_of_cons in Hy as [->|Hy]; [|apply H1, Hy].
    apply Hx. apply elem_of_app. right. left.
Qed.

(** A sorted list cut at the key [k]: what is smaller than [k] is looked for
    in the first part, the rest in the second. *)
Lemma sorted_cut_elem (l : list Z) (m : nat) (k x : Z) :
  strictly_increasing l = true ->
  head (drop m l) = Some k ->
  x ∈ l <-> (if x <? k then x ∈ take m l else x ∈ drop m l).
Proof.
  intros Hs Hk.
  destruct (drop m l) as [|k' l2] eqn:Hd; [discriminate|]. injection Hk as ->.
  rewrite <- (take_drop m l) in Hs at 1. rewrite Hd in Hs.
  destruct (strictly_increasing_app _ _ _ Hs) as [H1 H2].
  rewrite <- (take_drop m l) at 1. rewrite Hd, elem_of_app.
  destruct (Z.ltb_spec x k).
  - split; [intros [Hx|Hx]; [exact Hx|] | tauto].
    apply elem_of_cons in Hx as [->|Hx]; [lia | specialize (H2 x Hx); lia].
  - split; [intros [Hx|Hx]; [|exact Hx] | tauto].
    specialize (H1 x Hx). lia.
Qed.

Lemma slice_bound_nonneg (len : nat) (i : Z) : 0 <= i -> slice_bound len i = Z.to_nat i.
Proof. intros Hi. unfold slice_bound. destruct (Z.ltb_spec i 0); [lia | reflexivity]. Qed.

(** [find] on a root with one key over two leaves. *)
Lemma find_two_leaves (s : state) (rn ln rgt : Node) (l r : ref) (k x : Z) :
  heap s !! root s = Some rn ->
  leaf rn = false -> keys rn = [k] -> values rn = [VNode l; VNode r] ->
  heap s !! l = Some ln -> leaf ln = true ->
  heap s !! r = Some rgt -> leaf rgt = true ->
  BPlusTree.find x s
  = (Ok tt,
     with_message s
       (if bool_decide (x ∈ keys (if x <? k then ln else rgt))
        then KeyFound x else KeyNotFound x)).
Proof.
  intros Hroot Hlr Hkr Hvr Hln Hll Hrn Hlrg.
  assert (Hloc : BPlusTree.locate x s
                 = (Ok (if x <? k then l else r, [if x <? k then 0%nat else 1%nat]), s)).
  { unfold BPlusTree.locate. erewrite bind_ok by reflexivity.
    rewrite (descend_step _ _ _ _ _ _ Hroot), Hlr.
    unfold position_result. rewrite Hkr, Hvr. cbn [BPlusTree.position_scan].
    assert (Hfuel : exists f, length (heap s) = S f).
    { destruct (heap s); [discriminate | simpl; eauto]. }
    destruct Hfuel as [f ->].
    destruct (x <? k); rewrite py_index_nat; cbn [lookup list_lookup].
    - rewrite (descend_step _ _ _ _ _ _ Hln), Hll. reflexivity.
    - rewrite (descend_step _ _ _ _ _ _ Hrn), Hlrg. reflexivity. }
  destruct (x <? k).
  - apply (find_run s x l [0%nat] ln); [rewrite Hloc; reflexivity | exact Hln].
  - apply (find_run s x r [1%nat] rgt); [rewrite Hloc; reflexivity | exact Hrn].
Qed.

(** X8.  The first split: [insert] of a new key into a tree that is one
    full sorted leaf (order at least 1).  No rotation is possible, the leaf
    is split: the root object becomes an internal node with one key [k] over
    two new leaves (appended to the store), which share the [order + 1] keys
    in order, are linked to each other and have the root as parent; [k] is
    the first key of the right leaf.  Both leaves hold between
    [ceil(order/2)] and [order] keys, and [find] reports exactly the former
    keys and [data] as found. *)
Theorem insert_into_full_root_leaf (s : state) (n : Node) (data : Z) :
  heap s !! root s = Some n ->
  leaf n = true -> parent n = None -> prev n = None -> next n = None ->
  data ∉ keys n ->
  length (values n) = length (keys n) ->
  strictly_increasing (keys n) = true ->
  1 <= order n ->
  Z.of_nat (length (keys n)) = order n ->
  exists rn ln rgt k,
    BPlusTree.insert data s
    = (Ok tt, with_heap s (<[root s := rn]> (heap s) ++ [ln; rgt]))
    /\ (leaf rn, keys rn, values rn)
       = (false, [k], [VNode (length (heap s)); VNode (S (length (heap s)))])
    /\ (leaf ln, parent ln, prev ln, next ln)
       = (true, Some (root s), None, Some (S (length (heap s))))
    /\ (leaf rgt, parent rgt, prev rgt, next rgt)
       = (true, Some (root s), Some (length (heap s)), None)
    /\ keys ln ++ keys rgt = sorted_insert data (keys n)
    /\ head (keys rgt) = Some k
    /\ occupancy_ok (order n) ln = true
    /\ occupancy_ok (order n) rgt = true
    /\ forall x,
         BPlusTree.find x (with_heap s (<[root s := rn]> (heap s) ++ [ln; rgt]))
         = (Ok tt,
            with_message (with_heap s (<[root s := rn]> (heap s) ++ [ln; rgt]))
              (if bool_decide (x = data \/ x ∈ keys n) then KeyFound x
               else KeyNotFound x)).
Proof.
  intros Hc Hl Hpar Hp Hn Hnew Hlen Hs Ho Hfull.
  assert (Hlc : (root s < length (heap s))%nat) by (eapply lookup_lt_Some; eauto).
  pose proof (ceil_half_bounds (order n) Ho) as Hmid.
  pose proof (sorted_insert_length data (keys n)) as Hlen'.
  destruct (slice_from_head (sorted_insert data (keys n)) (ceil_half (order n))) as [k Hk].
  { rewrite Hlen'. lia. }
  pose proof (insert_full_root_leaf_run s n data Hc Hl Hpar Hp Hn Hnew Hlen ltac:(lia))
    as Hrun.
  unfold split_leaf_store in Hrun.
  cbn [order keys values parent prev next with_keys with_values] in Hrun.
  rewrite Hp, Hn in Hrun.
  unfold slice_to, slice_from in Hrun, Hk.
  rewrite !slice_bound_nonneg in Hrun, Hk by lia.
  set (m := Z.to_nat (ceil_half (order n))) in *.
  set (ks' := sorted_insert data (keys n)) in *.
  destruct (drop m ks') as [|k' rest] eqn:Hd; [discriminate|]. injection Hk as ->.
  eexists _, _, _, k. split; [exact Hrun|].
  cbn [leaf keys values parent prev next order take].
  do 3 (split; [reflexivity|]).
  split; [rewrite <- Hd; apply take_drop|].
  split; [reflexivity|].
  assert (Hlt : length (take m ks') = m) by (rewrite length_take; lia).
  assert (Hld : length (k :: rest) = (S (length (keys n)) - m)%nat).
  { rewrite <- Hd, length_drop, Hlen'. reflexivity. }
  split; [|split].
  - unfold occupancy_ok. cbn [keys]. rewrite Hlt.
    apply andb_true_iff. split; apply Z.leb_le; lia.
  - unfold occupancy_ok. cbn [keys]. rewrite Hld.
    apply andb_true_iff. unfold ceil_half in *.
    split; apply Z.leb_le.
    + subst m.
      pose proof (Z.div_mod (order n + 1) 2 ltac:(lia)).
      pose proof (Z.mod_pos_bound (order n + 1) 2 ltac:(lia)). lia.
    + lia.
  - intros x.
    erewrite (find_two_leaves _ _ _ _ (length (heap s)) (S (length (heap s))) k x).
    2:{ cbn [heap with_heap root]. rewrite lookup_pair_old by len_tac.
        apply list_lookup_insert_eq, Hlc. }
    2, 3, 4: reflexivity.
    2:{ cbn [heap with_heap]. apply lookup_pair_left. len_tac. }
    2: reflexivity.
    2:{ cbn [heap with_heap]. apply lookup_pair_right. len_tac. }
    2: reflexivity.
    erewrite bool_decide_ext; [reflexivity|].
    rewrite <- (sorted_insert_elem data x (keys n)). fold ks'.
    rewrite (sorted_cut_elem ks' m k x);
      [|apply sorted_insert_increasing; assumption | rewrite Hd; reflexivity].
    rewrite Hd. destruct (x <? k); reflexivity.
Qed.

Lemma insert_into_full_root_leaf_witness :
  exists rn ln rgt,
    BPlusTree.insert 5 (single_leaf 4 [1; 2; 3; 4])
    = (Ok tt,
       with_heap (single_leaf 4 [1; 2; 3; 4])
         (<[0%nat := rn]> (heap (single_leaf 4 [1; 2; 3; 4])) ++ [ln; rgt]))
    /\ keys ln ++ keys rgt = [1; 2; 3; 4; 5].
Proof.
  destruct (insert_into_full_root_leaf (single_leaf 4 [1; 2; 3; 4])
              (mkNode 4 true [1; 2; 3; 4] [VList [1]; VList [2]; VList [3]; VList [4]]
                 None None None) 5 eq_refl eq_refl eq_refl eq_refl eq_refl)
    as (rn & ln & rgt & k & Hrun & _ & _ & _ & Hks & _).
  - apply list_index_None. reflexivity.
  - reflexivity.
  - reflexivity.
  - simpl. lia.
  - reflexivity.
  - exists rn, ln, rgt. split; [exact Hrun | exact Hks].
Defined.

(** ** [initialize] *)











(** ** [_chunks] *)

Lemma chunks_nil (fuel n : nat) : BPlusTree.chunks fuel [] n = [].
Proof. destruct fuel; reflexivity. Qed.

Lemma chunks_cons (fuel n : nat) (x : Z) (lst : list Z) :
  BPlusTree.chunks (S fuel) (x :: lst) n
  = take n (x :: lst) :: BPlusTree.chunks fuel (drop n (x :: lst)) n.
Proof. reflexivity. Qed.

Lemma chunks_lookup (fuel : nat) (lst : list Z) (n i : nat) :
  (0 < n)%nat -> (length lst <= fuel)%nat ->
  BPlusTree.chunks fuel lst n !! i
  = if (i * n <? length lst)%nat then Some (take n (drop (i * n) lst)) else None.
Proof.
  intros Hn. revert lst i. induction fuel as [|fuel IH]; intros lst i Hlen.
  - destruct lst; [|simpl in Hlen; lia]. simpl.
    destruct (Nat.ltb_spec (i * n) 0); [lia | reflexivity].
  - destruct lst as [|x lst].
    + rewrite chunks_nil. simpl. destruct (Nat.ltb_spec (i * n) 0); [lia | reflexivity].
    + rewrite chunks_cons. destruct i as [|i].
      * reflexivity.
      * cbn [lookup list_lookup]. change (list_lookup i ?l) with (l !! i).
        rewrite IH by (rewrite length_drop; simpl in *; lia).
        rewrite length_drop, drop_drop.
        replace (n + i * n)%nat with (S i * n)%nat by lia.
        destruct (Nat.ltb_spec (i * n) (length (x :: lst) - n));
          destruct (Nat.ltb_spec (S i * n) (length (x :: lst))); try reflexivity; lia.
Qed.

Lemma chunks_concat (fuel : nat) (lst : list Z) (n : nat) :
  (0 < n)%nat -> (length lst <= fuel)%nat ->
  concat (BPlusTree.chunks fuel lst n) = lst.
Proof.
  intros Hn. revert lst. induction fuel as [|fuel IH]; intros lst Hlen.
  - destruct lst; [reflexivity | simpl in Hlen; lia].
  - destruct lst as [|x lst]; [reflexivity|].
    rewrite chunks_cons. cbn [concat].
    rewrite IH by (rewrite length_drop; simpl in *; lia).
    apply take_drop.
Qed.

(** X10.  [_chunks(lst, n)] for [n > 0] cuts the list into consecutive
    pieces: piece [i] is [lst[i*n : i*n + n]] for every [i] with
    [i*n < len(lst)], there is no other piece, and the pieces concatenated
    give [lst] back. *)
Theorem chunks_spec (lst : list Z) (n : nat) :
  (0 < n)%nat ->
  concat (BPlusTree.chunks (length lst) lst n) = lst
  /\ forall i,
       BPlusTree.chunks (length lst) lst n !! i
       = if (i * n <? length lst)%nat then Some (take n (drop (i * n) lst)) else None.
Proof.
  intros Hn. split.
  - apply chunks_concat; [exact Hn | reflexivity].
  - intros i. apply chunks_lookup; [exact Hn | reflexivity].
Qed.

Lemma chunks_spec_witness :
  concat (BPlusTree.chunks (length [1; 2; 3; 4; 5; 6; 7]) [1; 2; 3; 4; 5; 6; 7] 3)
  = [1; 2; 3; 4; 5; 6; 7].
Proof. refine (proj1 (chunks_spec [1; 2; 3; 4; 5; 6; 7] 3 _)). lia. Defined.

(** ** [bulk_load] while the root does not overflow *)

Lemma bulk_store_length (o : Z) (cs : list (list Z)) :
  length (bulk_store o cs) = S (length cs).
Proof. unfold bulk_store. cbn [length]. rewrite length_imap. reflexivity. Qed.

Lemma bulk_store_leaf (o : Z) (cs : list (list Z)) (j : nat) :
  bulk_store o cs !! S j = bulk_leaf o (length cs) j <$> cs !! j.
Proof. unfold bulk_store. cbn [lookup list_lookup]. apply list_lookup_imap. Qed.

Lemma separators_snoc (done : list (list Z)) (c : list Z) (b0 : Z) :
  done <> [] -> head c = Some b0 -> separators (done ++ [c]) = separators done ++ [b0].
Proof.
  intros Hd Hc. destruct done as [|c0 done]; [contradiction|].
  unfold separators. cbn [tail app]. rewrite omap_app. cbn. rewrite Hc. reflexivity.
Qed.

(** The store after one more bucket: the new leaf is appended, its left
    neighbour points to it, and the root gets one more key and child. *)
Lemma bulk_store_snoc (o : Z) (done : list (list Z)) (cl c : list Z) (b0 : Z) :
  head c = Some b0 ->
  let len := S (length done) in
  <[0%nat := mkNode o false (separators (done ++ [cl]) ++ [b0])
               ((VNode <$> seq 1 len) ++ [VNode (S len)]) None None None]>
    (<[S len := mkNode o true c (VInt <$> c) (Some 0%nat) (Some len) None]>
       (<[len := with_next (bulk_leaf o len (length done) cl) (Some (S len))]>
          (bulk_store o (done ++ [cl])
           ++ [mkNode o true c (VInt <$> c) (Some 0%nat) None None])))
  = bulk_store o ((done ++ [cl]) ++ [c]).
Proof.
  intros Hc len. apply list_eq. intros k.
  assert (Hlen : length (done ++ [cl]) = len) by (rewrite length_app; simpl; lia).
  assert (Hlen2 : length ((done ++ [cl]) ++ [c]) = S len) by (rewrite length_app; simpl; lia).
  destruct k as [|j].
  - rewrite list_lookup_insert_eq
      by (rewrite !length_insert, length_app, bulk_store_length; simpl; lia).
    unfold bulk_store. cbn [lookup list_lookup].
    rewrite (separators_snoc _ c b0) by (try exact Hc; destruct done; discriminate).
    rewrite Hlen2. rewrite seq_S, fmap_app. reflexivity.
  - rewrite list_lookup_insert_ne by lia.
    rewrite bulk_store_leaf, Hlen2.
    destruct (decide (j = len)) as [->|Hj1].
    + rewrite list_lookup_insert_eq
        by (rewrite !length_insert, length_app, bulk_store_length; simpl; lia).
      rewrite lookup_app_r by lia. rewrite Hlen, Nat.sub_diag. cbn [lookup list_lookup fmap option_fmap option_map].
      unfold bulk_leaf. rewrite Nat.eqb_refl.
      destruct (Nat.eqb_spec len 0); [lia | reflexivity].
    + rewrite list_lookup_insert_ne by lia.
      destruct (decide (S j = len)) as [Hj2|Hj2].
      * rewrite Hj2. rewrite list_lookup_insert_eq
          by (rewrite length_app, bulk_store_length; simpl; lia).
        assert (j = length done) by lia. subst j.
        rewrite lookup_app_l by lia. rewrite lookup_app_r by lia.
        rewrite Nat.sub_diag. cbn [lookup list_lookup fmap option_fmap option_map].
        unfold with_next, bulk_leaf. cbn [order leaf keys values parent prev next].
        destruct (Nat.eqb_spec (S (length done)) (S len)); [lia|]. reflexivity.
      * rewrite list_lookup_insert_ne by lia.
        destruct (decide (j < length done)%nat) as [Hlt|Hge].
        -- rewrite lookup_app_l by (rewrite bulk_store_length; lia).
           rewrite bulk_store_leaf, Hlen.
           rewrite !lookup_app_l by (rewrite ?length_app; simpl; lia).
           destruct (done !! j) as [cj|]; [|reflexivity].
           cbn [fmap option_fmap option_map]. unfold bulk_leaf.
           destruct (Nat.eqb_spec (S j) len); [lia|].
           destruct (Nat.eqb_spec (S j) (S len)); [lia|]. reflexivity.
        -- rewrite !lookup_ge_None_2; [reflexivity | |].
           ++ rewrite Hlen2. lia.
           ++ rewrite length_app, bulk_store_length. simpl. lia.
Qed.

Lemma separators_length (cs : list (list Z)) :
  (length (separators cs) <= length cs - 1)%nat.
Proof.
  unfold separators. rewrite <- length_tl.
  generalize (tail cs). intros l. induction l as [|c l IH]; [reflexivity|].
  cbn [omap list_omap]. destruct (head c); cbn [length]; lia.
Qed.

Lemma bulk_repair_none (fuel : nat) (c : ref) (n : Node) (s : state) :
  heap s !! c = Some n -> Node.is_overflow n = false ->
  BPlusTree.bulk_repair fuel (Some c) c false s = (Ok c, s).
Proof.
  intros Hc Hov. destruct fuel; cbn [BPlusTree.bulk_repair];
    (erewrite bind_ok by (apply get_node_run; exact Hc)); rewrite Hov; reflexivity.
Qed.

Lemma bulk_loop_first (o : Z) (c : list Z) (rest : list (list Z)) :
  0 <= o ->
  BPlusTree.bulk_loop (c :: rest) 0 0%nat None (bulk_state o [])
  = BPlusTree.bulk_loop rest 1 0%nat (Some 1%nat) (bulk_state o [c]).
Proof.
  intros Ho. cbn [BPlusTree.bulk_loop].
  erewrite bind_ok by reflexivity.
  rewrite bind_ok with (1 := new_node_run _ _ _ _ _ _).
  erewrite bind_ok by reflexivity.
  erewrite bind_ok by (apply set_prev_run; reflexivity).
  erewrite bind_ok by reflexivity.
  erewrite bind_ok by (apply get_values_run; reflexivity).
  erewrite bind_ok by (apply set_values_run; reflexivity).
  erewrite bind_ok by reflexivity.
  erewrite bind_ok.
  2:{ eapply bulk_repair_none; [reflexivity|].
      unfold Node.is_overflow. cbn.
      match goal with
      | |- (?a <? ?b) = false => destruct (Z.ltb_spec a b); [simpl in *; lia | reflexivity]
      end. }
  reflexivity.
Qed.

Lemma bulk_loop_next (o : Z) (done : list (list Z)) (cl c : list Z)
    (rest : list (list Z)) (b0 : Z) :
  head c = Some b0 ->
  Z.of_nat (S (length done)) <= o ->
  BPlusTree.bulk_loop (c :: rest) (S (length done)) 0%nat (Some (S (length done)))
    (bulk_state o (done ++ [cl]))
  = BPlusTree.bulk_loop rest (S (S (length done))) 0%nat (Some (S (S (length done))))
      (bulk_state o ((done ++ [cl]) ++ [c])).
Proof.
  intros Hc Ho.
  assert (Hlen : length (done ++ [cl]) = S (length done))
    by (rewrite length_app; simpl; lia).
  pose proof (bulk_store_length o (done ++ [cl])) as HlenH. rewrite Hlen in HlenH.
  cbn [BPlusTree.bulk_loop].
  erewrite bind_ok by reflexivity.
  rewrite bind_ok with (1 := new_node_run _ _ _ _ _ _).
  cbn [heap bulk_state tree_order with_heap]. rewrite HlenH.
  erewrite bind_ok.
  2:{ apply set_next_run. cbn [heap with_heap].
      rewrite lookup_app_l by lia. rewrite bulk_store_leaf, Hlen.
      rewrite lookup_app_r by lia. rewrite Nat.sub_diag. reflexivity. }
  cbn [heap with_heap].
  erewrite bind_ok.
  2:{ apply set_prev_run. cbn [heap with_heap].
      rewrite list_lookup_insert_ne by lia.
      rewrite lookup_app_r by lia. rewrite HlenH, Nat.sub_diag. reflexivity. }
  cbn [heap with_heap]. cbn [Nat.eqb].
  erewrite bind_ok.
  2:{ erewrite bind_ok by (apply (index_nat_run _ 0); rewrite <- head_lookup; exact Hc).
      erewrite bind_ok.
      2:{ apply get_keys_run. cbn [heap with_heap].
          rewrite !list_lookup_insert_ne by lia. reflexivity. }
      apply set_keys_run. cbn [heap with_heap].
      rewrite !list_lookup_insert_ne by lia. reflexivity. }
  cbn [heap with_heap keys with_keys].
  erewrite bind_ok.
  2:{ apply get_values_run. cbn [heap with_heap].
      apply list_lookup_insert_eq. rewrite !length_insert, length_app. simpl. lia. }
  erewrite bind_ok.
  2:{ apply set_values_run. cbn [heap with_heap].
      apply list_lookup_insert_eq. rewrite !length_insert, length_app. simpl. lia. }
  cbn [heap with_heap keys values with_keys with_values with_prev order leaf parent prev next].
  rewrite list_insert_insert_eq.
  erewrite bind_ok by reflexivity.
  erewrite bind_ok.
  2:{ eapply bulk_repair_none.
      - cbn [heap with_heap]. apply list_lookup_insert_eq.
        rewrite !length_insert, length_app. simpl. lia.
      - unfold Node.is_overflow. cbn [order keys with_keys with_values].
        rewrite length_app. cbn [length].
        pose proof (separators_length (done ++ [cl])) as Hom.
        rewrite Hlen in Hom.
        match goal with
        | |- (?a <? ?b) = false =>
            destruct (Z.ltb_spec a b); [simpl in *; lia | reflexivity]
        end. }
  f_equal. unfold bulk_state, with_heap. cbn [heap tree_order root stdout].
  f_equal. rewrite <- (bulk_store_snoc o done cl c b0 Hc).
  unfold with_values, with_keys, with_prev.
  cbn [order leaf keys values parent prev next]. rewrite ?Hlen. reflexivity.
Qed.

Lemma bulk_loop_all (o : Z) (rest done : list (list Z)) :
  0 <= o ->
  Forall (fun c => c <> []) rest ->
  Z.of_nat (length done + length rest) <= o + 1 ->
  BPlusTree.bulk_loop rest (length done) 0%nat
    (if (length done =? 0)%nat then None else Some (length done)) (bulk_state o done)
  = (Ok tt, bulk_state o (done ++ rest)).
Proof.
  intros Ho. revert done. induction rest as [|c rest IH]; intros done Hne Hlen.
  - rewrite app_nil_r. destruct (length done =? 0)%nat; reflexivity.
  - apply Forall_cons in Hne as [Hc Hne].
    assert (Hhd : exists b0, head c = Some b0) by (destruct c; [contradiction | simpl; eauto]).
    destruct Hhd as [b0 Hb0]. cbn [length] in Hlen.
    destruct done as [|c0 done0 _] using rev_ind.
    + cbn [length Nat.eqb]. rewrite bulk_loop_first by exact Ho.
      apply (IH [c] Hne). simpl. lia.
    + assert (Hl1 : length (done0 ++ [c0]) = S (length done0))
        by (rewrite length_app; simpl; lia).
      assert (Hl2 : length ((done0 ++ [c0]) ++ [c]) = S (S (length done0)))
        by (rewrite !length_app; simpl; lia).
      rewrite Hl1 in *. cbn [Nat.eqb].
      rewrite (bulk_loop_next o done0 c0 c rest b0 Hb0) by lia.
      specialize (IH ((done0 ++ [c0]) ++ [c]) Hne).
      rewrite Hl2 in IH. cbn [Nat.eqb] in IH.
      rewrite <- (app_assoc (done0 ++ [c0]) [c] rest) in IH.
      apply IH. lia.
Qed.

Lemma chunks_nonempty (lst : list Z) (n : nat) :
  (0 < n)%nat -> Forall (fun c => c <> []) (BPlusTree.chunks (length lst) lst n).
Proof.
  intros Hn. apply Forall_lookup. intros i c Hi.
  rewrite chunks_lookup in Hi by lia.
  destruct (Nat.ltb_spec (i * n) (length lst)); [|discriminate].
  injection Hi as <-. intros Hnil. apply (f_equal length) in Hnil.
  rewrite length_take, length_drop in Hnil. simpl in Hnil. lia.
Qed.

Lemma chunks_count_le (lst : list Z) (n k : nat) :
  (0 < n)%nat -> (length lst <= k * n)%nat ->
  (length (BPlusTree.chunks (length lst) lst n) <= k)%nat.
Proof.
  intros Hn Hk. apply lookup_ge_None. rewrite chunks_lookup by lia.
  destruct (Nat.ltb_spec (k * n) (length lst)); [lia | reflexivity].
Qed.

Lemma chunks_count_two (lst : list Z) (n : nat) :
  (0 < n)%nat -> (n < length lst)%nat ->
  (2 <= length (BPlusTree.chunks (length lst) lst n))%nat.
Proof.
  intros Hn Hk.
  assert (H1 : is_Some (BPlusTree.chunks (length lst) lst n !! 1%nat)).
  { rewrite chunks_lookup by lia.
    destruct (Nat.ltb_spec (1 * n) (length lst)); [eauto | lia]. }
  apply lookup_lt_is_Some in H1. lia.
Qed.

Lemma separators_cons (c0 c1 : list Z) (cs : list (list Z)) (h1 : Z) :
  head c1 = Some h1 -> separators (c0 :: c1 :: cs) = h1 :: separators (c1 :: cs).
Proof. intros Hh. unfold separators. cbn [tail omap list_omap]. rewrite Hh. reflexivity. Qed.

Lemma separators_nonempty_length (cs : list (list Z)) :
  Forall (fun c => c <> []) cs -> length (separators cs) = (length cs - 1)%nat.
Proof.
  intros Hne. unfold separators. rewrite <- length_tl.
  assert (Hne' : Forall (fun c => c <> []) (tail cs)).
  { destruct cs; [constructor | apply Forall_cons in Hne as [_ Hne]; exact Hne]. }
  induction (tail cs) as [|c l IH]; [reflexivity|].
  apply Forall_cons in Hne' as [Hc Hl]. cbn [omap list_omap].
  destruct c; [contradiction|]. cbn [head length]. rewrite IH by exact Hl. reflexivity.
Qed.

(** In a sorted sequence of buckets the separators lead to the one bucket
    that can hold [x]. *)
Lemma chunk_of_key (cs : list (list Z)) (x : Z) :
  Forall (fun c => c <> []) cs -> StronglySorted Z.le (concat cs) -> cs <> [] ->
  exists c, cs !! BPlusTree.position_scan x (separators cs) 0 = Some c
            /\ (x ∈ concat cs <-> x ∈ c).
Proof.
  induction cs as [|c0 cs IH]; intros Hne Hs Hnil; [contradiction|].
  apply Forall_cons in Hne as [Hc0 Hne].
  destruct cs as [|c1 cs].
  - exists c0. split; [reflexivity|]. cbn [concat]. rewrite app_nil_r. reflexivity.
  - pose proof Hne as Hne1. apply Forall_cons in Hne1 as [Hc1 _].
    destruct c1 as [|h1 c1]; [contradiction|].
    rewrite (separators_cons c0 (h1 :: c1) cs h1 eq_refl).
    cbn [concat] in Hs. apply StronglySorted_app in Hs as (H01 & Hs0 & Hs1).
    assert (Hmin : forall y, y ∈ concat ((h1 :: c1) :: cs) -> h1 <= y).
    { cbn [concat app] in *. apply StronglySorted_cons in Hs1 as [Hall _].
      intros y Hy. apply elem_of_cons in Hy as [->|Hy]; [lia|].
      rewrite Forall_forall in Hall. apply Hall, Hy. }
    assert (Hh1 : h1 ∈ concat ((h1 :: c1) :: cs)) by (cbn [concat app]; left).
    cbn [BPlusTree.position_scan]. destruct (Z.ltb_spec x h1) as [Hlt|Hge].
    + exists c0. split; [reflexivity|]. cbn [concat]. rewrite elem_of_app.
      split; [intros [H|H]; [exact H | specialize (Hmin x H); lia] | auto].
    + destruct (IH Hne Hs1 ltac:(discriminate)) as (c & Hlk & Hiff).
      exists c. rewrite position_scan_shift. split; [exact Hlk|].
      cbn [concat]. rewrite elem_of_app, <- Hiff.
      split; [intros [H|H]; [|exact H] | auto].
      assert (x = h1) by (specialize (H01 x h1 H Hh1); lia). subst x. exact Hh1.
Qed.

(** [bulk_load] on a new tree, as long as the root does not overflow. *)
Lemma bulk_load_run (o : Z) (values : list Z) :
  0 < o ->
  Z.of_nat (length values) <= o * (o + 1) ->
  BPlusTree.bulk_load values (BPlusTree.init o)
  = (Ok tt,
     bulk_state o
       (BPlusTree.chunks (length (BPlusTree.sorted values)) (BPlusTree.sorted values)
          (Z.to_nat o))).
Proof.
  intros Ho Hlen. unfold BPlusTree.bulk_load.
  erewrite bind_ok by reflexivity.
  erewrite bind_ok by (apply set_leaf_run; reflexivity).
  cbn [tree_order with_heap BPlusTree.init root].
  destruct (Z.eqb_spec o 0); [lia|]. destruct (Z.ltb_spec o 0); [lia|].
  apply (bulk_loop_all o _ []); [lia | apply chunks_nonempty; lia|].
  cbn [length]. rewrite Nat.add_0_l.
  assert (Hc : (length (BPlusTree.chunks (length (BPlusTree.sorted values))
                          (BPlusTree.sorted values) (Z.to_nat o))
                <= Z.to_nat o + 1)%nat).
  { apply chunks_count_le; [lia|]. rewrite sorted_length. nia. }
  lia.
Qed.

Lemma find_bulk_state (o : Z) (cs : list (list Z)) (x : Z) :
  Forall (fun c => c <> []) cs -> (2 <= length cs)%nat ->
  StronglySorted Z.le (concat cs) ->
  BPlusTree.find x (bulk_state o cs)
  = (Ok tt,
     with_message (bulk_state o cs)
       (if bool_decide (x ∈ concat cs) then KeyFound x else KeyNotFound x)).
Proof.
  intros Hne Hlen Hs.
  destruct (chunk_of_key cs x Hne Hs) as (c & Hc & Hiff); [destruct cs; [simpl in Hlen; lia | discriminate]|].
  set (j := BPlusTree.position_scan x (separators cs) 0) in *.
  assert (Hj : (j < length cs)%nat) by (eapply lookup_lt_Some; eauto).
  pose proof (separators_nonempty_length cs Hne) as Hsep.
  assert (Hleaf : heap (bulk_state o cs) !! S j = Some (bulk_leaf o (length cs) j c)).
  { cbn [heap bulk_state]. rewrite bulk_store_leaf, Hc. reflexivity. }
  assert (Hloc : fst (BPlusTree.locate x (bulk_state o cs)) = Ok (S j, [j])).
  { unfold BPlusTree.locate. erewrite bind_ok by reflexivity.
    cbn [heap bulk_state root]. rewrite bulk_store_length.
    erewrite descend_step by reflexivity. cbn [leaf].
    unfold position_result. cbn [keys values]. fold j.
    destruct (separators cs) eqn:Hseps; [simpl in Hsep; lia|].
    rewrite py_index_nat, list_lookup_fmap, lookup_seq_lt by exact Hj.
    cbn [fmap option_fmap option_map].
    destruct (length cs) as [|f] eqn:Hl; [lia|].
    erewrite descend_step by exact Hleaf. reflexivity. }
  rewrite (find_run _ x (S j) [j] _ Hloc Hleaf). cbn [keys bulk_leaf].
  rewrite (bool_decide_ext _ _ Hiff). reflexivity.
Qed.

(** X17.  [bulk_load] on a new tree of order [o > 0] with more than [o]
    and at most [o * (o + 1)] values (duplicates allowed) returns normally
    and builds a two-level tree: the root (object 0) over one leaf per
    bucket of [o] consecutive elements of [sorted(values)] (objects 1, 2,
    ... in this order, linked by [prev] and [next], each with the root as
    parent), with the first key of every bucket but the first as
    separators.  The buckets are not empty, hold at most [o] keys and
    concatenate to [sorted(values)].  [find] then reports exactly the loaded
    values as found. *)
Theorem bulk_load_two_levels (o : Z) (values : list Z) :
  0 < o ->
  o < Z.of_nat (length values) <= o * (o + 1) ->
  exists cs,
    BPlusTree.bulk_load values (BPlusTree.init o) = (Ok tt, bulk_state o cs)
    /\ concat cs = BPlusTree.sorted values
    /\ Forall (fun c => c <> [] /\ Z.of_nat (length c) <= o) cs
    /\ forall x,
         BPlusTree.find x (bulk_state o cs)
         = (Ok tt,
            with_message (bulk_state o cs)
              (if bool_decide (x ∈ values) then KeyFound x else KeyNotFound x)).
Proof.
  intros Ho [Hlo Hhi].
  set (lst := BPlusTree.sorted values).
  exists (BPlusTree.chunks (length lst) lst (Z.to_nat o)).
  pose proof (sorted_length values) as Hsl. fold lst in Hsl.
  assert (Hcat : concat (BPlusTree.chunks (length lst) lst (Z.to_nat o)) = lst)
    by (apply chunks_concat; lia).
  pose proof (chunks_nonempty lst (Z.to_nat o) ltac:(lia)) as Hne.
  split; [apply bulk_load_run; assumption|].
  split; [exact Hcat|].
  split.
  - apply Forall_lookup. intros i c Hi. split.
    + rewrite Forall_lookup in Hne. exact (Hne i c Hi).
    + rewrite chunks_lookup in Hi by lia.
      destruct (_ <? _)%nat; [|discriminate]. injection Hi as <-.
      rewrite length_take. lia.
  - intros x. rewrite find_bulk_state.
    + erewrite bool_decide_ext; [reflexivity|].
      rewrite Hcat. unfold lst, BPlusTree.sorted.
      rewrite merge_sort_Permutation. reflexivity.
    + exact Hne.
    + apply chunks_count_two; lia.
    + rewrite Hcat. unfold lst, BPlusTree.sorted.
      apply StronglySorted_merge_sort; apply _.
Qed.

Lemma bulk_load_two_levels_witness :
  exists cs,
    BPlusTree.bulk_load [7; 1; 9; 3; 5; 2; 8; 4; 6] (BPlusTree.init 3)
    = (Ok tt, bulk_state 3 cs)
    /\ concat cs = BPlusTree.sorted [7; 1; 9; 3; 5; 2; 8; 4; 6].
Proof.
  destruct (bulk_load_two_levels 3 [7; 1; 9; 3; 5; 2; 8; 4; 6]) as (cs & Hrun & Hcat & _).
  - lia.
  - simpl. lia.
  - exists cs. split; [exact Hrun | exact Hcat].
Defined.

(** ** [find] only prints *)

(** X16.  [find] never changes the tree: whatever the store and whether
    it returns or raises, the objects, the root and the order are as before.
    When it returns it has printed exactly one line, "Key found" or "Key
    not found"; when it raises it has printed nothing. *)
Theorem find_only_prints (data : Z) (s : state) :
  heap (snd (BPlusTree.find data s)) = heap s
  /\ root (snd (BPlusTree.find data s)) = root s
  /\ tree_order (snd (BPlusTree.find data s)) = tree_order s
  /\ match fst (BPlusTree.find data s) with
     | Ok _ =>
         stdout (snd (BPlusTree.find data s)) = stdout s ++ [KeyFound data]
         \/ stdout (snd (BPlusTree.find data s)) = stdout s ++ [KeyNotFound data]
     | Raise _ => stdout (snd (BPlusTree.find data s)) = stdout s
     end.
Proof.
  unfold BPlusTree.find.
  destruct (fst (BPlusTree.locate data s)) as [[c path]|e] eqn:Hloc.
  - erewrite bind_ok by (apply locate_run; exact Hloc). cbn [fst snd].
    destruct (locate_leaf s data c path Hloc) as (n & Hc & _).
    erewrite bind_ok by (apply get_keys_run; exact Hc).
    destruct (list_index data (keys n)); cbn; auto.
  - erewrite bind_raise by (apply unchanged_run; [apply unchanged_locate | exact Hloc]).
    cbn. auto.
Qed.

(** ** Borrowing from and merging into the left sibling *)

(** X18.  Borrowing from the left.  Let [c] be a leaf whose [prev] is
    another leaf [ls], with [ls.next = c], that holds more than
    [ceil(order/2)] keys; let the last key [klast] of [ls] have the list
    [[klast]] as its value and let the first value of [c] be a list [[k0]]
    (the payloads that [Node.add] stores).  Then [_left_redistribute(c)]
    moves the last key and value of [ls] to the front of [c] and changes
    nothing else; it returns the parent of [c], [k0] and [klast], for
    [_update_parents] to replace the separator. *)
Theorem left_redistribute_borrows (s : state) (c ls : ref) (idx : nat) (nc nl : Node)
    (ks : list Z) (klast k0 : Z) (vs ws : list value) :
  heap s !! c = Some nc -> prev nc = Some ls ->
  heap s !! ls = Some nl -> next nl = Some c -> ls <> c ->
  leaf nc = true -> leaf nl = true ->
  keys nl = ks ++ [klast] -> values nl = vs ++ [VList [klast]] ->
  values nc = VList [k0] :: ws ->
  ceil_half (tree_order s) < Z.of_nat (length (keys nl)) ->
  BPlusTree._left_redistribute c idx s
  = (Ok (parent nc, k0, klast),
     with_heap s
       (<[ls := with_values (with_keys nl ks) vs]>
          (<[c := with_values (with_keys nc (klast :: keys nc))
                    (VList [klast] :: values nc)]> (heap s)))).
Proof.
  intros Hc Hprev Hls Hnext Hne Hlc Hll Hk Hv Hw Hsize.
  unfold BPlusTree._left_redistribute.
  erewrite bind_ok by reflexivity.
  erewrite bind_ok by (apply get_prev_run; exact Hc). rewrite Hprev.
  erewrite bind_ok by (apply get_keys_run; exact Hls).
  destruct (Z.ltb_spec (ceil_half (tree_order s)) (Z.of_nat (length (keys nl)))); [|lia].
  rewrite (right_rotate_run s ls c 0%nat nl nc nc (VList [k0]) (VList [klast]) ws vs
             klast ks k0 klast); try assumption; try reflexivity.
  - unfold adopt. rewrite Hlc, Hll. reflexivity.
  - congruence.
  - rewrite Hlc. discriminate.
Qed.

Lemma left_redistribute_borrows_witness :
  BPlusTree._left_redistribute 3%nat 1%nat tree_1_to_10
  = (Ok (Some 0%nat, 5, 4),
     with_heap tree_1_to_10
       (<[1%nat := mkNode 4 true [1; 2; 3] [VList [1]; VList [2]; VList [3]]
                     (Some 0%nat) None (Some 3%nat)]>
          (<[3%nat := mkNode 4 true [4; 5; 6] [VList [4]; VList [5]; VList [6]]
                        (Some 0%nat) (Some 1%nat) (Some 4%nat)]>
             (heap tree_1_to_10)))).
Proof.
  refine (left_redistribute_borrows tree_1_to_10 3%nat 1%nat 1%nat
            (mkNode 4 true [5; 6] [VList [5]; VList [6]]
               (Some 0%nat) (Some 1%nat) (Some 4%nat))
            (mkNode 4 true [1; 2; 3; 4] [VList [1]; VList [2]; VList [3]; VList [4]]
               (Some 0%nat) None (Some 3%nat))
            [1; 2; 3] 4 5 [VList [1]; VList [2]; VList [3]] [VList [6]]
            eq_refl eq_refl eq_refl eq_refl _ eq_refl eq_refl eq_refl eq_refl eq_refl _).
  - lia.
  - vm_compute. reflexivity.
Defined.

(** X19.  Merging into the left.  Let [c] be a leaf with parent [p] whose
    [prev] is a node [ls] ([c], [ls] and [p] being three objects) with at
    most [ceil(order/2)] keys, the two nodes together holding at most
    [order] keys; let the first value of [c] be a list [[k0]] (the payload
    that [Node.add] stores), let [p] have more than [i] keys and more than
    [i + 1] children, and let [c.next], if there is one, be an object of the
    store other than [c], [ls] and [p].  Then
    [_left_redistribute(c, i + 1)] appends the keys and values of [c] to
    those of [ls], gives [ls] the [next] of [c] (and that node [ls] as
    [prev]), and removes the key [i] and the child [i + 1] from [p].  It
    returns [p] with [k0] as both the old and the new minimum, so that
    [_update_parents] changes no key. *)
Theorem left_redistribute_merges (s : state) (c ls p : ref) (i : nat)
    (nc nl np : Node) (k0 : Z) (ws : list value) :
  heap s !! c = Some nc -> prev nc = Some ls -> heap s !! ls = Some nl ->
  parent nc = Some p -> heap s !! p = Some np ->
  ls <> c -> p <> c -> p <> ls ->
  leaf nc = true -> values nc = VList [k0] :: ws ->
  Z.of_nat (length (keys nl)) <= ceil_half (tree_order s) ->
  Z.of_nat (length (keys nc)) + Z.of_nat (length (keys nl)) <= tree_order s ->
  (i < length (keys np))%nat -> (S i < length (values np))%nat ->
  (forall q, next nc = Some q ->
             q <> c /\ q <> ls /\ q <> p /\ (q < length (heap s))%nat) ->
  BPlusTree._left_redistribute c (S i) s
  = (Ok (Some p, k0, k0),
     with_heap s (merged_into_left (heap s) ls p nc nl np i)).
Proof.
  intros Hc Hprev Hls Hpar Hp Hne1 Hne2 Hne3 Hlc Hw Hs1 Hs2 Hi1 Hi2 Hq.
  assert (Hbc : (c < length (heap s))%nat) by (eapply lookup_lt_Some; eauto).
  assert (Hbl : (ls < length (heap s))%nat) by (eapply lookup_lt_Some; eauto).
  assert (Hbp : (p < length (heap s))%nat) by (eapply lookup_lt_Some; eauto).
  unfold BPlusTree._left_redistribute.
  erewrite bind_ok by reflexivity.
  run. rewrite Hprev. run.
  destruct (Z.ltb_spec (ceil_half (tree_order s)) (Z.of_nat (length (keys nl)))); [lia|].
  run.
  destruct (Z.ltb_spec (tree_order s)
              (Z.of_nat (length (keys nc)) + Z.of_nat (length (keys nl)))); [lia|].
  run. rewrite Hw. do 2 run. cbn [Nat.eqb]. run.
  do 7 run. rewrite Hlc.
  run. rewrite Hpar. do 2 run.
  replace (S i - 1)%nat with i by lia.
  erewrite bind_ok by (apply pop_nat_run; exact Hi1).
  do 2 run. rewrite Hpar. do 2 run.
  erewrite bind_ok by (apply pop_nat_run; exact Hi2).
  do 2 run. rewrite Hlc. do 2 run.
  erewrite bind_ok by (apply set_next_run; lookup_tac).
  cbn [heap with_heap]. rewrite with_heap_twice.
  rewrite (list_insert_insert_ne _ p ls) by congruence.
  rewrite list_insert_insert_eq.
  run. unfold merged_into_left.
  destruct (next nc) as [q|] eqn:Hnext.
  - destruct (Hq q eq_refl) as (Hq1 & Hq2 & Hq3 & Hq4).
    destruct (heap s !! q) as [nq|] eqn:Hnq; [|apply lookup_ge_None in Hnq; lia].
    erewrite bind_ok by (apply set_prev_run; lookup_tac).
    cbn [heap with_heap]. rewrite with_heap_twice.
    run. rewrite Hpar. unfold node_at. rewrite Hnq. reflexivity.
  - run. run. rewrite Hpar. reflexivity.
Qed.

Lemma left_redistribute_merges_witness :
  BPlusTree._left_redistribute 2%nat 1%nat two_half_leaves
  = (Ok (Some 0%nat, 3, 3),
     with_heap two_half_leaves
       (merged_into_left (heap two_half_leaves) 1%nat 0%nat
          (mkNode 4 true [3; 4] [VList [3]; VList [4]] (Some 0%nat) (Some 1%nat) None)
          (mkNode 4 true [1; 2] [VList [1]; VList [2]] (Some 0%nat) None (Some 2%nat))
          (mkNode 4 false [3] [VNode 1%nat; VNode 2%nat] None None None) 0%nat)).
Proof.
  refine (left_redistribute_merges two_half_leaves 2%nat 1%nat 0%nat 0%nat
            (mkNode 4 true [3; 4] [VList [3]; VList [4]] (Some 0%nat) (Some 1%nat) None)
            (mkNode 4 true [1; 2] [VList [1]; VList [2]] (Some 0%nat) None (Some 2%nat))
            (mkNode 4 false [3] [VNode 1%nat; VNode 2%nat] None None None)
            3 [VList [4]]
            eq_refl eq_refl eq_refl eq_refl eq_refl _ _ _ eq_refl eq_refl _ _ _ _ _).
  - lia.
  - lia.
  - lia.
  - vm_compute. discriminate.
  - vm_compute. discriminate.
  - simpl. lia.
  - simpl. lia.
  - intros q Hq. discriminate Hq.
Defined.

(** ** Borrowing from and merging into the right sibling *)

(** X20.  Borrowing from the right: when the leaf [c] has a right sibling
    [rs] (its [next], whose [prev] is [c]) with more than [ceil(order/2)]
    keys, [_right_redistribute(c)] is [_left_rotate(rs)]: with [k1] and [k2]
    the payloads of the first two values of [rs], it appends the key [k1]
    and the value [[k1]] to [c], removes the first key and the first value
    of [rs], changes nothing else, and returns the parent of [rs] with [k1]
    and [k2] as the old and the new minimum. *)
Theorem right_redistribute_borrows (s : state) (c rs : ref) (nc nr : Node)
    (k k1 k2 : Z) (ks : list Z) (vs : list value) :
  heap s !! c = Some nc -> next nc = Some rs ->
  heap s !! rs = Some nr -> prev nr = Some c -> rs <> c ->
  leaf nc = true ->
  keys nr = k :: ks -> values nr = VList [k1] :: VList [k2] :: vs ->
  ceil_half (tree_order s) < Z.of_nat (length (keys nr)) ->
  BPlusTree._right_redistribute c s
  = (Ok (parent nr, k1, k2),
     with_heap s
       (<[rs := with_values (with_keys nr ks) (VList [k2] :: vs)]>
          (<[c := with_values (with_keys nc (keys nc ++ [k1]))
                    (values nc ++ [VList [k1]])]> (heap s)))).
Proof.
  intros Hc Hnext Hrs Hprev Hne Hlc Hk Hv Hsize.
  unfold BPlusTree._right_redistribute.
  erewrite bind_ok by reflexivity.
  erewrite bind_ok by (apply get_next_run; exact Hc). rewrite Hnext.
  erewrite bind_ok by reflexivity.
  erewrite bind_ok by (apply get_keys_run; exact Hrs).
  destruct (Z.ltb_spec (ceil_half (tree_order s)) (Z.of_nat (length (keys nr)))); [|lia].
  rewrite (left_rotate_run s rs c 0%nat nr nc nc (VList [k1]) (VList [k2]) vs
             k ks k1 k2); try assumption; try reflexivity.
  - unfold adopt. rewrite Hlc. reflexivity.
  - congruence.
  - rewrite Hlc. discriminate.
Qed.

Lemma right_redistribute_borrows_witness :
  BPlusTree._right_redistribute 1%nat tree_tens
  = (Ok (Some 0%nat, 30, 40),
     with_heap tree_tens
       (<[2%nat := mkNode 4 true [40; 50; 60] [VList [40]; VList [50]; VList [60]]
                     (Some 0%nat) (Some 1%nat) None]>
          (<[1%nat := mkNode 4 true [10; 20; 30] [VList [10]; VList [20]; VList [30]]
                        (Some 0%nat) None (Some 2%nat)]>
             (heap tree_tens)))).
Proof.
  refine (right_redistribute_borrows tree_tens 1%nat 2%nat
            (mkNode 4 true [10; 20] [VList [10]; VList [20]] (Some 0%nat) None (Some 2%nat))
            (mkNode 4 true [30; 40; 50; 60]
               [VList [30]; VList [40]; VList [50]; VList [60]]
               (Some 0%nat) (Some 1%nat) None)
            30 30 40 [40; 50; 60] [VList [50]; VList [60]]
            eq_refl eq_refl eq_refl eq_refl _ eq_refl eq_refl eq_refl _).
  - lia.
  - vm_compute. reflexivity.
Defined.

(** X21.  Merging into the right.  Let [c] be a leaf with parent [p] whose
    [next] is a node [rs] ([c], [rs] and [p] being three objects) with at
    most [ceil(order/2)] keys; let the first value of [rs] be a list [[k1]]
    (the payload that [Node.add] stores) and let [p] have at least one key
    and one child.  Then [_right_redistribute(c)] puts the keys and values
    of [c] in front of those of [rs], sets [rs.prev] to None, and removes
    the first key and the first child of [p], whatever the place of [c]
    among the children of [p] and without any test of the size of [c].  The
    object [c] itself is not changed, and the result is [(None, -1, -1)]. *)
Theorem right_redistribute_merges (s : state) (c rs p : ref) (nc nr np : Node)
    (k1 : Z) (ws : list value) :
  heap s !! c = Some nc -> next nc = Some rs -> heap s !! rs = Some nr ->
  parent nc = Some p -> heap s !! p = Some np ->
  rs <> c -> p <> c -> p <> rs ->
  leaf nc = true -> values nr = VList [k1] :: ws ->
  Z.of_nat (length (keys nr)) <= ceil_half (tree_order s) ->
  keys np <> [] -> values np <> [] ->
  BPlusTree._right_redistribute c s
  = (Ok (None, -1, -1),
     with_heap s (merged_into_right (heap s) rs p nc nr np)).
Proof.
  intros Hc Hnext Hrs Hpar Hp Hne1 Hne2 Hne3 Hlc Hw Hsize Hpk Hpv.
  assert (Hbc : (c < length (heap s))%nat) by (eapply lookup_lt_Some; eauto).
  assert (Hbr : (rs < length (heap s))%nat) by (eapply lookup_lt_Some; eauto).
  assert (Hbp : (p < length (heap s))%nat) by (eapply lookup_lt_Some; eauto).
  unfold BPlusTree._right_redistribute.
  erewrite bind_ok by reflexivity.
  run. rewrite Hnext. do 2 run.
  destruct (Z.ltb_spec (ceil_half (tree_order s)) (Z.of_nat (length (keys nr)))); [lia|].
  run. rewrite Hw. do 2 run.
  do 7 run. rewrite Hlc.
  run. rewrite Hpar. do 2 run.
  erewrite bind_ok by (apply (pop_nat_run _ 0); destruct (keys np); [contradiction | simpl; lia]).
  do 2 run. rewrite Hpar. do 2 run.
  erewrite bind_ok by (apply (pop_nat_run _ 0); destruct (values np); [contradiction | simpl; lia]).
  do 2 run. rewrite Hlc. run.
  erewrite bind_ok by (apply set_prev_run; lookup_tac).
  cbn [heap with_heap]. rewrite with_heap_twice.
  rewrite (list_insert_insert_ne _ p rs) by congruence.
  rewrite list_insert_insert_eq. reflexivity.
Qed.

Lemma right_redistribute_merges_witness :
  BPlusTree._right_redistribute 1%nat two_half_leaves
  = (Ok (None, -1, -1),
     with_heap two_half_leaves
       (merged_into_right (heap two_half_leaves) 2%nat 0%nat
          (mkNode 4 true [1; 2] [VList [1]; VList [2]] (Some 0%nat) None (Some 2%nat))
          (mkNode 4 true [3; 4] [VList [3]; VList [4]] (Some 0%nat) (Some 1%nat) None)
          (mkNode 4 false [3] [VNode 1%nat; VNode 2%nat] None None None))).
Proof.
  refine (right_redistribute_merges two_half_leaves 1%nat 2%nat 0%nat
            (mkNode 4 true [1; 2] [VList [1]; VList [2]] (Some 0%nat) None (Some 2%nat))
            (mkNode 4 true [3; 4] [VList [3]; VList [4]] (Some 0%nat) (Some 1%nat) None)
            (mkNode 4 false [3] [VNode 1%nat; VNode 2%nat] None None None)
            3 [VList [4]]
            eq_refl eq_refl eq_refl eq_refl eq_refl _ _ _ eq_refl eq_refl _ _ _).
  - lia.
  - lia.
  - lia.
  - vm_compute. discriminate.
  - discriminate.
  - discriminate.
Defined.

(** ** [_merge_into_parent] *)

Lemma pivot_scan_position (pivot : Z) (ks : list Z) (i : nat) :
  BPlusTree.pivot_scan pivot ks i
  = if (BPlusTree.position_scan pivot ks 0 <? length ks)%nat
    then Some (i + BPlusTree.position_scan pivot ks 0)%nat
    else None.
Proof.
  revert i. induction ks as [|key ks IH]; intros i; simpl; [reflexivity|].
  destruct (pivot <? key).
  - simpl. f_equal. lia.
  - rewrite (IH (S i)), (position_scan_shift pivot ks 1).
    change (1 + ?a <? S ?b)%nat with (a <? b)%nat.
    destruct (_ <? _)%nat; [f_equal; lia | reflexivity].
Qed.

(** X23.  [_merge_into_parent(c, idx)] where [c] has just been split (its
    keys begin with [pivot], its children are the two objects [l] and [r])
    and its parent [p] has [len(keys) + 1] children, [idx] being one of
    them: the child [idx] is removed from [p], [l] and [r] get [p] as
    parent, [pivot] is inserted into the keys of [p] before the first
    greater key, at an index [i], and [l], [r] at the index [i] of the
    remaining children; nothing else changes.  When [i = idx], [l] and [r]
    take exactly the place that [c] had. *)
Theorem merge_into_parent_spec (s : state) (c p l r : ref) (idx : nat)
    (nc np nl nr : Node) (pivot : Z) (ks : list Z) :
  heap s !! c = Some nc -> parent nc = Some p -> heap s !! p = Some np ->
  heap s !! l = Some nl -> heap s !! r = Some nr ->
  p <> c -> l <> c -> r <> c -> l <> p -> r <> p -> l <> r ->
  keys nc = pivot :: ks -> values nc = [VNode l; VNode r] ->
  (idx < length (values np))%nat ->
  length (values np) = S (length (keys np)) ->
  BPlusTree._merge_into_parent c (Z.of_nat idx) s
  = (Ok tt,
     with_heap s
       (<[p := with_values
                 (with_keys np
                    (splice (BPlusTree.position_scan pivot (keys np) 0) pivot (keys np)))
                 (take (BPlusTree.position_scan pivot (keys np) 0)
                    (delete idx (values np))
                  ++ [VNode l; VNode r]
                  ++ drop (BPlusTree.position_scan pivot (keys np) 0)
                       (delete idx (values np)))]>
          (<[r := with_parent nr (Some p)]>
             (<[l := with_parent nl (Some p)]> (heap s)))))
  /\ (BPlusTree.position_scan pivot (keys np) 0 = idx ->
      take idx (delete idx (values np)) ++ [VNode l; VNode r]
      ++ drop idx (delete idx (values np))
      = take idx (values np) ++ [VNode l; VNode r] ++ drop (S idx) (values np)).
Proof.
  intros Hc Hpar Hp Hl Hr Hpc Hlc Hrc Hlp Hrp Hlr Hk Hv Hidx Hshape.
  assert (Hbc : (c < length (heap s))%nat) by (eapply lookup_lt_Some; eauto).
  assert (Hbp : (p < length (heap s))%nat) by (eapply lookup_lt_Some; eauto).
  assert (Hbl : (l < length (heap s))%nat) by (eapply lookup_lt_Some; eauto).
  assert (Hbr : (r < length (heap s))%nat) by (eapply lookup_lt_Some; eauto).
  split.
  - unfold BPlusTree._merge_into_parent.
    run. rewrite Hpar. do 2 run.
    erewrite bind_ok by (apply pop_nat_run; exact Hidx).
    do 2 run. rewrite Hv. cbn [for_each].
    erewrite bind_ok.
    2:{ erewrite bind_ok
          by (erewrite bind_ok by reflexivity; apply set_parent_run; lookup_tac).
        erewrite bind_ok
          by (erewrite bind_ok by reflexivity; apply set_parent_run; lookup_tac).
        reflexivity. }
    cbn [heap with_heap]. rewrite !with_heap_twice.
    run. rewrite Hk. do 2 run.
    rewrite pivot_scan_position.
    pose proof (position_scan_le pivot (keys np)) as Hle.
    rewrite (list_insert_insert_ne _ l p) by congruence.
    rewrite (list_insert_insert_ne _ r p) by congruence.
    assert (Hld : length (delete idx (values np)) = length (keys np)).
    { rewrite length_delete by (apply lookup_lt_is_Some_2; exact Hidx). lia. }
    destruct (Nat.ltb_spec (BPlusTree.position_scan pivot (keys np) 0) (length (keys np))).
    + rewrite Nat.add_0_l. do 3 run. run_last. rewrite Hv. reflexivity.
    + do 3 run. run_last. rewrite Hv.
      replace (BPlusTree.position_scan pivot (keys np) 0) with (length (keys np)) by lia.
      unfold splice. rewrite firstn_all, drop_all.
      rewrite <- Hld at 1 2. rewrite firstn_all, drop_all, app_nil_r. reflexivity.
  - intros <-. rewrite delete_take_drop.
    set (j := BPlusTree.position_scan pivot (keys np) 0) in *.
    assert (Hj : j = length (take j (values np))) by (rewrite length_take; lia).
    rewrite take_app_length', drop_app_length' by exact Hj. reflexivity.
Qed.

Lemma merge_into_parent_spec_witness :
  BPlusTree._merge_into_parent 2%nat 1 after_leaf_split
  = (Ok tt,
     with_heap after_leaf_split
       (<[0%nat := mkNode 4 false [30; 45] [VNode 1%nat; VNode 3%nat; VNode 4%nat]
                     None None None]>
          (<[4%nat := mkNode 4 true [45; 50; 60] [VList [45]; VList [50]; VList [60]]
                        (Some 0%nat) (Some 3%nat) None]>
             (<[3%nat := mkNode 4 true [30; 40] [VList [30]; VList [40]]
                           (Some 0%nat) (Some 1%nat) (Some 4%nat)]>
                (heap after_leaf_split))))).
Proof.
  refine (proj1 (merge_into_parent_spec after_leaf_split 2%nat 0%nat 3%nat 4%nat 1%nat
                   (mkNode 4 false [45] [VNode 3%nat; VNode 4%nat]
                      (Some 0%nat) (Some 1%nat) None)
                   (mkNode 4 false [30] [VNode 1%nat; VNode 2%nat] None None None)
                   (mkNode 4 true [30; 40] [VList [30]; VList [40]]
                      (Some 2%nat) (Some 1%nat) (Some 4%nat))
                   (mkNode 4 true [45; 50; 60] [VList [45]; VList [50]; VList [60]]
                      (Some 2%nat) (Some 3%nat) None)
                   45 []
                   eq_refl eq_refl eq_refl eq_refl eq_refl _ _ _ _ _ _
                   eq_refl eq_refl _ eq_refl));
    simpl; lia.
Defined.

(** ** Splitting an internal node *)

Lemma adopt_all_cons (p r : ref) (refs : list ref) (h : list Node) :
  adopt_all p (r :: refs) h
  = adopt_all p refs (<[r := with_parent (node_at h r) (Some p)]> h).
Proof. reflexivity. Qed.

Lemma adopt_all_length (p : ref) (refs : list ref) (h : list Node) :
  length (adopt_all p refs h) = length h.
Proof.
  revert h. induction refs as [|r refs IH]; intros h; [reflexivity|].
  rewrite adopt_all_cons, IH. apply length_insert.
Qed.

Lemma node_at_insert_ne (h : list Node) (x r : ref) (v : Node) :
  x <> r -> node_at (<[x := v]> h) r = node_at h r.
Proof. intros Hne. unfold node_at. rewrite list_lookup_insert_ne by exact Hne. reflexivity. Qed.

Lemma adopt_all_insert (p : ref) (refs : list ref) (x : ref) (v : Node) (h : list Node) :
  x ∉ refs -> adopt_all p refs (<[x := v]> h) = <[x := v]> (adopt_all p refs h).
Proof.
  revert h. induction refs as [|r refs IH]; intros h Hx; [reflexivity|].
  apply not_elem_of_cons in Hx as [Hxr Hx].
  rewrite !adopt_all_cons.
  rewrite node_at_insert_ne by exact Hxr.
  rewrite (list_insert_insert_ne _ r x) by congruence.
  apply IH, Hx.
Qed.

Lemma adopt_all_lookup_other (p : ref) (refs : list ref) (x : ref) (h : list Node) :
  x ∉ refs -> adopt_all p refs h !! x = h !! x.
Proof.
  revert h. induction refs as [|r refs IH]; intros h Hx; [reflexivity|].
  apply not_elem_of_cons in Hx as [Hxr Hx].
  rewrite adopt_all_cons.
  rewrite IH by exact Hx. apply list_lookup_insert_ne. congruence.
Qed.

Lemma adopt_all_run (p : ref) (refs : list ref) (s : state) :
  Forall (fun r => (r < length (heap s))%nat) refs ->
  for_each (VNode <$> refs)
    (fun child => c <- as_node child ;; set_parent c (Some p)) s
  = (Ok tt, with_heap s (adopt_all p refs (heap s))).
Proof.
  revert s. induction refs as [|r refs IH]; intros s Hall.
  - cbn. rewrite with_heap_same. reflexivity.
  - apply Forall_cons in Hall as [Hr Hall].
    destruct (lookup_lt_is_Some_2 (heap s) r Hr) as [nr Hnr].
    cbn [fmap list_fmap for_each].
    erewrite bind_ok
      by (erewrite bind_ok by reflexivity; apply set_parent_run; exact Hnr).
    rewrite IH by (cbn [heap with_heap]; rewrite length_insert; exact Hall).
    cbn [heap with_heap]. rewrite with_heap_twice, adopt_all_cons.
    unfold node_at, ref in *. rewrite Hnr. reflexivity.
Qed.

Lemma slice_fmap {A B} (f : A -> B) (l : list A) (i : Z) :
  slice_to (f <$> l) i = f <$> slice_to l i /\ slice_from (f <$> l) i = f <$> slice_from l i.
Proof.
  unfold slice_to, slice_from. rewrite length_fmap, fmap_take, fmap_drop. split; reflexivity.
Qed.

Ltac look2 :=
  cbn [heap with_heap];
  rewrite ?adopt_all_lookup_other by assumption;
  first
    [ apply lookup_pair_left; len_tac
    | apply lookup_pair_right; len_tac
    | rewrite lookup_pair_old by len_tac;
      first [ rewrite list_lookup_insert_eq by len_tac; reflexivity | eassumption ] ].

Ltac norm2 :=
  cbn [heap with_heap]; rewrite ?with_heap_twice;
  rewrite <- ?adopt_all_insert by assumption;
  norm.

Ltac step2 lem := erewrite bind_ok by (apply lem; look2); norm2.

Lemma split_internal_run (s : state) (c : ref) (n : Node) (refs : list ref) (k : Z) :
  heap s !! c = Some n ->
  leaf n = false -> prev n = None -> next n = None ->
  values n = VNode <$> refs ->
  Forall (fun r => (r < length (heap s))%nat /\ r <> c) refs ->
  head (slice_from (keys n) (ceil_half (order n))) = Some k ->
  Node.split c s = (Ok tt, with_heap s (split_internal_store (heap s) c n refs)).
Proof.
  intros Hc Hl Hp Hn Hv Hrefs Hk.
  assert (Hlc : (c < length (heap s))%nat) by (eapply lookup_lt_Some; eauto).
  set (mid := ceil_half (order n)) in *.
  assert (Hin : forall r, r ∈ refs -> (r < length (heap s))%nat /\ r <> c).
  { rewrite Forall_forall in Hrefs. exact Hrefs. }
  assert (HinL : forall r, r ∈ slice_to refs (mid + 1) -> r ∈ refs).
  { intros r Hr. unfold slice_to in Hr.
    rewrite <- (take_drop (slice_bound (length refs) (mid + 1)) refs).
    apply elem_of_app. left. exact Hr. }
  assert (HinR : forall r, r ∈ slice_from refs (mid + 1) -> r ∈ refs).
  { intros r Hr. unfold slice_from in Hr.
    rewrite <- (take_drop (slice_bound (length refs) (mid + 1)) refs).
    apply elem_of_app. right. exact Hr. }
  assert (HcL : c ∉ slice_to refs (mid + 1)) by (intros H; apply HinL, Hin in H; tauto).
  assert (HcR : c ∉ slice_from refs (mid + 1)) by (intros H; apply HinR, Hin in H; tauto).
  assert (HLL : length (heap s) ∉ slice_to refs (mid + 1))
    by (intros H; apply HinL, Hin in H; lia).
  assert (HLR : length (heap s) ∉ slice_from refs (mid + 1))
    by (intros H; apply HinR, Hin in H; lia).
  assert (HRL : S (length (heap s)) ∉ slice_to refs (mid + 1))
    by (intros H; apply HinL, Hin in H; lia).
  assert (HRR : S (length (heap s)) ∉ slice_from refs (mid + 1))
    by (intros H; apply HinR, Hin in H; lia).
  unfold Node.split. run. fold mid. rewrite Hl, Hv.
  destruct (slice_fmap VNode refs (mid + 1)) as [-> ->].
  rewrite bind_ok with (1 := new_node_run _ _ _ _ _ _).
  rewrite bind_ok with (1 := new_node_run _ _ _ _ _ _).
  cbn [heap with_heap]. rewrite with_heap_twice, length_app, <- app_assoc.
  cbn [length app]. rewrite Nat.add_1_r.
  step get_leaf_run. rewrite Hl.
  erewrite bind_ok.
  2:{ step get_values_run.
      erewrite bind_ok.
      2:{ apply adopt_all_run. cbn [heap with_heap]. rewrite length_app.
          apply Forall_forall. intros r Hr. apply HinL, Hin in Hr. lia. }
      cbn [heap with_heap]. rewrite with_heap_twice.
      step2 get_values_run.
      apply adopt_all_run. cbn [heap with_heap]. rewrite adopt_all_length, length_app.
      apply Forall_forall. intros r Hr. apply HinR, Hin in Hr. lia. }
  cbn [heap with_heap]. rewrite with_heap_twice.
  step2 get_leaf_run. step2 get_keys_run.
  erewrite bind_ok by (apply (index_nat_run _ 0); rewrite <- head_lookup; exact Hk).
  rewrite Hl.
  erewrite bind_ok.
  2:{ erewrite bind_ok
        by (apply (pop_nat_run _ 0); destruct (slice_from (keys n) mid);
            [discriminate | simpl; lia]).
      apply set_keys_run. look2. }
  norm2.
  step2 set_keys_run. step2 set_values_run. step2 set_leaf_run.
  unfold Node._update_doubly_linked_list.
  step2 get_prev_run. step2 set_prev_run. step2 get_next_run. step2 set_next_run.
  step2 get_prev_run. rewrite Hp. erewrite bind_ok by reflexivity.
  step2 get_next_run. rewrite Hn. erewrite bind_ok by reflexivity.
  step2 set_next_run.
  erewrite set_prev_run by look2. norm2.
  unfold split_internal_store, with_leaf, with_values, with_keys, with_prev, with_next.
  cbn [keys values prev next parent leaf order]. fold mid. rewrite ?Hp, ?Hn.
  destruct (slice_from (keys n) mid); [discriminate|].
  injection Hk as ->. reflexivity.
Qed.

Lemma adopt_all_parent (p : ref) (refs : list ref) (r : ref) (h : list Node) :
  r ∈ refs -> (r < length h)%nat -> parent (node_at (adopt_all p refs h) r) = Some p.
Proof.
  revert h. induction refs as [|r0 refs IH]; intros h Hr Hlt; [inversion Hr|].
  rewrite adopt_all_cons.
  destruct (decide (r ∈ refs)) as [Hin|Hout].
  - apply IH; [exact Hin | rewrite length_insert; exact Hlt].
  - apply elem_of_cons in Hr as [->|Hr]; [|contradiction].
    unfold node_at at 1. rewrite adopt_all_lookup_other by exact Hout.
    rewrite list_lookup_insert_eq by exact Hlt. reflexivity.
Qed.

Lemma underflow_after_split (o : Z) :
  1 <= o -> (o - ceil_half o <? ceil_half o) = Z.odd o.
Proof.
  intros Ho. unfold ceil_half.
  pose proof (Z.div_mod (o + 1) 2 ltac:(lia)) as Hd.
  pose proof (Z.mod_pos_bound (o + 1) 2 ltac:(lia)) as Hm.
  destruct (Z.odd o) eqn:Hodd.
  - apply Z.odd_spec in Hodd as [q ->]. apply Z.ltb_lt. lia.
  - assert (He : Z.even o = true) by (rewrite <- Z.negb_odd, Hodd; reflexivity).
    apply Z.even_spec in He as [q ->]. apply Z.ltb_ge. lia.
Qed.

(** X24.  [Node.split] of an internal node [c] without siblings, of order
    at least 1, that holds [order + 1] keys over children other than
    itself: two new internal nodes [nl] and [nr] are appended to the store
    and become the two children of [c], which keeps one key [k]; the keys of
    [nl], [k] and the keys of [nr] are the former keys in order, the
    children are shared in order and the ones of [nr] have it as parent.
    [nl] holds [ceil(order/2)] keys and [nr] the other
    [order - ceil(order/2)]: [nl] is never underfull, and [nr] is underfull
    exactly when the order is odd. *)
Theorem split_internal_node (s : state) (c : ref) (n : Node) (refs : list ref) :
  heap s !! c = Some n ->
  leaf n = false -> prev n = None -> next n = None ->
  values n = VNode <$> refs ->
  Forall (fun r => (r < length (heap s))%nat /\ r <> c) refs ->
  1 <= order n ->
  Z.of_nat (length (keys n)) = order n + 1 ->
  exists nl nr k,
    Node.split c s = (Ok tt, with_heap s (split_internal_store (heap s) c n refs))
    /\ split_internal_store (heap s) c n refs !! length (heap s) = Some nl
    /\ split_internal_store (heap s) c n refs !! S (length (heap s)) = Some nr
    /\ keys (node_at (split_internal_store (heap s) c n refs) c) = [k]
    /\ keys nl ++ k :: keys nr = keys n
    /\ values nl ++ values nr = values n
    /\ Z.of_nat (length (keys nl)) = ceil_half (order n)
    /\ Z.of_nat (length (keys nr)) = order n - ceil_half (order n)
    /\ Node.is_underflow nl = false
    /\ Node.is_underflow nr = Z.odd (order n)
    /\ forall r, r ∈ slice_from refs (ceil_half (order n) + 1) ->
         parent (node_at (split_internal_store (heap s) c n refs) r)
         = Some (S (length (heap s))).
Proof.
  intros Hc Hl Hp Hn Hv Hrefs Ho Hfull.
  assert (Hlc : (c < length (heap s))%nat) by (eapply lookup_lt_Some; eauto).
  pose proof (ceil_half_bounds (order n) Ho) as Hmid.
  destruct (slice_from_head (keys n) (ceil_half (order n))) as [k Hk]; [lia|].
  set (mid := ceil_half (order n)) in *.
  assert (Hin : forall r, r ∈ refs -> (r < length (heap s))%nat /\ r <> c).
  { rewrite Forall_forall in Hrefs. exact Hrefs. }
  assert (HinL : forall r, r ∈ slice_to refs (mid + 1) -> r ∈ refs).
  { intros r Hr. unfold slice_to in Hr.
    rewrite <- (take_drop (slice_bound (length refs) (mid + 1)) refs).
    apply elem_of_app. left. exact Hr. }
  assert (HinR : forall r, r ∈ slice_from refs (mid + 1) -> r ∈ refs).
  { intros r Hr. unfold slice_from in Hr.
    rewrite <- (take_drop (slice_bound (length refs) (mid + 1)) refs).
    apply elem_of_app. right. exact Hr. }
  assert (HcL : c ∉ slice_to refs (mid + 1)) by (intros H; apply HinL, Hin in H; tauto).
  assert (HcR : c ∉ slice_from refs (mid + 1)) by (intros H; apply HinR, Hin in H; tauto).
  assert (HLL : length (heap s) ∉ slice_to refs (mid + 1))
    by (intros H; apply HinL, Hin in H; lia).
  assert (HLR : length (heap s) ∉ slice_from refs (mid + 1))
    by (intros H; apply HinR, Hin in H; lia).
  assert (HRL : S (length (heap s)) ∉ slice_to refs (mid + 1))
    by (intros H; apply HinL, Hin in H; lia).
  assert (HRR : S (length (heap s)) ∉ slice_from refs (mid + 1))
    by (intros H; apply HinR, Hin in H; lia).
  eexists _, _, k.
  split; [apply (split_internal_run s c n refs k); assumption|].
  unfold split_internal_store. fold mid.
  split; [rewrite !adopt_all_lookup_other by assumption;
          apply lookup_pair_left; len_tac|].
  split; [rewrite !adopt_all_lookup_other by assumption;
          apply lookup_pair_right; len_tac|].
  cbn [keys values order].
  unfold slice_to, slice_from in *. rewrite !slice_bound_nonneg in * by lia.
  set (m := Z.to_nat mid) in *.
  destruct (drop m (keys n)) as [|k' rest] eqn:Hd; [discriminate|]. injection Hk as ->.
  assert (Hlt : length (take m (keys n)) = m) by (rewrite length_take; lia).
  assert (Hlr : length rest = (length (keys n) - m - 1)%nat).
  { apply (f_equal length) in Hd. rewrite length_drop in Hd. simpl in Hd. lia. }
  split.
  { unfold node_at. rewrite !adopt_all_lookup_other by assumption.
    rewrite lookup_pair_old by len_tac.
    rewrite list_lookup_insert_eq by exact Hlc. reflexivity. }
  split; [cbn [delete list_delete]; rewrite <- Hd; apply take_drop|].
  split.
  { rewrite Hv, <- fmap_app. f_equal.
    replace (Z.to_nat (mid + 1)) with (S m) by lia. apply take_drop. }
  split; [rewrite Hlt; lia|].
  split; [cbn [delete list_delete]; rewrite Hlr; lia|].
  split.
  { unfold Node.is_underflow. cbn [keys order]. rewrite Hlt. fold mid.
    destruct (Z.ltb_spec (Z.of_nat m) mid); [lia | reflexivity]. }
  split.
  { unfold Node.is_underflow. cbn [keys order delete list_delete]. rewrite Hlr.
    rewrite <- (underflow_after_split (order n) Ho). fold mid. f_equal. lia. }
  intros r Hr. apply adopt_all_parent; [exact Hr|].
  rewrite adopt_all_length, length_app, length_insert.
  apply HinR, Hin in Hr. lia.
Qed.

Lemma split_internal_node_witness :
  exists nl nr k,
    fst (Node.split 0%nat overflowing_root) = Ok tt
    /\ keys nl ++ k :: keys nr = [4; 7; 10; 12]
    /\ Z.of_nat (length (keys nr)) = 3 - ceil_half 3
    /\ Node.is_underflow nr = true.
Proof.
  destruct (split_internal_node overflowing_root 0%nat
              (mkNode 3 false [4; 7; 10; 12]
                 [VNode 1%nat; VNode 3%nat; VNode 5%nat; VNode 7%nat; VNode 8%nat]
                 None None None)
              [1%nat; 3%nat; 5%nat; 7%nat; 8%nat]
              eq_refl eq_refl eq_refl eq_refl eq_refl)
    as (nl & nr & k & Hrun & _ & _ & _ & Hks & _ & _ & Hlen & _ & Hunder & _).
  - repeat constructor; simpl; lia.
  - simpl. lia.
  - reflexivity.
  - exists nl, nr, k. rewrite Hrun. repeat split; assumption.
Defined.

(** ** [_update_parents] only renames keys *)

Lemma renamed_refl (old new : Z) (ks : list Z) : renamed old new ks ks.
Proof. apply Forall2_same_length_lookup. split; [reflexivity|]. intros i x y Hx Hy. left. congruence. Qed.

Lemma renamed_trans (old new : Z) (ks1 ks2 ks3 : list Z) :
  renamed old new ks1 ks2 -> renamed old new ks2 ks3 -> renamed old new ks1 ks3.
Proof.
  unfold renamed. intros H12. revert ks3.
  induction H12 as [|k1 k2 l1 l2 Hk H12 IH]; intros ks3 H23.
  - inversion H23. constructor.
  - inversion H23 as [|? k3 ? l3 Hk' H23']; subst. constructor; [|apply IH, H23'].
    destruct Hk as [->|[-> ->]], Hk' as [->|[<- ->]]; auto.
Qed.

Lemma renamed_replace_first (old new : Z) (ks : list Z) :
  renamed old new ks (BPlusTree.replace_first old new ks).
Proof.
  unfold BPlusTree.replace_first.
  destruct (list_index old ks) as [i|] eqn:Hi; [|apply renamed_refl].
  apply list_index_lookup in Hi.
  apply Forall2_same_length_lookup. split; [rewrite length_insert; reflexivity|].
  intros j x y Hx Hy. destruct (decide (j = i)) as [->|Hne].
  - rewrite list_lookup_insert_eq in Hy by (eapply lookup_lt_Some; eauto).
    right. split; congruence.
  - rewrite list_lookup_insert_ne in Hy by congruence. left. congruence.
Qed.

#[local] Instance keys_renamed_preorder (old new : Z) : PreOrder (keys_renamed old new).
Proof.
  split.
  - intros s. repeat split.
    apply Forall2_same_length_lookup. split; [reflexivity|].
    intros i n n' Hn Hn'. assert (n' = n) by congruence. subst n'.
    split; [destruct n; reflexivity | apply renamed_refl].
  - intros s1 s2 s3 (Hr & Ho & Hs & H12) (Hr' & Ho' & Hs' & H23).
    repeat split; try congruence.
    revert H23. generalize (heap s3). induction H12 as [|n1 n2 l1 l2 Hn H12 IH];
      intros h3 H23; inversion H23 as [|? n3 ? l3 Hn' H23']; subst; constructor.
    + destruct Hn as [Hn Hk], Hn' as [Hn' Hk']. split.
      * rewrite Hn', Hn. reflexivity.
      * eapply renamed_trans; eassumption.
    + apply IH, H23'.
Qed.

Lemma keys_renamed_step (old new : Z) (r : ref) :
  stable (keys_renamed old new)
    (ks <- get_keys r ;; set_keys r (BPlusTree.replace_first old new ks)).
Proof.
  intros s. destruct (heap s !! r) as [n|] eqn:Hr.
  - erewrite bind_ok by (apply get_keys_run; exact Hr).
    erewrite set_keys_run by exact Hr. cbn [snd]. repeat split.
    cbn [heap with_heap].
    apply Forall2_same_length_lookup. split; [rewrite length_insert; reflexivity|].
    intros j x y Hx Hy. unfold ref in *. destruct (decide (j = r)) as [->|Hne].
    + rewrite list_lookup_insert_eq in Hy by (eapply lookup_lt_Some; eauto).
      assert (x = n) by congruence. subst x. injection Hy as <-.
      split; [reflexivity | apply renamed_replace_first].
    + rewrite list_lookup_insert_ne in Hy by congruence.
      assert (y = x) by congruence. subst y.
      split; [destruct x; reflexivity | apply renamed_refl].
  - unfold bind, get_keys, bind, get_node. rewrite Hr. cbn [snd]. reflexivity.
Qed.

Lemma keys_renamed_loop (old new : Z) (fuel : nat) (node : option ref) :
  stable (keys_renamed old new) (BPlusTree.update_parents_loop fuel node old new).
Proof.
  revert node. induction fuel as [|fuel IH]; intros [r|]; cbn [BPlusTree.update_parents_loop];
    try apply stable_ret; try apply _; try apply stable_raise; try apply _.
  intros s.
  pose proof (keys_renamed_step old new r s) as H1.
  unfold bind at 1. unfold bind at 1 in H1.
  destruct (get_keys r s) as [[ks|e] s1]; [|exact H1].
  unfold bind at 1.
  destruct (set_keys r (BPlusTree.replace_first old new ks) s1) as [[[]|e] s2]; [|exact H1].
  transitivity s2; [exact H1|].
  apply stable_bind; [apply _ | | intros p; apply IH].
  unfold get_parent. apply stable_bind; [apply _ | apply stable_get_node, _ | intros n; apply stable_ret, _].
Qed.

(** X22.  [_update_parents] only renames keys: whatever the store and the
    arguments, and whether it returns or raises, the root, the order and
    standard output are as before, the store has the same objects, and every
    object differs from its former self at most in its keys, where each key
    is the former key at that index or [new_min_key] in the place of
    [old_min_key]. *)
Theorem update_parents_only_renames (node : option ref) (old_min_key new_min_key : Z)
    (s : state) :
  keys_renamed old_min_key new_min_key s
    (snd (BPlusTree._update_parents (node, old_min_key, new_min_key) s)).
Proof.
  unfold BPlusTree._update_parents.
  erewrite bind_ok by reflexivity. apply keys_renamed_loop.
Qed.

(** ** [_search_min_key_in_subtree] *)

Lemma min_key_loop_leftmost (s : state) (d fuel : nat) (r lf : ref) (nlf : Node) :
  leftmost (heap s) d r = Some lf ->
  heap s !! lf = Some nlf -> leaf nlf = true ->
  (d < fuel)%nat ->
  BPlusTree.min_key_loop fuel (VNode r) s
  = (match keys nlf with
     | k :: _ => Ok k
     | [] => Raise IndexError
     end, s).
Proof.
  revert r fuel. induction d as [|d IH]; intros r fuel Hleft Hlf Hleaf Hfuel.
  - injection Hleft as ->. destruct fuel as [|fuel]; [lia|].
    cbn [BPlusTree.min_key_loop].
    erewrite bind_ok by reflexivity.
    erewrite bind_ok by (apply get_node_run; exact Hlf).
    rewrite Hleaf. destruct (keys nlf); reflexivity.
  - destruct fuel as [|fuel]; [lia|].
    cbn [leftmost] in Hleft. unfold node_at in Hleft.
    destruct (heap s !! r) as [n|] eqn:Hr; [|cbn in Hleft; discriminate].
    cbn [default from_option] in Hleft. unfold id in Hleft.
    destruct (values n) as [|[c| |] vs] eqn:Hv; cbv iota in Hleft; try discriminate.
    destruct (leaf n) eqn:Hln; cbv iota in Hleft; [discriminate|].
    cbn [BPlusTree.min_key_loop].
    erewrite bind_ok by reflexivity.
    erewrite bind_ok by (apply get_node_run; exact Hr).
    rewrite Hln, Hv.
    erewrite bind_ok by reflexivity.
    apply IH; [exact Hleft | exact Hlf | exact Hleaf | lia].
Qed.

(** X25.  [_search_min_key_in_subtree]: when following the first child
    [d] times from the node [r] leads to a leaf, it returns the first key of
    that leaf, or raises IndexError when that leaf has no key; the store is
    not changed. *)
Theorem search_min_key_leftmost (s : state) (d : nat) (r lf : ref) (nlf : Node) :
  leftmost (heap s) d r = Some lf ->
  heap s !! lf = Some nlf -> leaf nlf = true ->
  (d <= length (heap s))%nat ->
  BPlusTree._search_min_key_in_subtree (VNode r) s
  = (match keys nlf with
     | k :: _ => Ok k
     | [] => Raise IndexError
     end, s).
Proof.
  intros Hleft Hlf Hleaf Hd. unfold BPlusTree._search_min_key_in_subtree.
  erewrite bind_ok by reflexivity.
  apply (min_key_loop_leftmost s d _ r lf nlf); [assumption.. | lia].
Qed.

Lemma search_min_key_leftmost_witness :
  BPlusTree._search_min_key_in_subtree (VNode 0%nat) tree_1_to_10 = (Ok 1, tree_1_to_10).
Proof.
  exact (search_min_key_leftmost tree_1_to_10 1 0%nat 1%nat
           (mkNode 4 true [1; 2; 3; 4] [VList [1]; VList [2]; VList [3]; VList [4]]
              (Some 0%nat) None (Some 3%nat))
           eq_refl eq_refl eq_refl ltac:(simpl; lia)).
Defined.

(** ** Which exceptions a computation can raise *)

Section RaisesOnly.

Context (P : exn -> bool) (HP : forall e, builtin e = true -> P e = true).

Lemma ro_ret {A} (a : A) : raises_only P (ret a).
Proof. intros s. exact I. Qed.

Lemma ro_raise {A} (e : exn) : P e = true -> raises_only P (@raise A e).
Proof. intros He s. exact He. Qed.

Lemma ro_bind {A B} (m : M A) (f : A -> M B) :
  raises_only P m -> (forall a, raises_only P (f a)) -> raises_only P (bind m f).
Proof.
  intros Hm Hf s. unfold bind. specialize (Hm s).
  destruct (m s) as [[a|e] s1]; simpl in *; [apply Hf | exact Hm].
Qed.

Lemma ro_for_each {A} (l : list A) (body : A -> M unit) :
  (forall a, raises_only P (body a)) -> raises_only P (for_each l body).
Proof.
  intros Hb. induction l as [|x l IH]; simpl.
  - apply ro_ret.
  - apply ro_bind; [apply Hb | intros _; exact IH].
Qed.

Lemma ro_get_state : raises_only P get_state.
Proof. intros s. exact I. Qed.

Lemma ro_print m : raises_only P (print m).
Proof. intros s. exact I. Qed.

Lemma ro_set_root r : raises_only P (set_root r).
Proof. intros s. exact I. Qed.

Lemma ro_get_node r : raises_only P (get_node r).
Proof.
  intros s. unfold get_node. destruct (heap s !! r); simpl; [exact I|].
  apply HP. reflexivity.
Qed.

Lemma ro_update_node r f : raises_only P (update_node r f).
Proof.
  unfold update_node. apply ro_bind; [apply ro_get_node | intros n].
  apply ro_bind; [apply ro_get_state | intros s0 s; exact I].
Qed.

Lemma ro_new_node o l ks vs p : raises_only P (new_node o l ks vs p).
Proof. intros s. exact I. Qed.

Lemma ro_index {A} (l : list A) i : raises_only P (index l i).
Proof.
  unfold index. destruct (py_index l i); [apply ro_ret | apply ro_raise, HP; reflexivity].
Qed.

Lemma ro_pop {A} (l : list A) i : raises_only P (pop l i).
Proof.
  unfold pop. destruct (py_pop l i); [apply ro_ret | apply ro_raise, HP; reflexivity].
Qed.

Lemma ro_not_none o : raises_only P (not_none o).
Proof. destruct o; [apply ro_ret | apply ro_raise, HP; reflexivity]. Qed.

Lemma ro_as_node v : raises_only P (as_node v).
Proof. destruct v; first [apply ro_ret | apply ro_raise, HP; reflexivity]. Qed.

Lemma ro_path_pop p : raises_only P (BPlusTree.path_pop p).
Proof. destruct p; [apply ro_raise, HP; reflexivity | apply ro_ret]. Qed.

End RaisesOnly.

Lemma ro_weaken (P Q : exn -> bool) {A} (m : M A) :
  (forall e, P e = true -> Q e = true) -> raises_only P m -> raises_only Q m.
Proof.
  intros HPQ Hm s. specialize (Hm s). destruct (fst (m s)); [exact I | apply HPQ, Hm].
Qed.

(** [try: m except e: h] raises what [h] raises and what [m] raises other
    than [e]. *)
Lemma ro_try_except (P Q : exn -> bool) {A} (m h : M A) (e : exn) :
  builtin e = false ->
  (forall e', Q e' = true -> e' = e \/ P e' = true) ->
  raises_only Q m -> raises_only P h -> raises_only P (try_except m e h).
Proof.
  intros He HQ Hm Hh s. unfold try_except. specialize (Hm s).
  destruct (m s) as [[a|e'] s1]; simpl in *; [exact I|].
  destruct (HQ e' Hm) as [->|HPe].
  - destruct e; try discriminate; apply Hh.
  - destruct e, e'; try discriminate; first [apply Hh | exact HPe].
Qed.

Create HintDb ro.
#[local] Hint Resolve ro_ret ro_get_state ro_print ro_set_root ro_get_node
  ro_update_node ro_new_node ro_index ro_pop ro_not_none ro_as_node ro_path_pop : ro.
#[local] Hint Extern 1 (raises_only _ (raise _)) =>
  (apply ro_raise;
   first [ reflexivity
         | match goal with
           | H : forall e, builtin e = true -> _ |- _ => apply H; reflexivity
           end ]) : ro.
#[local] Hint Extern 1 (forall e, builtin e = true -> _ e = true) =>
  (let e := fresh in intros e; destruct e; simpl; congruence) : ro.

Ltac ro_step :=
  first
    [ solve [eauto with ro]
    | match goal with
      | |- raises_only _ (bind _ _) => apply ro_bind; [ | intros ?; cbv beta]
      | |- raises_only _ (for_each _ _) => apply ro_for_each; intros ?; cbv beta
      | |- raises_only _ (match ?x with _ => _ end) => destruct x
      end ].

Ltac ro_tac := repeat ro_step.

Section RaisesOnlyDerived.

Context (P : exn -> bool) (HP : forall e, builtin e = true -> P e = true).

Local Hint Resolve HP : ro.

Lemma ro_set_leaf r b : raises_only P (set_leaf r b).
Proof. apply ro_update_node, HP. Qed.
Lemma ro_set_keys r ks : raises_only P (set_keys r ks).
Proof. apply ro_update_node, HP. Qed.
Lemma ro_set_values r vs : raises_only P (set_values r vs).
Proof. apply ro_update_node, HP. Qed.
Lemma ro_set_parent r p : raises_only P (set_parent r p).
Proof. apply ro_update_node, HP. Qed.
Lemma ro_set_prev r p : raises_only P (set_prev r p).
Proof. apply ro_update_node, HP. Qed.
Lemma ro_set_next r p : raises_only P (set_next r p).
Proof. apply ro_update_node, HP. Qed.
Lemma ro_get_leaf r : raises_only P (get_leaf r).
Proof. unfold get_leaf. ro_tac. Qed.
Lemma ro_get_keys r : raises_only P (get_keys r).
Proof. unfold get_keys. ro_tac. Qed.
Lemma ro_get_values r : raises_only P (get_values r).
Proof. unfold get_values. ro_tac. Qed.
Lemma ro_get_parent r : raises_only P (get_parent r).
Proof. unfold get_parent. ro_tac. Qed.
Lemma ro_get_prev r : raises_only P (get_prev r).
Proof. unfold get_prev. ro_tac. Qed.
Lemma ro_get_next r : raises_only P (get_next r).
Proof. unfold get_next. ro_tac. Qed.

Local Hint Resolve ro_set_leaf ro_set_keys ro_set_values ro_set_parent
  ro_set_prev ro_set_next ro_get_leaf ro_get_keys ro_get_values
  ro_get_parent ro_get_prev ro_get_next : ro.

Lemma ro_min_key_loop fuel v : raises_only P (BPlusTree.min_key_loop fuel v).
Proof. revert v. induction fuel as [|fuel IH]; intros v; simpl; ro_tac. Qed.

Lemma ro_search_min_key v : raises_only P (BPlusTree._search_min_key_in_subtree v).
Proof.
  unfold BPlusTree._search_min_key_in_subtree.
  destruct v; ro_tac; try apply ro_min_key_loop.
Qed.

Local Hint Resolve ro_search_min_key : ro.

Lemma ro_left_rotate node : raises_only P (BPlusTree._left_rotate node).
Proof. unfold BPlusTree._left_rotate. ro_tac. Qed.

Lemma ro_right_rotate node : raises_only P (BPlusTree._right_rotate node).
Proof. unfold BPlusTree._right_rotate. ro_tac. Qed.

Lemma ro_update_parents_loop fuel node old_min_key new_min_key :
  raises_only P (BPlusTree.update_parents_loop fuel node old_min_key new_min_key).
Proof. revert node. induction fuel as [|fuel IH]; intros [r|]; simpl; ro_tac. Qed.

Lemma ro_update_parents a : raises_only P (BPlusTree._update_parents a).
Proof.
  unfold BPlusTree._update_parents. destruct a as [[node o] n].
  ro_tac; try apply ro_update_parents_loop.
Qed.

Lemma ro_search_position node data :
  raises_only P (BPlusTree._search_position_in_child node data).
Proof. unfold BPlusTree._search_position_in_child. ro_tac. Qed.

Lemma ro_descend fuel curr data path :
  raises_only P (BPlusTree.descend fuel curr data path).
Proof.
  revert curr path. induction fuel as [|fuel IH]; intros curr path; simpl; ro_tac;
    try apply ro_search_position.
Qed.

Lemma ro_locate data : raises_only P (BPlusTree.locate data).
Proof. unfold BPlusTree.locate. ro_tac; try apply ro_descend. Qed.

Lemma ro_update_doubly_linked_list self left right :
  raises_only P (Node._update_doubly_linked_list self left right).
Proof. unfold Node._update_doubly_linked_list. ro_tac. Qed.

Lemma ro_split self : raises_only P (Node.split self).
Proof. unfold Node.split. ro_tac; try apply ro_update_doubly_linked_list. Qed.

Lemma ro_merge_into_parent node idx :
  raises_only P (BPlusTree._merge_into_parent node idx).
Proof. unfold BPlusTree._merge_into_parent. ro_tac. Qed.

Lemma ro_add self data : raises_only P (Node.add self data).
Proof. unfold Node.add. ro_tac. Qed.

Lemma ro_right_redistribute node : raises_only P (BPlusTree._right_redistribute node).
Proof. unfold BPlusTree._right_redistribute. ro_tac; try apply ro_left_rotate. Qed.

End RaisesOnlyDerived.

#[local] Hint Resolve ro_set_leaf ro_set_keys ro_set_values ro_set_parent
  ro_set_prev ro_set_next ro_get_leaf ro_get_keys ro_get_values
  ro_get_parent ro_get_prev ro_get_next ro_search_min_key ro_left_rotate
  ro_right_rotate ro_update_parents ro_search_position ro_locate ro_split
  ro_merge_into_parent ro_add ro_right_redistribute : ro.

Lemma ro_rotate node : raises_only or_rotate_error (BPlusTree._rotate node).
Proof. unfold BPlusTree._rotate. ro_tac. Qed.

Lemma ro_left_redistribute node idx :
  raises_only or_left_redistribute_error (BPlusTree._left_redistribute node idx).
Proof. unfold BPlusTree._left_redistribute. ro_tac. Qed.

Lemma ro_remove self data : raises_only or_remove_error (Node.remove self data).
Proof. unfold Node.remove. ro_tac. Qed.

Lemma or_rotate_error_cases (e : exn) :
  or_rotate_error e = true -> e = RotateError \/ builtin e = true.
Proof. destruct e; simpl; auto. Qed.
Lemma or_left_redistribute_error_cases (e : exn) :
  or_left_redistribute_error e = true -> e = LeftRedistributeError \/ builtin e = true.
Proof. destruct e; simpl; auto. Qed.
Lemma or_remove_error_cases (e : exn) :
  or_remove_error e = true -> e = RemoveError \/ builtin e = true.
Proof. destruct e; simpl; auto. Qed.

Lemma ro_insert_repair fuel curr path :
  raises_only builtin (BPlusTree.insert_repair fuel curr path).
Proof.
  revert curr path. induction fuel as [|fuel IH]; intros [c|] path; simpl; ro_tac.
  apply (ro_try_except builtin or_rotate_error);
    [reflexivity | apply or_rotate_error_cases | | ro_tac].
  apply ro_bind; [apply ro_rotate | intros ?; ro_tac].
Qed.

Lemma ro_insert data : raises_only builtin (BPlusTree.insert data).
Proof. unfold BPlusTree.insert. ro_tac. apply ro_insert_repair. Qed.

Lemma ro_delete_repair fuel curr path :
  raises_only builtin (BPlusTree.delete_repair fuel curr path).
Proof.
  revert curr path. induction fuel as [|fuel IH]; intros [c|] path; simpl; ro_tac.
  apply (ro_try_except builtin or_left_redistribute_error);
    [reflexivity | apply or_left_redistribute_error_cases | | ro_tac].
  apply ro_bind; [apply ro_left_redistribute | intros ?; ro_tac].
Qed.

Lemma ro_delete data : raises_only builtin (BPlusTree.delete data).
Proof.
  unfold BPlusTree.delete.
  apply ro_bind; [ro_tac | intros cp].
  apply ro_bind.
  - apply (ro_try_except builtin or_remove_error);
      [reflexivity | apply or_remove_error_cases | | ro_tac].
    apply ro_bind; [apply ro_remove | intros ?; ro_tac].
  - intros [a|]; ro_tac. apply ro_delete_repair.
Qed.

Lemma ro_find data : raises_only builtin (BPlusTree.find data).
Proof. unfold BPlusTree.find. ro_tac. Qed.

Lemma ro_bulk_repair fuel curr last_parent first_split :
  raises_only builtin (BPlusTree.bulk_repair fuel curr last_parent first_split).
Proof.
  revert curr last_parent first_split.
  induction fuel as [|fuel IH]; intros [c|] last_parent first_split; simpl; ro_tac.
Qed.

Lemma ro_bulk_loop buckets i last_parent left_sibling :
  raises_only builtin (BPlusTree.bulk_loop buckets i last_parent left_sibling).
Proof.
  revert i last_parent left_sibling.
  induction buckets as [|bucket buckets IH]; intros i last_parent left_sibling; simpl;
    ro_tac; try apply ro_bulk_repair.
Qed.

Lemma ro_bulk_load values : raises_only builtin (BPlusTree.bulk_load values).
Proof. unfold BPlusTree.bulk_load. ro_tac; apply ro_bulk_loop. Qed.

(** X11.  The exceptions of [exceptions.py] (RotateError,
    LeftRedistributeError, RemoveError) are control flow inside the tree:
    whatever the store, none of them leaves [insert], [delete], [find] or
    [bulk_load].  An operation that raises raises an exception of the
    interpreter (IndexError, AttributeError, UnboundLocalError,
    ValueError). *)
Theorem control_exceptions_never_escape (op : operation) (s : state) :
  match fst (perform op s) with
  | Raise e => builtin e = true
  | Ok _ => True
  end.
Proof.
  revert s. change (raises_only builtin (perform op)).
  destruct op; simpl;
    [apply ro_insert | apply ro_delete | apply ro_find | apply ro_bulk_load].
Qed.

Lemma has_room_false_prev (s : state) (p : ref) (np : Node) :
  heap s !! p = Some np ->
  (Z.of_nat (length (keys np)) <? tree_order s) = false ->
  has_room s (Some p) = false.
Proof. intros Hp Hlt. unfold has_room. rewrite Hp. exact Hlt. Qed.

Lemma ro_not_raised {A} (m : M A) (s s' : state) (e : exn) :
  raises_only builtin m -> builtin e = false -> m s <> (Raise e, s').
Proof.
  intros Hm He Hrun. specialize (Hm s). rewrite Hrun in Hm. simpl in Hm. congruence.
Qed.

(** X12.  When [_rotate] raises RotateError it has changed nothing, and
    neither sibling could take a key: the left and the right sibling are
    each absent or hold at least [order] keys.  So the split that [insert]
    falls back to starts from the store that [Node.add] left. *)
Theorem rotate_error_clean (s s' : state) (c : ref) (n : Node) :
  heap s !! c = Some n ->
  BPlusTree._rotate c s = (Raise RotateError, s') ->
  s' = s /\ has_room s (prev n) = false /\ has_room s (next n) = false.
Proof.
  intros Hc. unfold BPlusTree._rotate.
  erewrite bind_ok by reflexivity.
  erewrite bind_ok by (apply get_prev_run; exact Hc).
  assert (Hleft : forall (k : bool -> M (option ref * Z * Z)),
            (left_ok <- match prev n with
                        | Some p => pks <- get_keys p ;;
                                    ret (Z.of_nat (length pks) <? tree_order s)
                        | None => ret false
                        end ;; k left_ok) s = (Raise RotateError, s') ->
            exists b, k b s = (Raise RotateError, s')
                      /\ (b = false -> has_room s (prev n) = false)
                      /\ (b = true -> has_room s (prev n) = true)).
  { intros k. destruct (prev n) as [p|].
    - destruct (heap s !! p) as [np|] eqn:Hp.
      + erewrite bind_ok by (erewrite bind_ok by (apply get_keys_run; exact Hp); reflexivity).
        intros Hk. eexists. split; [exact Hk|]. unfold has_room. rewrite Hp. tauto.
      + unfold bind at 1, bind at 1, get_keys, bind, get_node. rewrite Hp. discriminate.
    - erewrite bind_ok by reflexivity. intros Hk. exists false. split; [exact Hk|].
      split; [reflexivity | discriminate]. }
  intros Hrun. apply Hleft in Hrun as (b & Hrun & Hb0 & _). destruct b.
  { exfalso. revert Hrun. apply ro_not_raised; [|reflexivity].
    apply ro_left_rotate. intros e He. exact He. }
  specialize (Hb0 eq_refl).
  erewrite bind_ok in Hrun by (apply get_next_run; exact Hc).
  destruct (next n) as [q|].
  - destruct (heap s !! q) as [nq|] eqn:Hq.
    + erewrite bind_ok in Hrun
        by (erewrite bind_ok by (apply get_keys_run; exact Hq); reflexivity).
      destruct (Z.of_nat (length (keys nq)) <? tree_order s) eqn:Hlt.
      * exfalso. revert Hrun. apply ro_not_raised; [|reflexivity].
        apply ro_right_rotate. intros e He. exact He.
      * injection Hrun as <-. unfold has_room at 2. rewrite Hq. auto.
    + exfalso. revert Hrun.
      unfold bind at 1, bind at 1, get_keys, bind, get_node. rewrite Hq. discriminate.
  - erewrite bind_ok in Hrun by reflexivity. injection Hrun as <-. auto.
Qed.

Lemma rotate_error_clean_witness :
  overflow_root_leaf = overflow_root_leaf
  /\ has_room overflow_root_leaf None = false
  /\ has_room overflow_root_leaf None = false.
Proof.
  exact (rotate_error_clean overflow_root_leaf overflow_root_leaf 0%nat
           (mkNode 4 true [1; 2; 3; 4; 5]
              [VList [1]; VList [2]; VList [3]; VList [4]; VList [5]] None None None)
           eq_refl eq_refl).
Defined.

(** X13.  When [_left_redistribute] raises LeftRedistributeError it has
    changed nothing, and either the node has no left sibling, or the left
    sibling holds at most [ceil(order/2)] keys (nothing to borrow) and the
    two nodes together hold more than [order] keys (no room to merge).  So
    [_right_redistribute], which [delete] falls back to, starts from an
    unchanged store. *)
Theorem left_redistribute_error_clean (s s' : state) (c : ref) (idx : nat) (n : Node) :
  heap s !! c = Some n ->
  BPlusTree._left_redistribute c idx s = (Raise LeftRedistributeError, s') ->
  s' = s
  /\ (prev n = None
      \/ exists ls nl,
           prev n = Some ls /\ heap s !! ls = Some nl
           /\ Z.of_nat (length (keys nl)) <= ceil_half (tree_order s)
           /\ tree_order s < Z.of_nat (length (keys n)) + Z.of_nat (length (keys nl))).
Proof.
  intros Hc. unfold BPlusTree._left_redistribute.
  erewrite bind_ok by reflexivity.
  erewrite bind_ok by (apply get_prev_run; exact Hc).
  destruct (prev n) as [ls|].
  - destruct (heap s !! ls) as [nl|] eqn:Hls.
    + erewrite bind_ok by (apply get_keys_run; exact Hls).
      destruct (Z.ltb_spec (ceil_half (tree_order s)) (Z.of_nat (length (keys nl)))).
      * intros Hrun. exfalso. revert Hrun. apply ro_not_raised; [|reflexivity].
        apply ro_right_rotate. intros e He. exact He.
      * erewrite bind_ok by (apply get_keys_run; exact Hc).
        destruct (Z.ltb_spec (tree_order s)
                    (Z.of_nat (length (keys n)) + Z.of_nat (length (keys nl)))).
        -- intros [= <-]. split; [reflexivity|]. right. eauto 10.
        -- intros Hrun. exfalso. revert Hrun. apply ro_not_raised; [|reflexivity].
           ro_tac.
    + unfold bind, get_keys, bind, get_node. rewrite Hls. discriminate.
  - intros [= <-]. auto.
Qed.

Lemma left_redistribute_error_clean_witness :
  tree_1_to_10 = tree_1_to_10
  /\ (@None ref = None
      \/ exists ls nl,
           @None ref = Some ls /\ heap tree_1_to_10 !! ls = Some nl
           /\ Z.of_nat (length (keys nl)) <= ceil_half (tree_order tree_1_to_10)
           /\ tree_order tree_1_to_10
              < Z.of_nat (length [1; 2; 3; 4]) + Z.of_nat (length (keys nl))).
Proof.
  exact (left_redistribute_error_clean tree_1_to_10 tree_1_to_10 1%nat 0%nat
           (mkNode 4 true [1; 2; 3; 4] [VList [1]; VList [2]; VList [3]; VList [4]]
              (Some 0%nat) None (Some 3%nat))
           eq_refl eq_refl).
Defined.

(** ** The command line *)

Lemma prefix_prefixes (a b : string) : String.prefix a b = true -> a ∈ prefixes b.
Proof.
  revert a. induction b as [|c b IH]; intros [|c' a]; simpl; try discriminate;
    try (intros _; left).
  destruct (Ascii.ascii_dec c' c) as [->|]; [|discriminate].
  intros H. right. apply list_elem_of_fmap. exists a. split; [reflexivity | apply IH, H].
Qed.

Lemma str_in_substrings (a b : string) : Main.str_in a b = true -> a ∈ substrings b.
Proof.
  induction b as [|c b IH]; cbn [Main.str_in substrings]; intros H;
    apply orb_true_iff in H as [H|H].
  - apply prefix_prefixes in H. rewrite app_nil_r. exact H.
  - discriminate.
  - apply elem_of_app. left. apply (prefix_prefixes a (String c b)), H.
  - apply elem_of_app. right. apply IH, H.
Qed.

Lemma split_join (command : string) :
  String.concat " " (Main.str_split command) = command.
Proof.
  induction command as [|c rest IH]; [reflexivity|]. simpl.
  match goal with
  | |- context [Ascii.eqb c ?x] => destruct (Ascii.eqb_spec c x) as [->|Hc]
  end.
  - cbn [String.concat]. destruct (Main.str_split rest) eqn:Hs.
    + destruct rest; simpl in Hs; [discriminate|].
      destruct (Ascii.eqb _ _); [discriminate|]. destruct (Main.str_split rest); discriminate.
    + rewrite IH. reflexivity.
  - destruct (Main.str_split rest) as [|w ws] eqn:Hs.
    + destruct rest; simpl in Hs; [discriminate|].
      destruct (Ascii.eqb _ _); [discriminate|]. destruct (Main.str_split rest); discriminate.
    + simpl in *. destruct ws; simpl in *; rewrite <- IH; reflexivity.
Qed.

(** X14.  A command line accepted by [is_command_valid] never makes
    [run_command] fail on its argument: the second word is there wherever
    [command_args[1]] is read, and [int] converts it.  [run_command] then is
    the call that it selects: the decorated [insert] or [delete], or [find],
    with the integer of the second word for [i b], [d b] and [f b],
    [display] for [D], [sys.exit()] for [q].  In every other case it raises
    NotImplementedError, which happens for the empty line, for [Dq], and for
    two-word lines whose first word is empty or one of [id], [df], [idf]: the
    validity check tests whether the first word occurs in [Dq] or [idf], not
    whether it is one of their letters.  What the tree call raises comes out
    of [run_command] as it is.  ([int] stands for Python's conversion.) *)
Theorem valid_command_effect (int : string -> option Z) (command : string) :
  Main.is_command_valid int command = true ->
  (exists b data,
     command = "i " +:+ b /\ int b = Some data
     /\ Main.run_command int command
        = Main.call (BPlusTree._display_bplus_tree BPlusTree.insert data))
  \/ (exists b data,
        command = "d " +:+ b /\ int b = Some data
        /\ Main.run_command int command
           = Main.call (BPlusTree._display_bplus_tree BPlusTree.delete data))
  \/ (exists b data,
        command = "f " +:+ b /\ int b = Some data
        /\ Main.run_command int command = Main.call (BPlusTree.find data))
  \/ (command = "D" /\ Main.run_command int command = Main.call BPlusTree.display)
  \/ (command = "q" /\ Main.run_command int command = fun s => (Main.SystemExit, s))
  \/ ((command = "" \/ command = "Dq"
       \/ exists a b,
            command = a +:+ " " +:+ b /\ Main.is_integer int b = true
            /\ (a = "" \/ a = "id" \/ a = "df" \/ a = "idf"))
      /\ Main.run_command int command = fun s => (Main.NotImplementedError, s)).
Proof.
  intros Hv. unfold Main.is_command_valid in Hv.
  pose proof (split_join command) as Hj. unfold Main.run_command.
  destruct (Main.str_split command) as [|a [|b [|? ?]]]; try discriminate.
  - apply str_in_substrings in Hv. cbn [String.concat] in Hj. subst command.
    vm_compute substrings in Hv.
    repeat (apply elem_of_cons in Hv as [->|Hv]); try (inversion Hv; fail);
      cbn; auto 10.
  - apply andb_true_iff in Hv as [Ha Hb]. apply str_in_substrings in Ha.
    cbn [String.concat] in Hj. subst command.
    pose proof Hb as Hb'. unfold Main.is_integer in Hb.
    destruct (int b) as [data|] eqn:Hint; [|discriminate].
    vm_compute substrings in Ha.
    repeat (apply elem_of_cons in Ha as [->|Ha]); try (inversion Ha; fail);
      cbn [String.eqb Ascii.eqb Bool.eqb Main.with_int_arg lookup list_lookup];
      rewrite ?Hint;
      first
        [ left; exists b, data; repeat split; first [reflexivity | exact Hint]
        | right; left; exists b, data; repeat split; first [reflexivity | exact Hint]
        | right; right; left; exists b, data; repeat split;
          first [reflexivity | exact Hint]
        | do 5 right; split; [|reflexivity]; right; right;
          match goal with
          | |- exists a0 b0, ?a +:+ _ = _ /\ _ => exists a, b
          end;
          split; [reflexivity|]; split; [exact Hb'|]; auto ].
Qed.

Lemma valid_command_effect_witness :
  (exists b data,
     "i 5" = "i " +:+ b /\ int_of_5 b = Some data
     /\ Main.run_command int_of_5 "i 5"
        = Main.call (BPlusTree._display_bplus_tree BPlusTree.insert data))
  \/ (exists b data,
        "i 5" = "d " +:+ b /\ int_of_5 b = Some data
        /\ Main.run_command int_of_5 "i 5"
           = Main.call (BPlusTree._display_bplus_tree BPlusTree.delete data))
  \/ (exists b data,
        "i 5" = "f " +:+ b /\ int_of_5 b = Some data
        /\ Main.run_command int_of_5 "i 5" = Main.call (BPlusTree.find data))
  \/ ("i 5" = "D" /\ Main.run_command int_of_5 "i 5" = Main.call BPlusTree.display)
  \/ ("i 5" = "q" /\ Main.run_command int_of_5 "i 5" = fun s => (Main.SystemExit, s))
  \/ (("i 5" = "" \/ "i 5" = "Dq"
       \/ exists a b,
            "i 5" = a +:+ " " +:+ b /\ Main.is_integer int_of_5 b = true
            /\ (a = "" \/ a = "id" \/ a = "df" \/ a = "idf"))
      /\ Main.run_command int_of_5 "i 5" = fun s => (Main.NotImplementedError, s)).
Proof. exact (valid_command_effect int_of_5 "i 5" eq_refl). Defined.

(** X15.  Whatever the tree, the command lines that [is_command_valid]
    accepts although [run_command] raises NotImplementedError on them are
    exactly: the empty line, [Dq], and the lines [a b] (one space) where [a]
    is empty, [id], [df] or [idf] and [b] is a word without space that [int]
    converts. *)
Theorem accepted_command_not_implemented (int : string -> option Z) (command : string)
    (s : state) :
  Main.is_command_valid int command = true
  /\ fst (Main.run_command int command s) = Main.NotImplementedError
  <-> command = "" \/ command = "Dq"
      \/ exists a b,
           command = a +:+ " " +:+ b
           /\ Main.str_split b = [b] /\ Main.is_integer int b = true
           /\ (a = "" \/ a = "id" \/ a = "df" \/ a = "idf").
Proof.
  assert (Hcall : forall m, fst (Main.call m s) <> Main.NotImplementedError).
  { intros m. unfold Main.call. destruct (m s) as [[?|?] ?]; discriminate. }
  split.
  - intros [Hv Hrun]. unfold Main.is_command_valid in Hv.
    pose proof (split_join command) as Hj. unfold Main.run_command in Hrun.
    destruct (Main.str_split command) as [|a [|b [|? ?]]] eqn:Hs; try discriminate.
    + apply str_in_substrings in Hv. cbn [String.concat] in Hj. subst command.
      vm_compute substrings in Hv.
      repeat (apply elem_of_cons in Hv as [->|Hv]); try (inversion Hv; fail);
        cbn in Hrun; try discriminate; try (apply Hcall in Hrun; contradiction); auto.
    + apply andb_true_iff in Hv as [Ha Hb]. apply str_in_substrings in Ha.
      cbn [String.concat] in Hj. subst command.
      assert (Hsb : Main.str_split b = [b]).
      { vm_compute substrings in Ha.
        repeat (apply elem_of_cons in Ha as [->|Ha]); try (inversion Ha; fail);
          cbv [String.append] in Hs; cbn in Hs;
          destruct (Main.str_split b) as [|w ws]; congruence. }
      pose proof Hb as Hb'. unfold Main.is_integer in Hb.
      destruct (int b) as [data|] eqn:Hint; [|discriminate].
      vm_compute substrings in Ha.
      repeat (apply elem_of_cons in Ha as [->|Ha]); try (inversion Ha; fail);
        cbn [String.eqb Ascii.eqb Bool.eqb Main.with_int_arg lookup list_lookup] in Hrun;
        rewrite ?Hint in Hrun; try (apply Hcall in Hrun; contradiction);
        (right; right; eexists _, b; split; [reflexivity|];
         split; [exact Hsb|]; split; [exact Hb'|]; auto).
  - intros [Hc|[Hc|(a & b & Hc & Hsb & Hb & Ha)]]; subst command;
      [split; reflexivity.. |].
    unfold Main.is_command_valid, Main.run_command.
    destruct Ha as [-> | [-> | [-> | ->]]]; cbv [String.append]; cbn; rewrite Hsb; cbn;
      rewrite Hb; split; reflexivity.
Qed.
